(** * Ro-Shipsy: the metrics engine of the analysis and output dashboards

    A shallow embedding of the reduction logic of
    [src/components/AnalysisPage.tsx] (remote summary normalisation, the
    simulated fallback, batch resolution, cross-scenario extrema) and of the
    output dashboard (CSV parsing, per-scenario and per-vehicle aggregation),
    followed by the properties the specification states about them; then
    the code around these reductions: the search form of the analysis
    page and the sheet connection of the output dashboard, with the
    properties their code shows.

    Modelling conventions.
    - A JavaScript number is an IEEE-754 binary64 value: Rocq's primitive
      [float].  The operations the language gives as primitives ([+], [-],
      [*], [/], comparisons) are the kernel's; the library functions the
      code calls ([Math.floor], [Math.round], [Math.min], [Math.max],
      [toFixed], number-to-string conversion, [parseFloat]) are defined
      from the exact value of the double, following ECMA-262.
    - A JavaScript string is a [string]: a sequence of 8-bit character
      codes (the Latin-1 range of UTF-16 code units).
    - A plain object used as a dictionary whose keys are enumerated is an
      insertion-ordered association list with [Object.keys] order; a row
      object that is only read by key is a [gmap string string].  Such
      an object inherits from [Object.prototype]: reading one of the
      inherited names ([constructor], [toString], [__proto__], ...) gives
      the inherited value when the object has no property of its own by
      that name, assigning a string to [__proto__] stores nothing, and
      calling [push] on an inherited value throws a [TypeError], which is
      an abrupt completion of the function.
    - [Array.prototype.sort] is the engine's: any function that permutes
      its input and, for a comparator that is a consistent one in the
      sense of ECMA-262, returns the stable sorted order.
    - A response body that parses has the shape its TypeScript interface
      declares; a field the code guards with [||] or a truth test may be
      missing and is an [option], [None] being [undefined].
    - [await], timers and rendering are not modelled: a remote call is
      represented by its outcome, and a batch by the outcomes of its
      calls.
    - Where the order of events matters (the search form, the sheet
      connection) a component is a transition system over its [useState]
      fields: an event is handled on the state the events before it have
      left, and an [async] function is split at its [await] into the part
      that starts the request and the part that runs when the request has
      settled. *)

From Stdlib Require Import ZArith QArith Qround String Ascii List Floats Lia.
From Stdlib Require Import DecimalString.
From stdpp Require Import gmap strings list.
Import ListNotations.
Local Close Scope Q_scope.

Set Warnings "-inexact-float".
Local Open Scope string_scope.
Local Open Scope list_scope.

(** ** Strings *)

Module JsString.

Definition LF : ascii := ascii_of_nat 10.
Definition quote : ascii := ascii_of_nat 34.
Definition comma : ascii := ascii_of_nat 44.

Definition code (c : ascii) : nat := nat_of_ascii c.

(** WhiteSpace and LineTerminator code units below 256. *)
Definition is_space (c : ascii) : bool :=
  let n := code c in
  ((9 <=? n)%nat && (n <=? 13)%nat) || (n =? 32)%nat || (n =? 160)%nat.

Definition is_digit (c : ascii) : bool :=
  let n := code c in (48 <=? n)%nat && (n <=? 57)%nat.

Fixpoint trimStart (s : string) : string :=
  match s with
  | String c s' => if is_space c then trimStart s' else s
  | EmptyString => EmptyString
  end.

(** Drops the white space at the end: a character stays when it is not
    white space or something after it stays. *)
Fixpoint trimEnd (s : string) : string :=
  match s with
  | String c s' =>
      match trimEnd s' with
      | EmptyString => if is_space c then EmptyString else String c EmptyString
      | t => String c t
      end
  | EmptyString => EmptyString
  end.

Definition trim (s : string) : string := trimEnd (trimStart s).

(** A non-empty string is truthy. *)
Definition truthy (s : string) : bool :=
  match s with EmptyString => false | _ => true end.

(** [s.split('\n')] *)
Fixpoint split_lines (s : string) : list string :=
  match s with
  | EmptyString => [EmptyString]
  | String c s' =>
      if Ascii.eqb c LF then EmptyString :: split_lines s'
      else
        match split_lines s' with
        | l :: ls => String c l :: ls
        | [] => [String c EmptyString]
        end
  end.

Definition lower_char (c : ascii) : ascii :=
  let n := code c in
  if ((65 <=? n)%nat && (n <=? 90)%nat)
     || ((192 <=? n)%nat && (n <=? 222)%nat && negb (n =? 215)%nat)
  then ascii_of_nat (n + 32) else c.

Fixpoint toLowerCase (s : string) : string :=
  match s with
  | EmptyString => EmptyString
  | String c s' => String (lower_char c) (toLowerCase s')
  end.

(** [s.includes(sub)] *)
Fixpoint includes (sub s : string) : bool :=
  String.prefix sub s
  || match s with
     | EmptyString => false
     | String _ s' => includes sub s'
     end.

Fixpoint filter_chars (keep : ascii -> bool) (s : string) : string :=
  match s with
  | EmptyString => EmptyString
  | String c s' =>
      if keep c then String c (filter_chars keep s') else filter_chars keep s'
  end.

Fixpoint dropLast (s : string) : string :=
  match s with
  | EmptyString => EmptyString
  | String c EmptyString => EmptyString
  | String c s' => String c (dropLast s')
  end.

Fixpoint last_is (a : ascii) (s : string) : bool :=
  match s with
  | EmptyString => false
  | String c EmptyString => Ascii.eqb c a
  | String _ s' => last_is a s'
  end.

(** [s.replace(/^"|"$/g, '')]: one quote at the start and one at the end
    are removed. *)
Definition strip_quotes (s : string) : string :=
  let s1 := match s with
            | String c s' => if Ascii.eqb c quote then s' else s
            | EmptyString => s
            end in
  if last_is quote s1 then dropLast s1 else s1.

(** [s || d] for a string that may be [undefined]. *)
Definition str_or (s : option string) (d : string) : string :=
  match s with
  | Some v => if truthy v then v else d
  | None => d
  end.

Fixpoint span_digits (s : string) : string * string :=
  match s with
  | String c s' =>
      if is_digit c then let '(d, r) := span_digits s' in (String c d, r)
      else (EmptyString, s)
  | EmptyString => (EmptyString, EmptyString)
  end.

Fixpoint digits_value_from (acc : Z) (s : string) : Z :=
  match s with
  | EmptyString => acc
  | String c s' => digits_value_from (10 * acc + Z.of_nat (code c - 48)) s'
  end.

Definition digits_value (s : string) : Z := digits_value_from 0 s.

Fixpoint zeros (n : nat) : string :=
  match n with O => EmptyString | S k => String "0" (zeros k) end.

(** [s.slice(n)] *)
Definition slice_from (n : nat) (s : string) : string :=
  substring n (String.length s - n) s.

End JsString.

(** ** Numbers *)

Module JsNumber.
Import JsString.

Definition number := float.

Definition NaN : number := nan.
Definition Infinity : number := infinity.

Definition isNaN (x : number) : bool := is_nan x.

(** [ToBoolean]: [0], [-0] and [NaN] are falsy. *)
Definition truthy (x : number) : bool := negb (is_nan x || is_zero x).

(** [x || d] on numbers. *)
Definition or_else (x d : number) : number := if truthy x then x else d.

(** [x === y] on numbers. *)
Definition strict_eq (x y : number) : bool := PrimFloat.eqb x y.

Definition is_neg_zero (x : number) : bool := is_zero x && get_sign x.
Definition is_pos_zero (x : number) : bool := is_zero x && negb (get_sign x).

(** The double of an integer and of a ratio of integers (nearest, ties to
    even). *)
Definition of_Z (z : Z) : number :=
  SF2Prim (binary_normalize prec emax z 0 false).

Definition of_ratio (n d : Z) : number :=
  match n, d with
  | Zpos p, Zpos q =>
      SF2Prim (SFdiv prec emax (S754_finite false p 0) (S754_finite false q 0))
  | Zneg p, Zpos q =>
      SF2Prim (SFdiv prec emax (S754_finite true p 0) (S754_finite false q 0))
  | _, _ => PrimFloat.zero
  end.

Definition signed (s : bool) (m : positive) : Z :=
  if s then Z.neg m else Z.pos m.

(** The exact value [m * 2^e] of a positive finite double as a ratio. *)
Definition ratio_of (m : positive) (e : Z) : Z * Z :=
  if (0 <=? e)%Z then (Z.pos m * 2 ^ e, 1)%Z else (Z.pos m, 2 ^ (- e))%Z.

Definition Math_floor (x : number) : number :=
  match Prim2SF x with
  | S754_finite s m e =>
      if (0 <=? e)%Z then x else of_Z (Z.shiftl (signed s m) e)
  | _ => x
  end.

(** Nearest integer, a tie going up; a result of zero keeps the sign of
    the argument. *)
Definition Math_round (x : number) : number :=
  match Prim2SF x with
  | S754_finite s m e =>
      if (0 <=? e)%Z then x
      else
        let n := Z.shiftl (2 * signed s m + 2 ^ (- e)) (e - 1) in
        if (n =? 0)%Z then (if s then neg_zero else PrimFloat.zero)
        else of_Z n
  | _ => x
  end.

(** One step of [Math.min] over its arguments, [lowest] starting at
    [+Infinity]; [NaN] is absorbing. *)
Definition min_step (lowest x : number) : number :=
  if is_nan lowest then lowest
  else if is_nan x then x
  else if is_neg_zero x && is_pos_zero lowest then x
  else if PrimFloat.ltb x lowest then x
  else lowest.

Definition max_step (highest x : number) : number :=
  if is_nan highest then highest
  else if is_nan x then x
  else if is_pos_zero x && is_neg_zero highest then x
  else if PrimFloat.ltb highest x then x
  else highest.

(** [Math.min(...xs)] and [Math.max(...xs)] *)
Definition Math_min (xs : list number) : number :=
  fold_left min_step xs infinity.

Definition Math_max (xs : list number) : number :=
  fold_left max_step xs neg_infinity.

Definition decimal (z : Z) : string :=
  NilZero.string_of_uint (N.to_uint (Z.to_N z)).

Definition ndigits (z : Z) : Z := Z.of_nat (String.length (decimal z)).

(** The [n] with [10^(n-1) <= N/D < 10^n], for [N, D > 0]. *)
Definition dec_exponent (N D : Z) : Z :=
  if (D <=? N)%Z then ndigits (N / D)
  else (1 - ndigits ((D + N - 1) / N - 1))%Z.

(** Number::toString, step 5: the decimal with [k] digits nearest to
    [N/D], when it reads back as [x]. *)
Definition shortest_at (x : number) (N D n k : Z) : option (Z * Z) :=
  let A := if (n <=? k)%Z then (N * 10 ^ (k - n))%Z else N in
  let B := if (n <=? k)%Z then D else (D * 10 ^ (n - k))%Z in
  let lo := (A / B)%Z in
  let r := (A mod B)%Z in
  let hi := (lo + 1)%Z in
  let back s :=
    if (n <=? k)%Z then of_ratio s (10 ^ (k - n))
    else of_ratio (s * 10 ^ (n - k)) 1 in
  let ok_lo := PrimFloat.eqb (back lo) x in
  let ok_hi := PrimFloat.eqb (back hi) x in
  let norm s := if (s =? 10 ^ k)%Z then (10 ^ (k - 1), n + 1)%Z else (s, n) in
  if ok_lo && (negb ok_hi || (2 * r <? B)%Z || ((2 * r =? B)%Z && Z.even lo))
  then Some (lo, n)
  else if ok_hi then Some (norm hi) else None.

Fixpoint shortest (x : number) (N D n k : Z) (fuel : nat) : Z * Z :=
  match fuel with
  | O => (0, n)%Z
  | S f =>
      match shortest_at x N D n k with
      | Some r => r
      | None => shortest x N D n (k + 1) f
      end
  end.

(** Number::toString(x), radix 10. *)
Definition Number_toString (x : number) : string :=
  match Prim2SF x with
  | S754_nan => "NaN"
  | S754_zero _ => "0"
  | S754_infinity s => if s then "-Infinity" else "Infinity"
  | S754_finite sg m e =>
      let '(N, D) := ratio_of m e in
      let '(s, n) := shortest (abs x) N D (dec_exponent N D) 1 25 in
      let ds := decimal s in
      let k := Z.of_nat (String.length ds) in
      let body :=
        if (k <=? n)%Z && (n <=? 21)%Z then ds +:+ zeros (Z.to_nat (n - k))
        else if (0 <? n)%Z && (n <=? 21)%Z then
          substring 0 (Z.to_nat n) ds +:+ "." +:+ slice_from (Z.to_nat n) ds
        else if (-6 <? n)%Z && (n <=? 0)%Z then
          "0." +:+ zeros (Z.to_nat (- n)) +:+ ds
        else
          let ex := (n - 1)%Z in
          let es := (if (ex <? 0)%Z then "-" else "+") +:+ decimal (Z.abs ex) in
          if (k =? 1)%Z then ds +:+ "e" +:+ es
          else substring 0 1 ds +:+ "." +:+ slice_from 1 ds +:+ "e" +:+ es in
      (if sg then "-" else "") +:+ body
  end.

(** [x.toFixed(f)]: below [10^21] the integer [n] nearest to [x * 10^f],
    the larger one at a tie, printed with [f] fraction digits. *)
Definition toFixed (x : number) (f : nat) : string :=
  match Prim2SF x with
  | S754_finite sg m e =>
      let '(N, D) := ratio_of m e in
      if (10 ^ 21 * D <=? N)%Z then Number_toString x
      else
        let n := ((2 * N * 10 ^ Z.of_nat f + D) / (2 * D))%Z in
        let ds := decimal n in
        let k := String.length ds in
        let ds := if (k <=? f)%nat then zeros (f + 1 - k) +:+ ds else ds in
        let k := String.length ds in
        let body :=
          match f with
          | O => ds
          | _ => substring 0 (k - f) ds +:+ "." +:+ slice_from (k - f) ds
          end in
        (if sg then "-" else "") +:+ body
  | S754_zero _ => match f with O => "0" | _ => "0." +:+ zeros f end
  | _ => Number_toString x
  end.

(** The value of the decimal [digits * 10^exp10] with sign [neg]. *)
Definition of_decimal (neg : bool) (digits : Z) (exp10 : Z) : number :=
  if (digits =? 0)%Z then (if neg then neg_zero else PrimFloat.zero)
  else
    let m := if neg then (- digits)%Z else digits in
    if (0 <=? exp10)%Z then of_ratio (m * 10 ^ exp10) 1
    else of_ratio m (10 ^ (- exp10)).

(** The exponent part of a decimal literal, when [s] starts with one. *)
Definition exponent_part (s : string) : Z :=
  match s with
  | String c r =>
      if Ascii.eqb c "e" || Ascii.eqb c "E" then
        let '(neg, r1) :=
          match r with
          | String "-" r' => (true, r')
          | String "+" r' => (false, r')
          | _ => (false, r)
          end in
        let '(ds, _) := span_digits r1 in
        if JsString.truthy ds
        then (if neg then - digits_value ds else digits_value ds)%Z
        else 0%Z
      else 0%Z
  | EmptyString => 0%Z
  end.

(** [parseFloat(s)]: the longest prefix of the trimmed string that is a
    decimal literal, [NaN] when there is none. *)
Definition parseFloat (s : string) : number :=
  let s0 := trimStart s in
  let '(neg, s1) :=
    match s0 with
    | String "-" r => (true, r)
    | String "+" r => (false, r)
    | _ => (false, s0)
    end in
  if String.prefix "Infinity" s1 then (if neg then neg_infinity else infinity)
  else
    let '(ip, r1) := span_digits s1 in
    let '(fp, r2) :=
      match r1 with
      | String "." r => span_digits r
      | _ => (EmptyString, r1)
      end in
    if JsString.truthy ip || JsString.truthy fp then
      of_decimal neg (digits_value (ip +:+ fp))
        (exponent_part r2 - Z.of_nat (String.length fp))
    else NaN.

End JsNumber.

(** ** Arrays and objects *)

Module JsArray.
Import JsNumber.

(** [Array.prototype.sort(cmp)] is stable: [x] goes in front of the first
    element it has to precede, an element [y] staying ahead of [x] only
    when [cmp x y > 0].  (For a comparator that is not a consistent order
    the language leaves the result to the engine.) *)
Fixpoint insert_sorted {A} (cmp : A -> A -> number) (x : A) (l : list A)
  : list A :=
  match l with
  | [] => [x]
  | y :: l' =>
      if PrimFloat.ltb 0 (cmp x y) then y :: insert_sorted cmp x l'
      else x :: l
  end.

Definition sort {A} (cmp : A -> A -> number) (l : list A) : list A :=
  fold_right (insert_sorted cmp) [] l.

(** [Array.prototype.sort] as an engine has it.  Where the comparator is
    not a consistent order the language leaves the order of the result to
    the engine: code that sorts with such a comparator is modelled over
    the sort of its engine. *)
Definition Sort : Type := forall A : Type, (A -> A -> number) -> list A -> list A.

End JsArray.

Module JsObject.
Import JsString JsNumber.

(** Own string-keyed properties in creation order. *)
Definition obj (V : Type) := list (string * V).

Fixpoint get {V} (o : obj V) (k : string) : option V :=
  match o with
  | [] => None
  | (k', v) :: o' => if String.eqb k' k then Some v else get o' k
  end.

(** The properties an object created by [{}] inherits from
    [Object.prototype]: those the language gives it (Annex B included).
    Each of them reads as a function, [__proto__] as [Object.prototype]
    itself: a truthy value that is neither an array nor an own property
    holder of the object.  The code below can add [distance] and [stops]
    to [Object.prototype] (through a vehicle code [__proto__]), both
    always [NaN], which every truth test of this code takes for a
    missing property: they are left out. *)
Definition prototype_names : list string :=
  [ "constructor"; "hasOwnProperty"; "isPrototypeOf"; "propertyIsEnumerable";
    "toLocaleString"; "toString"; "valueOf"; "__proto__";
    "__defineGetter__"; "__defineSetter__"; "__lookupGetter__";
    "__lookupSetter__" ].

Definition inherited (k : string) : bool :=
  existsb (String.eqb k) prototype_names.

(** [!o[k]] for an object whose own values are truthy: the property is
    neither its own nor inherited. *)
Definition missing {V} (o : obj V) (k : string) : bool :=
  match get o k with
  | Some _ => false
  | None => negb (inherited k)
  end.

(** What an evaluation comes to: a value, or a [TypeError] thrown. *)
Inductive Completion (A : Type) : Type :=
| Normal (a : A)
| TypeError.

Arguments Normal {A} a.
Arguments TypeError {A}.

(** [o[k] = v]: an existing property keeps its place. *)
Fixpoint set {V} (o : obj V) (k : string) (v : V) : obj V :=
  match o with
  | [] => [(k, v)]
  | (k', v') :: o' =>
      if String.eqb k' k then (k', v) :: o' else (k', v') :: set o' k v
  end.

Fixpoint all_digits (s : string) : bool :=
  match s with
  | EmptyString => true
  | String c s' => is_digit c && all_digits s'
  end.

(** An array index: the canonical decimal of an integer below [2^32 - 1]. *)
Definition array_index (k : string) : option Z :=
  if JsString.truthy k && all_digits k then
    let n := digits_value k in
    if String.eqb (decimal n) k && (n <? 2 ^ 32 - 1)%Z then Some n else None
  else None.

Definition is_index (k : string) : bool :=
  match array_index k with Some _ => true | None => false end.

Definition index_of (k : string) : Z :=
  match array_index k with Some n => n | None => 0%Z end.

Fixpoint insert_index (k : string) (ks : list string) : list string :=
  match ks with
  | [] => [k]
  | k' :: ks' =>
      if (index_of k <? index_of k')%Z then k :: ks
      else k' :: insert_index k ks'
  end.

(** [OrdinaryOwnPropertyKeys]: array indices in ascending order, then the
    other keys in creation order. *)
Definition order_keys (ks : list string) : list string :=
  fold_right insert_index [] (List.filter is_index ks)
    ++ List.filter (fun k => negb (is_index k)) ks.

(** [Object.keys(o)] *)
Definition keys {V} (o : obj V) : list string := order_keys (map fst o).

End JsObject.

(** ** [AnalysisPage.tsx] *)

Module AnalysisPage.
Import JsString JsNumber.
Local Open Scope float_scope.

Record DropBreakupItem := {
  reason_code : string;
  reason_label : option string;
  dropped_count : number;
  pct_of_dropped : number;
  pct_of_planned : number
}.

Record Summary := {
  total_trips : option number;
  total_distance_km : option number;
  avg_trip_distance_km : option number;
  total_trip_hours : option number;
  avg_trip_hours : option number;
  total_consignments_planned : option number;
  total_consignments_served : option number;
  total_consignments_dropped : option number;
  avg_stops_per_trip : option number
}.

Record TripMatrixRow := {
  vehicle_code : string;
  trip_index : number;
  num_tasks : number;
  distance_km : number;
  duration_hours : number
}.

Record WebhookResponseItem := {
  success : option bool;
  request_id : option string;
  hub_code : option string;
  summary : option Summary;
  trip_matrix : list TripMatrixRow;
  drop_breakup : option (list DropBreakupItem)
}.

Record DropReason := { reason : string; count : number }.

Record DetailedMetrics := {
  id : string;
  hub : string;
  totalTrips : number;
  avgDistance : number;
  avgDistanceStr : string;
  totalStops : number;
  avgConsignments : number;
  avgConsignmentsStr : string;
  avgTripTimeStr : string;
  totalDrops : number;
  dropSplit : number;
  dropSplitStr : string;
  dropReasons : list DropReason;
  isMock : bool
}.

Inductive AnalysisMode := SINGLE | COMPARE.

Definition MOCK_RESPONSE_DATA : WebhookResponseItem := {|
  success := Some true;
  request_id := Some "IDBtest3";
  hub_code := Some "PALAK";
  summary := Some {|
    total_trips := Some 1;
    total_distance_km := Some 0.06;
    avg_trip_distance_km := Some 0.06;
    total_trip_hours := Some 2.11;
    avg_trip_hours := Some 2.11;
    total_consignments_planned := Some 13;
    total_consignments_served := Some 10;
    total_consignments_dropped := Some 3;
    avg_stops_per_trip := Some 10
  |};
  trip_matrix := [ {|
    vehicle_code := "AW9910";
    trip_index := 1;
    num_tasks := 10;
    distance_km := 0.06;
    duration_hours := 2.11
  |} ];
  drop_breakup := Some [ {|
    reason_code := "WEIGHT_CONSTRAINT_BREACH";
    reason_label := Some "Insufficient weight";
    dropped_count := 3;
    pct_of_dropped := 100;
    pct_of_planned := 23.08
  |} ]
|}.

(** [x || d] and [ToNumber x] for a number that may be [undefined]. *)
Definition num_or (x : option number) (d : number) : number :=
  match x with
  | Some v => or_else v d
  | None => d
  end.

Definition ToNumber (x : option number) : number :=
  match x with
  | Some v => v
  | None => NaN
  end.

Definition formatHoursToHHMM (decimalHours : number) : string :=
  if isNaN decimalHours then "0h 0m"
  else
    let hrs := Math_floor decimalHours in
    let mins := Math_round ((decimalHours - hrs) * 60) in
    Number_toString hrs +:+ "h " +:+ Number_toString mins +:+ "m".

(** *** The remote call *)

Inductive JsonBody :=
| BodyArray (items : list WebhookResponseItem)
| BodyItem (item : WebhookResponseItem).

(** What the request came to: [fetch] rejected, or a response arrived
    with a status and a body, [None] when [response.json()] rejects. *)
Inductive FetchOutcome :=
| NetworkError
| HttpResponse (status : nat) (body : option JsonBody).

Definition response_ok (status : nat) : bool :=
  (200 <=? status)%nat && (status <=? 299)%nat.

(** The [try] block: [None] when it throws, else the value of [item]
    (which is [undefined] for an empty array). *)
Definition try_remote (o : FetchOutcome) : option (option WebhookResponseItem) :=
  match o with
  | NetworkError => None
  | HttpResponse status body =>
      if negb (response_ok status) then None
      else
        match body with
        | None => None
        | Some (BodyArray items) => Some (head items)
        | Some (BodyItem item) => Some (Some item)
        end
  end.

Definition mock_item (scenarioName : string) : WebhookResponseItem := {|
  success := success MOCK_RESPONSE_DATA;
  request_id := Some scenarioName;
  hub_code := hub_code MOCK_RESPONSE_DATA;
  summary := summary MOCK_RESPONSE_DATA;
  trip_matrix := trip_matrix MOCK_RESPONSE_DATA;
  drop_breakup := drop_breakup MOCK_RESPONSE_DATA
|}.

Definition drop_reason_of (d : DropBreakupItem) : DropReason := {|
  reason := str_or (reason_label d) (reason_code d);
  count := dropped_count d
|}.

(** The part of [fetchScenarioData] after the [try]/[catch]: from the
    item in hand to the metrics. *)
Definition normalize (scenarioName : string) (item : option WebhookResponseItem)
    (isMock : bool) : option DetailedMetrics :=
  match item with
  | None => None
  | Some item =>
      if match success item with Some false => true | _ => false end
         && negb isMock
      then None
      else
        match summary item with
        | None => None
        | Some summary =>
            let totalPlanned := num_or (total_consignments_planned summary) 1 in
            let dropSplit :=
              (ToNumber (total_consignments_dropped summary) / totalPlanned) * 100 in
            Some {|
              id := str_or (request_id item) scenarioName;
              hub := str_or (hub_code item) "N/A";
              totalTrips := num_or (total_trips summary) 0;
              avgDistance := num_or (avg_trip_distance_km summary) 0;
              avgDistanceStr := toFixed (num_or (avg_trip_distance_km summary) 0) 2;
              totalStops := num_or (total_consignments_served summary) 0;
              avgConsignments := num_or (avg_stops_per_trip summary) 0;
              avgConsignmentsStr := toFixed (num_or (avg_stops_per_trip summary) 0) 1;
              avgTripTimeStr := formatHoursToHHMM (num_or (avg_trip_hours summary) 0);
              totalDrops := num_or (total_consignments_dropped summary) 0;
              dropSplit := dropSplit;
              dropSplitStr := toFixed dropSplit 1;
              dropReasons :=
                JsArray.sort (fun a b => count b - count a)
                  (map drop_reason_of
                     (match drop_breakup item with Some l => l | None => [] end));
              isMock := isMock
            |}
        end
  end.

Definition fetchScenarioData (scenarioName : string) (o : FetchOutcome)
  : option DetailedMetrics :=
  match try_remote o with
  | Some item => normalize scenarioName item false
  | None => normalize scenarioName (Some (mock_item scenarioName)) true
  end.

(** *** The page state and a batch search *)

Record PageState := {
  mode : AnalysisMode;
  searchInput : string;
  searchTags : list string;
  isLoading : bool;
  metricsData : list DetailedMetrics;
  error : option string;
  hasSearched : bool
}.

(** The state a page starts in, from the [useState] initial values. *)
Definition initialState (initialScenario : option string) : PageState := {|
  mode := SINGLE;
  searchInput := str_or initialScenario "";
  searchTags := [];
  isLoading := false;
  metricsData := [];
  error := None;
  hasSearched := false
|}.

Definition unresolvable : string :=
  "Could not retrieve data. Please check Scenario Name.".

(** [results.filter(Boolean)] *)
Definition validResults (results : list (option DetailedMetrics))
  : list DetailedMetrics :=
  omap (fun r => r) results.

(** [executeSearch]: every requested name comes with the outcome of its
    remote call. *)
Definition executeSearch (st : PageState) (scenarios : list (string * FetchOutcome))
  : PageState :=
  match scenarios with
  | [] => st
  | _ =>
      let results := map (fun '(name, o) => fetchScenarioData name o) scenarios in
      let valid := validResults results in
      match valid with
      | [] => {|
          mode := mode st;
          searchInput := searchInput st;
          searchTags := searchTags st;
          isLoading := false;
          metricsData := [];
          error := Some (str_or (Some unresolvable) "Failed to fetch analysis data.");
          hasSearched := true
        |}
      | _ => {|
          mode := mode st;
          searchInput :=
            match mode st with COMPARE => "" | SINGLE => searchInput st end;
          searchTags := searchTags st;
          isLoading := false;
          metricsData := valid;
          error := None;
          hasSearched := true
        |}
      end
  end.

(** *** Cross-scenario extrema *)

Record ComparisonExtrema := {
  minDistance : number;
  minDrops : number;
  minTrips : number;
  maxConsignments : number
}.

Definition bestMetrics (mode : AnalysisMode) (metricsData : list DetailedMetrics)
  : option ComparisonExtrema :=
  if (length metricsData <? 2)%nat
     || match mode with COMPARE => false | SINGLE => true end
  then None
  else Some {|
    minDistance := Math_min (map avgDistance metricsData);
    minDrops := Math_min (map totalDrops metricsData);
    minTrips := Math_min (map totalTrips metricsData);
    maxConsignments := Math_max (map avgConsignments metricsData)
  |}.

(** The badges of the comparison matrix:
    [bestMetrics && s.field === bestMetrics.extremum]. *)
Definition badge (best : option ComparisonExtrema)
    (extremum : ComparisonExtrema -> number) (v : number) : bool :=
  match best with
  | Some b => strict_eq v (extremum b)
  | None => false
  end.

Definition lowestTrips best (s : DetailedMetrics) : bool :=
  badge best minTrips (totalTrips s).
Definition bestDistance best (s : DetailedMetrics) : bool :=
  badge best minDistance (avgDistance s).
Definition highestConsignments best (s : DetailedMetrics) : bool :=
  badge best maxConsignments (avgConsignments s).
Definition lowestDrops best (s : DetailedMetrics) : bool :=
  badge best minDrops (totalDrops s).

End AnalysisPage.

(** ** The output dashboard *)

Module OutputDashboard.
Import JsString JsNumber.
Local Open Scope float_scope.

Abbreviation SheetRow := (gmap string string).

Record ScenarioMetrics := {
  id : string;
  hub : string;
  totalVehicles : nat;
  totalTrips : nat;
  avgStops : string;
  avgDistance : string;
  isCurrent : bool
}.

Record ParsedSheet := { headers : list string; rows : list SheetRow }.

(** *** CSV parsing *)

(** The scanning loop of [parseLine] from the character in hand on. *)
Fixpoint parseLine_loop (line : string) (result : list string)
    (current : string) (inQuotes : bool) : list string :=
  match line with
  | EmptyString => result ++ [trim current]
  | String char rest =>
      if Ascii.eqb char quote then
        parseLine_loop rest result current (negb inQuotes)
      else if Ascii.eqb char comma && negb inQuotes then
        parseLine_loop rest (result ++ [trim current]) EmptyString inQuotes
      else
        parseLine_loop rest result (current +:+ String char EmptyString) inQuotes
  end.

Definition parseLine (line : string) : list string :=
  map (fun val => trim (strip_quotes val))
    (parseLine_loop line [] EmptyString false).

(** [headers.forEach((h, i) => { row[h] = values[i] || ''; })] from
    index [i] on.  The row holds the own properties of the object:
    assigning a string to [__proto__] changes nothing, every other key,
    inherited or not, becomes an own property. *)
Fixpoint fill_row (hs : list string) (i : nat) (values : list string)
    (row : SheetRow) : SheetRow :=
  match hs with
  | [] => row
  | h :: hs' =>
      fill_row hs' (S i) values
        (if String.eqb h "__proto__" then row
         else <[h := str_or (values !! i) ""]> row)
  end.

Definition make_row (headers : list string) (line : string) : SheetRow :=
  fill_row headers 0 (parseLine line) ∅.

(** [text.split('\n').filter(l => l.trim())] *)
Definition surviving_lines (text : string) : list string :=
  List.filter (fun l => JsString.truthy (trim l)) (split_lines text).

Definition parseCSV (text : string) : ParsedSheet :=
  match surviving_lines text with
  | [] => {| headers := []; rows := [] |}
  | line0 :: rest =>
      let headers := parseLine line0 in
      {| headers := headers; rows := map (make_row headers) rest |}
  end.

(** *** Metrics per scenario *)

Record VehicleStat := { distance : number; stops : number }.

(** [row[a] || row[b] || d] *)
Definition field (row : SheetRow) (a b d : string) : string :=
  str_or (row !! a) (str_or (row !! b) d).

Definition reqId_of (row : SheetRow) : string :=
  field row "request_id" "Request_Id" "Unknown".

(** Step 1: rows grouped by scenario.  For a request id that names an
    inherited property, [scenarios[reqId]] is the inherited value: no
    array is made, and the call of its [push], which it has not, throws. *)
Definition group_row (scenarios : JsObject.obj (list SheetRow)) (row : SheetRow)
  : JsObject.Completion (JsObject.obj (list SheetRow)) :=
  let reqId := reqId_of row in
  let scenarios1 :=
    if JsObject.missing scenarios reqId then JsObject.set scenarios reqId []
    else scenarios in
  match JsObject.get scenarios1 reqId with
  | Some l => JsObject.Normal (JsObject.set scenarios1 reqId (l ++ [row]))
  | None => JsObject.TypeError
  end.

(** [data.forEach(row => ...)]: the first row that throws ends it. *)
Fixpoint group_rows (scenarios : JsObject.obj (list SheetRow))
    (data : list SheetRow) : JsObject.Completion (JsObject.obj (list SheetRow)) :=
  match data with
  | [] => JsObject.Normal scenarios
  | row :: rest =>
      match group_row scenarios row with
      | JsObject.Normal scenarios' => group_rows scenarios' rest
      | JsObject.TypeError => JsObject.TypeError
      end
  end.

Definition group_by_scenario (data : list SheetRow)
  : JsObject.Completion (JsObject.obj (list SheetRow)) :=
  group_rows [] data.

(** [r['vehicle_code'] || r['Vehicle_Code']]; the empty string stands for
    every falsy result. *)
Definition vCode_of (r : SheetRow) : string :=
  field r "vehicle_code" "Vehicle_Code" "".

(** The characters [replace(/[^0-9.-]+/g, "")] keeps. *)
Definition numeric_char (c : ascii) : bool :=
  is_digit c || Ascii.eqb c "." || Ascii.eqb c "-".

Definition dist_of (r : SheetRow) : number :=
  parseFloat
    (filter_chars numeric_char (field r "travel_distance_km" "Travel_Distance_Km" "0")).

Definition is_stop (r : SheetRow) : bool :=
  let type := toLowerCase (field r "type" "Type" "") in
  includes "delivery" type || includes "pickup" type || includes "visit" type.

(** [o[k].field = ...] for the own property [k] of [o]; without one
    the write goes elsewhere and [o] stays as it is. *)
Definition update {V} (o : JsObject.obj V) (k : string) (f : V -> V)
  : JsObject.obj V :=
  match JsObject.get o k with
  | Some v => JsObject.set o k (f v)
  | None => o
  end.

Definition add_distance (dist : number) (s : VehicleStat) : VehicleStat :=
  {| distance := distance s + dist; stops := stops s |}.

Definition add_stop (s : VehicleStat) : VehicleStat :=
  {| distance := distance s; stops := stops s + 1 |}.

(** The body of [rows.forEach(r => ...)].  For a vehicle code that names
    an inherited property, [vehicles[vCode]] is the inherited value: no
    entry is made, and the sums are written to that value, not to
    [vehicles]. *)
Definition vehicle_row (vehicles : JsObject.obj VehicleStat) (r : SheetRow)
  : JsObject.obj VehicleStat :=
  let vCode := vCode_of r in
  if negb (JsString.truthy vCode) then vehicles
  else
    let vehicles1 :=
      if JsObject.missing vehicles vCode
      then JsObject.set vehicles vCode {| distance := 0; stops := 0 |}
      else vehicles in
    let dist := dist_of r in
    let vehicles2 :=
      if negb (isNaN dist) then update vehicles1 vCode (add_distance dist)
      else vehicles1 in
    if is_stop r then update vehicles2 vCode add_stop else vehicles2.

Definition vehicles_of (rows : list SheetRow) : JsObject.obj VehicleStat :=
  fold_left vehicle_row rows [].

(** [vehicles[v].stops] and [vehicles[v].distance] for a key of
    [vehicles]. *)
Definition stat (vehicles : JsObject.obj VehicleStat) (sel : VehicleStat -> number)
    (v : string) : number :=
  match JsObject.get vehicles v with
  | Some s => sel s
  | None => NaN
  end.

Definition is_current (currentScenarioName : option string) (id : string) : bool :=
  match currentScenarioName with
  | Some c =>
      if JsString.truthy c then String.eqb (toLowerCase id) (toLowerCase c)
      else false
  | None => false
  end.

(** Step 2: the metrics of the scenario [id] with its rows. *)
Definition scenario_result (currentScenarioName : option string) (id : string)
    (rows : list SheetRow) : ScenarioMetrics :=
  let hubCode :=
    match rows with
    | r0 :: _ => field r0 "hub_code" "Hub_Code" "N/A"
    | [] => "N/A"
    end in
  let vehicles := vehicles_of rows in
  let uniqueVehicles := JsObject.keys vehicles in
  let totalVehicles := length uniqueVehicles in
  let totalStopsAll :=
    fold_left (fun acc v => acc + stat vehicles stops v) uniqueVehicles 0 in
  let totalDistAll :=
    fold_left (fun acc v => acc + stat vehicles distance v) uniqueVehicles 0 in
  let n := of_Z (Z.of_nat totalVehicles) in
  {| id := id;
     hub := hubCode;
     totalVehicles := totalVehicles;
     totalTrips := totalVehicles;
     avgStops := if (0 <? totalVehicles)%nat then toFixed (totalStopsAll / n) 1 else "0";
     avgDistance := if (0 <? totalVehicles)%nat then toFixed (totalDistAll / n) 2 else "0";
     isCurrent := is_current currentScenarioName id |}.

Definition current_first (a b : ScenarioMetrics) : number :=
  if isCurrent a then -1 else if isCurrent b then 1 else 0.

(** The cards before they are sorted. *)
Definition scenario_results (scenarios : JsObject.obj (list SheetRow))
    (currentScenarioName : option string) : list ScenarioMetrics :=
  map (fun id =>
         scenario_result currentScenarioName id
           (match JsObject.get scenarios id with Some l => l | None => [] end))
      (JsObject.keys scenarios).

(** [scenarioMetrics]: [None] is [null]; [engine] is the sort of the
    engine the page runs on. *)
Definition scenarioMetrics (engine : JsArray.Sort) (data : list SheetRow)
    (currentScenarioName : option string)
  : JsObject.Completion (option (list ScenarioMetrics)) :=
  match data with
  | [] => JsObject.Normal None
  | _ =>
      match group_by_scenario data with
      | JsObject.Normal scenarios =>
          JsObject.Normal
            (Some (engine _ current_first
                     (scenario_results scenarios currentScenarioName)))
      | JsObject.TypeError => JsObject.TypeError
      end
  end.

End OutputDashboard.

(** ** The search form of [AnalysisPage.tsx]

    The handlers of the form, the mode switcher, the effect that searches
    on mount and the two halves of [executeSearch], before and after its
    [await].  A handler reads the state of the render it was created in
    and calls setters; an event is handled on the state the events before
    it have left. *)

Module SearchForm.
Import JsString JsNumber AnalysisPage.

(** The setters of [useState]: one field is replaced. *)
Definition setMode (v : AnalysisMode) (st : PageState) : PageState := {|
  mode := v;
  searchInput := searchInput st;
  searchTags := searchTags st;
  isLoading := isLoading st;
  metricsData := metricsData st;
  error := error st;
  hasSearched := hasSearched st
|}.

Definition setSearchInput (v : string) (st : PageState) : PageState := {|
  mode := mode st;
  searchInput := v;
  searchTags := searchTags st;
  isLoading := isLoading st;
  metricsData := metricsData st;
  error := error st;
  hasSearched := hasSearched st
|}.

Definition setSearchTags (v : list string) (st : PageState) : PageState := {|
  mode := mode st;
  searchInput := searchInput st;
  searchTags := v;
  isLoading := isLoading st;
  metricsData := metricsData st;
  error := error st;
  hasSearched := hasSearched st
|}.

Definition setIsLoading (v : bool) (st : PageState) : PageState := {|
  mode := mode st;
  searchInput := searchInput st;
  searchTags := searchTags st;
  isLoading := v;
  metricsData := metricsData st;
  error := error st;
  hasSearched := hasSearched st
|}.

Definition setMetricsData (v : list DetailedMetrics) (st : PageState) : PageState := {|
  mode := mode st;
  searchInput := searchInput st;
  searchTags := searchTags st;
  isLoading := isLoading st;
  metricsData := v;
  error := error st;
  hasSearched := hasSearched st
|}.

Definition setError (v : option string) (st : PageState) : PageState := {|
  mode := mode st;
  searchInput := searchInput st;
  searchTags := searchTags st;
  isLoading := isLoading st;
  metricsData := metricsData st;
  error := v;
  hasSearched := hasSearched st
|}.

Definition setHasSearched (v : bool) (st : PageState) : PageState := {|
  mode := mode st;
  searchInput := searchInput st;
  searchTags := searchTags st;
  isLoading := isLoading st;
  metricsData := metricsData st;
  error := error st;
  hasSearched := v
|}.

(** [tags.includes(t)] *)
Definition includes_tag (t : string) (tags : list string) : bool :=
  existsb (String.eqb t) tags.

Definition handleAddTag (st : PageState) : PageState :=
  if JsString.truthy (trim (searchInput st))
     && negb (includes_tag (trim (searchInput st)) (searchTags st))
  then setSearchInput "" (setSearchTags (searchTags st ++ [trim (searchInput st)]) st)
  else st.

Definition removeTag (tag : string) (st : PageState) : PageState :=
  setSearchTags (List.filter (fun t => negb (String.eqb t tag)) (searchTags st)) st.

(** A search that awaits its calls: the mode [executeSearch] was created
    with and the names it was given. *)
Record Search := { search_mode : AnalysisMode; search_names : list string }.

(** The page: its state and the searches in flight, oldest first. *)
Record Page := { state : PageState; pending : list Search }.

Definition on_state (f : PageState -> PageState) (p : Page) : Page :=
  {| state := f (state p); pending := pending p |}.

(** [executeSearch(scenarios)] up to its [await]. *)
Definition executeSearch_start (scenarios : list string) (p : Page) : Page :=
  match scenarios with
  | [] => p
  | _ => {|
      state :=
        setHasSearched true
          (setMetricsData [] (setError None (setIsLoading true (state p))));
      pending :=
        pending p
          ++ [ {| search_mode := mode (state p); search_names := scenarios |} ]
    |}
  end.

(** [executeSearch] from its [await] on, the calls for its names having
    come to [outcomes]. *)
Definition executeSearch_settle (s : Search) (outcomes : list FetchOutcome)
    (st : PageState) : PageState :=
  let results :=
    map (fun '(name, o) => fetchScenarioData name o)
      (combine (search_names s) outcomes) in
  match validResults results with
  | [] =>
      setIsLoading false
        (setError (Some (str_or (Some unresolvable) "Failed to fetch analysis data."))
           st)
  | valid =>
      setIsLoading false
        (match search_mode s with
         | COMPARE => setSearchInput "" (setMetricsData valid st)
         | SINGLE => setMetricsData valid st
         end)
  end.

Definition handleFetchData (p : Page) : Page :=
  let st := state p in
  match mode st with
  | SINGLE =>
      if negb (JsString.truthy (trim (searchInput st))) then p
      else executeSearch_start [trim (searchInput st)] p
  | COMPARE =>
      let currentInput := trim (searchInput st) in
      if JsString.truthy currentInput
         && negb (includes_tag currentInput (searchTags st))
      then
        executeSearch_start (searchTags st ++ [currentInput])
          (on_state handleAddTag p)
      else executeSearch_start (searchTags st) p
  end.

Definition handleKeyDown (key : string) (p : Page) : Page :=
  if String.eqb key "Enter" then
    match mode (state p) with
    | COMPARE => on_state handleAddTag p
    | SINGLE => handleFetchData p
    end
  else p.

(** The effect that searches for [initialScenario]. *)
Definition autoFetch (initialScenario : option string) (p : Page) : Page :=
  match initialScenario with
  | Some s =>
      if JsString.truthy s && negb (hasSearched (state p))
      then executeSearch_start [s] (on_state (setSearchInput s) p)
      else p
  | None => p
  end.

(** The [onClick] of a mode button. *)
Definition switchMode (m : AnalysisMode) (st : PageState) : PageState :=
  setHasSearched false (setMetricsData [] (setSearchInput "" (setMode m st))).

(** The [disabled] attribute of the search button. *)
Definition fetch_disabled (st : PageState) : bool :=
  isLoading st
  || (match mode st with COMPARE => true | SINGLE => false end
      && (length (searchTags st) =? 0)%nat
      && negb (JsString.truthy (searchInput st)))
  || (match mode st with SINGLE => true | COMPARE => false end
      && negb (JsString.truthy (searchInput st))).

(** [!error] is false for a message that is not empty. *)
Definition error_shown (st : PageState) : bool :=
  match error st with
  | Some e => JsString.truthy e
  | None => false
  end.

(** The condition of the panel "No Scenarios Found". *)
Definition noResultsShown (st : PageState) : bool :=
  hasSearched st && negb (isLoading st)
  && (length (metricsData st) =? 0)%nat && negb (error_shown st).

(** What happens to the page: the input is edited, a key goes down in it,
    the compare input loses focus, a button is clicked, the effect runs, a
    search in flight settles. *)
Inductive Event :=
| Typed (value : string)
| KeyDown (key : string)
| Blurred
| FetchClicked
| TagRemoved (tag : string)
| ModeClicked (m : AnalysisMode)
| EffectRun
| Settled (i : nat) (outcomes : list FetchOutcome).

(** An event that the page does not offer in its state (a disabled
    button, a control of the other mode, a search that is not in flight)
    leaves it as it is.  The effect is an event of its own: whenever React
    runs it, this is what it does. *)
Definition react (initialScenario : option string) (p : Page) (ev : Event) : Page :=
  match ev with
  | Typed value => on_state (setSearchInput value) p
  | KeyDown key => handleKeyDown key p
  | Blurred =>
      match mode (state p) with
      | COMPARE => on_state handleAddTag p
      | SINGLE => p
      end
  | FetchClicked => if fetch_disabled (state p) then p else handleFetchData p
  | TagRemoved tag =>
      match mode (state p) with
      | COMPARE =>
          if includes_tag tag (searchTags (state p))
          then on_state (removeTag tag) p else p
      | SINGLE => p
      end
  | ModeClicked m => on_state (switchMode m) p
  | EffectRun => autoFetch initialScenario p
  | Settled i outcomes =>
      match pending p !! i with
      | Some s =>
          if (length outcomes =? length (search_names s))%nat
          then {| state := executeSearch_settle s outcomes (state p);
                  pending := delete i (pending p) |}
          else p
      | None => p
      end
  end.

Definition mounted (initialScenario : option string) : Page :=
  {| state := initialState initialScenario; pending := [] |}.

Definition run (initialScenario : option string) (events : list Event) : Page :=
  fold_left (react initialScenario) events (mounted initialScenario).

End SearchForm.

(** ** The sheet connection of the output dashboard

    The sheet id kept in local storage, [fetchSheetData] in its two
    halves, before and after its [await]s, and the conditions of the
    panels that depend on the current scenario. *)

Module SheetFetch.
Import JsString JsNumber OutputDashboard.

Record SheetState := {
  sheetId : string;
  isLoading : bool;
  data : list SheetRow;
  headers : list string;
  error : option string;
  lastUpdated : option Z
}.

Definition setSheetId (v : string) (st : SheetState) : SheetState := {|
  sheetId := v;
  isLoading := isLoading st;
  data := data st;
  headers := headers st;
  error := error st;
  lastUpdated := lastUpdated st
|}.

Definition setIsLoading (v : bool) (st : SheetState) : SheetState := {|
  sheetId := sheetId st;
  isLoading := v;
  data := data st;
  headers := headers st;
  error := error st;
  lastUpdated := lastUpdated st
|}.

Definition setData (v : list SheetRow) (st : SheetState) : SheetState := {|
  sheetId := sheetId st;
  isLoading := isLoading st;
  data := v;
  headers := headers st;
  error := error st;
  lastUpdated := lastUpdated st
|}.

Definition setHeaders (v : list string) (st : SheetState) : SheetState := {|
  sheetId := sheetId st;
  isLoading := isLoading st;
  data := data st;
  headers := v;
  error := error st;
  lastUpdated := lastUpdated st
|}.

Definition setError (v : option string) (st : SheetState) : SheetState := {|
  sheetId := sheetId st;
  isLoading := isLoading st;
  data := data st;
  headers := headers st;
  error := v;
  lastUpdated := lastUpdated st
|}.

Definition setLastUpdated (v : option Z) (st : SheetState) : SheetState := {|
  sheetId := sheetId st;
  isLoading := isLoading st;
  data := data st;
  headers := headers st;
  error := error st;
  lastUpdated := v
|}.

(** The state the dashboard starts in, [stored] being the item
    [shipsy_sheet_id] of local storage. *)
Definition initialState (stored : option string) : SheetState := {|
  sheetId := str_or stored "";
  isLoading := false;
  data := [];
  headers := [];
  error := None;
  lastUpdated := None
|}.

(** The class [[a-zA-Z0-9-_]] *)
Definition id_char (c : ascii) : bool :=
  let n := code c in
  ((97 <=? n)%nat && (n <=? 122)%nat) || ((65 <=? n)%nat && (n <=? 90)%nat)
  || is_digit c || Ascii.eqb c "-" || Ascii.eqb c "_".

(** The longest run of the class at the start of a string. *)
Fixpoint take_id (s : string) : string :=
  match s with
  | String c s' => if id_char c then String c (take_id s') else EmptyString
  | EmptyString => EmptyString
  end.

Fixpoint strip_prefix (p s : string) : option string :=
  match p, s with
  | EmptyString, _ => Some s
  | String a p', String b s' => if Ascii.eqb a b then strip_prefix p' s' else None
  | String _ _, EmptyString => None
  end.

(** The capture of a match of [/\/d\/([a-zA-Z0-9-_]+)/] that starts at
    the start of the string, the empty string when there is none. *)
Definition match_here (s : string) : string :=
  match strip_prefix "/d/" s with
  | Some r => take_id r
  | None => EmptyString
  end.

(** [sheetId.match(/\/d\/([a-zA-Z0-9-_]+)/)]: the capture of the leftmost
    match. *)
Fixpoint urlMatch (s : string) : option string :=
  match s with
  | EmptyString => None
  | String _ s' =>
      match match_here s with
      | EmptyString => urlMatch s'
      | run => Some run
      end
  end.

Definition cleanId (sheetId : string) : string :=
  match urlMatch sheetId with
  | Some run => run
  | None => sheetId
  end.

(** The address [fetchSheetData] requests. *)
Definition export_url (sheetId : string) : string :=
  "https://docs.google.com/spreadsheets/d/" +:+ cleanId sheetId
  +:+ "/export?format=csv".

(** What the request came to: a response with its status and text, or a
    rejection (of [fetch], or of reading the text of a successful
    response) with the message of its error. *)
Inductive SheetOutcome :=
| Rejected (message : string)
| Responded (status : nat) (csvText : string).

(** [fetchSheetData] up to its first [await]: the state and the address
    requested, if any. *)
Definition fetchSheetData_start (st : SheetState) : SheetState * option string :=
  if negb (JsString.truthy (sheetId st)) then (st, None)
  else (setData [] (setError None (setIsLoading true st)),
        Some (export_url (sheetId st))).

Definition status_message (status : nat) : string :=
  if (status =? 404)%nat then "Sheet not found. Check the ID."
  else if (status =? 401)%nat || (status =? 403)%nat
  then "Permission denied. Ensure the Sheet is 'Anyone with the link can view'."
  else "Failed to fetch sheet data.".

(** [fetchSheetData] from its first [await] on; [now] is the time of
    [new Date()]. *)
Definition fetchSheetData_settle (o : SheetOutcome) (now : Z) (st : SheetState)
  : SheetState :=
  match o with
  | Responded status csvText =>
      if AnalysisPage.response_ok status then
        let sheet := parseCSV csvText in
        setIsLoading false
          (setLastUpdated (Some now)
             (setData (rows sheet) (setHeaders (OutputDashboard.headers sheet) st)))
      else setIsLoading false (setError (Some (status_message status)) st)
  | Rejected message => setIsLoading false (setError (Some message) st)
  end.



(** The dashboard: its state, the item [shipsy_sheet_id] of local
    storage, and the address of the request in flight. *)
Record Dashboard := {
  state : SheetState;
  stored : option string;
  requested : option string
}.

Inductive Event :=
| SheetIdTyped (value : string)
| RefreshClicked
| Settled (o : SheetOutcome) (now : Z).

(** Typing sets the sheet id, and the effect on [sheetId] stores it when
    it is not empty; the button is disabled while loading and without a
    sheet id. *)
Definition react (d : Dashboard) (ev : Event) : Dashboard :=
  match ev with
  | SheetIdTyped value => {|
      state := setSheetId value (state d);
      stored := if JsString.truthy value then Some value else stored d;
      requested := requested d
    |}
  | RefreshClicked =>
      if isLoading (state d) || negb (JsString.truthy (sheetId (state d))) then d
      else {|
        state := fst (fetchSheetData_start (state d));
        stored := stored d;
        requested := snd (fetchSheetData_start (state d))
      |}
  | Settled o now =>
      match requested d with
      | Some _ => {|
          state := fetchSheetData_settle o now (state d);
          stored := stored d;
          requested := None
        |}
      | None => d
      end
  end.

Definition opened (stored : option string) : Dashboard := {|
  state := initialState stored;
  stored := stored;
  requested := None
|}.

Definition run (stored : option string) (events : list Event) : Dashboard :=
  fold_left react events (opened stored).

End SheetFetch.

(** * Vocabulary of the specification *)

(** ** Doubles: order, counts, extrema *)

Section DoubleVocabulary.
Import JsNumber.
Local Open Scope float_scope.

(** The comparisons of doubles order the values that are not [NaN] like
    these triples in lexicographic order: sign class, then exponent, then
    mantissa. *)
Definition SFkey (x : spec_float) : Z * Z * Z :=
  match x with
  | S754_nan => (0, 0, 0)%Z
  | S754_zero _ => (0, 0, 0)%Z
  | S754_infinity s => (if s then -2 else 2, 0, 0)%Z
  | S754_finite s m e =>
      if s then (-1, - e, Z.neg m)%Z else (1, e, Z.pos m)%Z
  end.

Definition key_lt (a b : Z * Z * Z) : Prop :=
  let '(a1, a2, a3) := a in
  let '(b1, b2, b3) := b in
  (a1 < b1 \/ (a1 = b1 /\ (a2 < b2 \/ (a2 = b2 /\ a3 < b3))))%Z.

Definition key_le (a b : Z * Z * Z) : Prop := key_lt a b \/ a = b.

Definition not_nan (x : spec_float) : Prop := x <> S754_nan.

(** A number that is not [NaN]. *)
Definition ordered (x : number) : Prop := is_nan x = false.

(** A count: a whole number that is not negative. *)
Definition is_count (p : number) : Prop :=
  PrimFloat.leb 0 p = true /\ Math_floor p = p.

(** [v] is a least (greatest) value of [xs]: below (above) every element,
    and equal, as [===] has it, to one of them. *)
Definition is_minimum (v : number) (xs : list number) : Prop :=
  Forall (fun x => PrimFloat.leb v x = true) xs /\
  Exists (fun x => strict_eq x v = true) xs.

Definition is_maximum (v : number) (xs : list number) : Prop :=
  Forall (fun x => PrimFloat.leb x v = true) xs /\
  Exists (fun x => strict_eq x v = true) xs.

End DoubleVocabulary.

(** ** Rounding: shift records and grid bounds *)

Section RoundingVocabulary.
Local Open Scope Z_scope.

(** The least integer not below the value a shift record stands for. *)
Definition upper (mrs : shr_record) : Z :=
  shr_m mrs + (if shr_r mrs || shr_s mrs then 1 else 0).

Definition upper_loc (m : Z) (l : location) : Z :=
  m + match l with loc_Exact => 0 | loc_Inexact _ => 1 end.

(** The exponent of the unit in binary64 for a value whose digits end
    at [z]. *)
Definition fexp64 (z : Z) : Z := Z.max (z - 53) (-1074).

(** The value of a finite positive double stays at or below a bound
    [k * 2^g] that is on its grid. *)
Definition below (x : spec_float) (k g : Z) : Prop :=
  (exists s, x = S754_zero s) \/
  exists m e, x = S754_finite false m e /\ e <= g /\ Z.pos m <= k * 2 ^ (g - e).

(** The mantissa of 100. *)
Definition m100 : positive := 7036874417766400.

End RoundingVocabulary.

(** ** The remote summary path *)

Section AnalysisVocabulary.
Import JsString JsNumber AnalysisPage.
Local Open Scope float_scope.

(** The ways a remote call fails: [fetch] rejects, the status is not a
    success status, or the body does not parse. *)
Inductive remote_failure : FetchOutcome -> Prop :=
| transport_failure : remote_failure NetworkError
| non_success_status status body :
    response_ok status = false -> remote_failure (HttpResponse status body)
| malformed_body status : remote_failure (HttpResponse status None).

(** The remote call succeeded and [item] is the payload it handed over:
    the body itself, or the first element of the array it is. *)
Inductive remote_item : FetchOutcome -> WebhookResponseItem -> Prop :=
| single_item status item :
    response_ok status = true ->
    remote_item (HttpResponse status (Some (BodyItem item))) item
| first_item status item rest :
    response_ok status = true ->
    remote_item (HttpResponse status (Some (BodyArray (item :: rest)))) item.

(** The metrics a batch resolves to: one request per name, each with the
    outcome of its remote call. *)
Definition resolved (scenarios : list (string * FetchOutcome))
  : list DetailedMetrics :=
  validResults (map (fun '(name, o) => fetchScenarioData name o) scenarios).

(** The compared fields are numbers, not [NaN]: what [normalize] puts
    there. *)
Definition comparable (m : DetailedMetrics) : Prop :=
  ordered (avgDistance m) /\ ordered (totalDrops m) /\
  ordered (totalTrips m) /\ ordered (avgConsignments m).

(** The values [normalize] leaves in the compared fields of a batch. *)
Definition distances (l : list DetailedMetrics) : list number := map avgDistance l.

Definition drops (l : list DetailedMetrics) : list number := map totalDrops l.

Definition trips (l : list DetailedMetrics) : list number := map totalTrips l.

Definition consignments (l : list DetailedMetrics) : list number :=
  map avgConsignments l.

(** The hours and the minutes of a duration in decimal hours. *)
Definition hours_of (v : number) : number := Math_floor v.

Definition minutes_of (v : number) : number :=
  Math_round ((v - hours_of v) * 60).

(** A payload that declares failure. *)
Definition failed_item : WebhookResponseItem := {|
  success := Some false;
  request_id := Some "S1";
  hub_code := Some "HUB";
  summary := summary MOCK_RESPONSE_DATA;
  trip_matrix := [];
  drop_breakup := Some []
|}.

(** A payload that reports more dropped than planned consignments. *)
Definition over_item : WebhookResponseItem := {|
  success := Some true;
  request_id := Some "S1";
  hub_code := Some "HUB";
  summary := Some {|
    total_trips := Some 1;
    total_distance_km := Some 1;
    avg_trip_distance_km := Some 1;
    total_trip_hours := Some 1;
    avg_trip_hours := Some 1;
    total_consignments_planned := Some 3;
    total_consignments_served := Some 0;
    total_consignments_dropped := Some 5;
    avg_stops_per_trip := Some 0
  |};
  trip_matrix := [];
  drop_breakup := Some []
|}.

(** Three scenarios with the average distances 5.0, 3.2 and 3.2. *)
Definition with_distance (d : number) (name : string) : DetailedMetrics := {|
  id := name;
  hub := "PALAK";
  totalTrips := 1;
  avgDistance := d;
  avgDistanceStr := toFixed d 2;
  totalStops := 10;
  avgConsignments := 10;
  avgConsignmentsStr := "10.0";
  avgTripTimeStr := "2h 7m";
  totalDrops := 3;
  dropSplit := 3 / 13 * 100;
  dropSplitStr := "23.1";
  dropReasons := [];
  isMock := false
|}.

Definition three_scenarios : list DetailedMetrics :=
  [with_distance 5 "A"; with_distance 3.2 "B"; with_distance 3.2 "C"].

End AnalysisVocabulary.

(** ** The output dashboard *)

Section DashboardVocabulary.
Import JsString JsNumber JsObject OutputDashboard.
Local Open Scope float_scope.

(** The vocabulary of the specification: the vehicles a group of rows
    identifies, each once, in order of first appearance; the rows of a
    vehicle; the distance a vehicle accumulates over its rows with a
    numeric distance and the number of its stops; the arithmetic mean. *)
Definition has_vehicle (r : SheetRow) : bool := JsString.truthy (vCode_of r).




Definition rows_of_vehicle (v : string) (rows : list SheetRow) : list SheetRow :=
  List.filter (fun r => String.eqb (vCode_of r) v) rows.

Definition vehicle_distance (rows : list SheetRow) (v : string) : number :=
  fold_left (fun acc r => acc + dist_of r)
    (List.filter (fun r => negb (isNaN (dist_of r))) (rows_of_vehicle v rows)) 0.

Definition vehicle_stops (rows : list SheetRow) (v : string) : number :=
  fold_left (fun acc _ => acc + 1)
    (List.filter is_stop (rows_of_vehicle v rows)) 0.


Definition mean (xs : list number) : number :=
  fold_left PrimFloat.add xs 0 / of_Z (Z.of_nat (length xs)).


(** The rows of the scenario [k]. *)
Definition rows_of_scenario (k : string) (data : list SheetRow) : list SheetRow :=
  List.filter (fun r => String.eqb (reqId_of r) k) data.

(** A list as the value of a property that exists only once a row was
    pushed. *)
Definition non_empty {A} (l : list A) : option (list A) :=
  match l with
  | [] => None
  | _ => Some l
  end.

(** The vehicles the rows identify, whatever their codes: each code
    that is not empty, once, in order of first appearance. *)
Definition add_named (acc : list string) (r : SheetRow) : list string :=
  if has_vehicle r && negb (existsb (String.eqb (vCode_of r)) acc)
  then acc ++ [vCode_of r] else acc.

Definition named_vehicles (rows : list SheetRow) : list string :=
  fold_left add_named rows [].

(** A comparator that is a consistent order of the elements of [l], as
    the language defines it: never [NaN]; [=] reflexive, symmetric and
    transitive; [<] and [>] transitive. *)
Definition consistent {A} (cmp : A -> A -> number) (l : list A) : Prop :=
  let lt a b := PrimFloat.ltb (cmp a b) 0 = true in
  let eq a b := PrimFloat.eqb (cmp a b) 0 = true in
  let gt a b := PrimFloat.ltb 0 (cmp a b) = true in
  (forall a b, In a l -> In b l -> isNaN (cmp a b) = false) /\
  (forall a, In a l -> eq a a) /\
  (forall a b, In a l -> In b l -> eq a b -> eq b a) /\
  (forall a b c, In a l -> In b l -> In c l -> eq a b -> eq b c -> eq a c) /\
  (forall a b c, In a l -> In b l -> In c l -> lt a b -> lt b c -> lt a c) /\
  (forall a b c, In a l -> In b l -> In c l -> gt a b -> gt b c -> gt a c).

(** What the language asks of the sort of an engine: the result holds
    the elements of the array, each as often as the array; under a
    consistent comparator it is the stable sorted order. *)
Definition conforming (engine : JsArray.Sort) : Prop :=
  forall (A : Type) (cmp : A -> A -> number) (l : list A),
    engine A cmp l ≡ₚ l /\
    (consistent cmp l -> engine A cmp l = JsArray.sort cmp l).

(** A sheet with a blank line, a ragged row and a row with a value too
    many. *)
Definition sample_text : string :=
  String.concat (String LF EmptyString)
    [ "id,name,city"; ""; "1,Ann"; "2,Bob,Oslo,extra" ].

(** A sheet with two vehicles in one scenario and a second scenario
    without any. *)
Definition two_vehicles : list SheetRow :=
  rows (parseCSV (String.concat (String LF EmptyString)
    [ "request_id,hub_code,vehicle_code,type,travel_distance_km";
      "S1,H1,V1,Delivery,10 km";
      "S1,H1,V2,pickup,20";
      "S2,H2,,visit,5" ])).



(** A sheet whose first field is named [__proto__]. *)
Definition proto_header_text : string :=
  String.concat (String LF EmptyString) [ "__proto__,name"; "1,Ann" ].

(** The sheet [two_vehicles] with [toString] as the code of the second
    vehicle. *)
Definition vehicle_toString : list SheetRow :=
  rows (parseCSV (String.concat (String LF EmptyString)
    [ "request_id,hub_code,vehicle_code,type,travel_distance_km";
      "S1,H1,V1,Delivery,10 km";
      "S1,H1,toString,pickup,20" ])).

End DashboardVocabulary.

(** ** Vocabulary of the behaviour around the reductions

    Notions in which the properties of the search form, of the payload
    reduction, of the CSV reader and of the sheet connection are
    stated. *)

Section FormVocabulary.
Import JsString AnalysisPage SearchForm.

(** Tags as the form keeps them: each once, none blank, none with white
    space around it. *)
Definition tags_wellformed (tags : list string) : Prop :=
  NoDup tags /\ Forall (fun t => t <> "" /\ trim t = t) tags.

(** A click on the search button starts a search. *)
Definition starts_search (p : Page) : bool :=
  negb (length (pending (handleFetchData p)) =? length (pending p))%nat.

End FormVocabulary.

Section PayloadVocabulary.
Import JsString JsNumber AnalysisPage.
Local Open Scope float_scope.

(** The badge "Includes Simulated Data" of the comparison matrix:
    [metricsData.some(m => m.isMock)]. *)
Definition includesSimulated (metricsData : list DetailedMetrics) : bool :=
  existsb isMock metricsData.

(** A number that is neither [NaN] nor infinite. *)
Definition finite (x : number) : Prop :=
  PrimFloat.ltb neg_infinity x = true /\ PrimFloat.ltb x infinity = true.

(** An entry carries the four badges of the comparison matrix. *)
Definition all_badges (best : option ComparisonExtrema) (s : DetailedMetrics) : bool :=
  lowestTrips best s && bestDistance best s
  && highestConsignments best s && lowestDrops best s.

(** A payload whose summary has no dropped count. *)
Definition payload_without_drop_count : WebhookResponseItem := {|
  success := Some true;
  request_id := Some "X";
  hub_code := Some "PALAK";
  summary := Some {|
    total_trips := Some 1;
    total_distance_km := Some 0.06;
    avg_trip_distance_km := Some 0.06;
    total_trip_hours := Some 2.11;
    avg_trip_hours := Some 2.11;
    total_consignments_planned := Some 13;
    total_consignments_served := Some 13;
    total_consignments_dropped := None;
    avg_stops_per_trip := Some 13
  |};
  trip_matrix := [];
  drop_breakup := None
|}.

End PayloadVocabulary.

Section ParserVocabulary.
Import JsString OutputDashboard.

Definition CR : ascii := ascii_of_nat 13.

Fixpoint contains_char (a : ascii) (s : string) : bool :=
  match s with
  | EmptyString => false
  | String c s' => Ascii.eqb c a || contains_char a s'
  end.

(** The commas of a line that separate fields: those outside quotes. *)
Fixpoint separators (line : string) (inQuotes : bool) : nat :=
  match line with
  | EmptyString => 0
  | String c rest =>
      if Ascii.eqb c quote then separators rest (negb inQuotes)
      else if Ascii.eqb c comma && negb inQuotes then S (separators rest inQuotes)
      else separators rest inQuotes
  end.

(** A field as the parser returns it: no quote in it, no white space
    around it. *)
Definition clean_field (f : string) : Prop :=
  contains_char quote f = false /\ trim f = f.

(** A line written from its fields: every field in quotes, commas
    between them. *)
Definition quoted (f : string) : string :=
  String quote (f +:+ String quote EmptyString).

Definition csv_line (fields : list string) : string :=
  String.concat (String comma EmptyString) (map quoted fields).

(** The same, without quotes. *)
Definition plain_line (fields : list string) : string :=
  String.concat (String comma EmptyString) fields.

(** A text from its lines, ended by LF or by CR LF. *)
Definition unix_text (lines : list string) : string :=
  String.concat (String LF EmptyString) lines.

Definition dos_text (lines : list string) : string :=
  String.concat (String CR (String LF EmptyString)) lines.

(** The lines [split_lines] finds in a text of lines ended by CR LF:
    all but the last keep their CR. *)
Fixpoint with_cr (lines : list string) : list string :=
  match lines with
  | [] => []
  | [l] => [l]
  | l :: rest => (l +:+ String CR EmptyString) :: with_cr rest
  end.

(** [parseCSV] from the lines of the text. *)
Definition parse_lines (lines : list string) : ParsedSheet :=
  match List.filter (fun l => JsString.truthy (trim l)) lines with
  | [] => {| headers := []; rows := [] |}
  | line0 :: rest =>
      {| headers := parseLine line0;
         rows := map (make_row (parseLine line0)) rest |}
  end.

(** The request ids of a sheet, each once, in order of first
    appearance. *)
Definition add_id (acc : list string) (r : SheetRow) : list string :=
  if existsb (String.eqb (reqId_of r)) acc then acc else acc ++ [reqId_of r].

Definition scenario_ids (data : list SheetRow) : list string :=
  fold_left add_id data [].


End ParserVocabulary.

Section SheetVocabulary.
Import JsString OutputDashboard SheetFetch.

Fixpoint all_chars (f : ascii -> bool) (s : string) : bool :=
  match s with
  | EmptyString => true
  | String c s' => f c && all_chars f s'
  end.

(** The last value typed that is not empty, [start] when there is none. *)
Definition last_entered (start : string) (events : list Event) : string :=
  fold_left (fun acc ev =>
               match ev with
               | SheetIdTyped value => if JsString.truthy value then value else acc
               | _ => acc
               end) events start.

End SheetVocabulary.

Section ValueVocabulary.
Import JsNumber.
Local Open Scope Z_scope.

(** The value of a finite double in units of [2^-1074], the least
    positive double: an integer. *)
Definition units (x : spec_float) : Z :=
  match x with
  | S754_finite s m e => signed s m * 2 ^ (e + 1074)
  | _ => 0
  end.

(** Zero or finite. *)
Definition SFfinite (x : spec_float) : Prop :=
  match x with
  | S754_zero _ | S754_finite _ _ _ => True
  | _ => False
  end.

End ValueVocabulary.

Section ReasonVocabulary.
Import JsString JsNumber AnalysisPage.
Local Open Scope float_scope.

(** Drop reasons in descending order of their counts. *)
Fixpoint descending (l : list DropReason) : Prop :=
  match l with
  | [] => True
  | a :: l' =>
      Forall (fun c => PrimFloat.leb (count c) (count a) = true) l' /\ descending l'
  end.

(** The comparator of the drop reasons. *)
Definition by_count (a b : DropReason) : number := count b - count a.

(** The reasons with the count [v]. *)
Definition with_count (v : number) (l : list DropReason) : list DropReason :=
  List.filter (fun r => PrimFloat.eqb (count r) v) l.

(** A payload with three drop reasons, two of them with the same count. *)
Definition three_reasons : list DropBreakupItem :=
  [ {| reason_code := "WEIGHT"; reason_label := Some "Insufficient weight";
       dropped_count := 2; pct_of_dropped := 20; pct_of_planned := 4 |};
    {| reason_code := "VOLUME"; reason_label := None;
       dropped_count := 5; pct_of_dropped := 40; pct_of_planned := 10 |};
    {| reason_code := "WINDOW"; reason_label := Some "";
       dropped_count := 5; pct_of_dropped := 40; pct_of_planned := 10 |} ].

Definition three_reasons_item : WebhookResponseItem := {|
  success := Some true;
  request_id := Some "S1";
  hub_code := Some "HUB";
  summary := summary MOCK_RESPONSE_DATA;
  trip_matrix := [];
  drop_breakup := Some three_reasons
|}.

End ReasonVocabulary.

Section DurationVocabulary.
Import JsNumber.
Local Open Scope Z_scope.

(** The mantissa of 60. *)
Definition m60 : positive := 8444249301319680.

(** The whole numbers from 1 to 60 are doubles from 0 to 60. *)
Definition minute_ok (n : Z) : bool :=
  PrimFloat.leb 0 (of_Z n) && PrimFloat.leb (of_Z n) 60.

End DurationVocabulary.

Section FormatVocabulary.
Import JsNumber.

(** The exact value of a finite double, a rational: its units of
    [2^-1074]. *)
Definition value (x : number) : Q :=
  (inject_Z (units (Prim2SF x)) / inject_Z (2 ^ 1074))%Q.

(** The double [x] is the whole number [n]. *)
Definition whole (x : number) (n : Z) : Prop :=
  finite x /\ (value x == inject_Z n)%Q.

End FormatVocabulary.

Section RecordVocabulary.
Import JsString OutputDashboard.

(** The fields of a line as the specification describes them: the line
    is cut at its commas outside quoted spans, a double quote opening or
    closing a span; the quotes are dropped, and each piece is trimmed. *)
Fixpoint pieces (line : string) (inQuotes : bool) : list string :=
  match line with
  | EmptyString => [EmptyString]
  | String c rest =>
      if Ascii.eqb c quote then pieces rest (negb inQuotes)
      else if Ascii.eqb c comma && negb inQuotes
      then EmptyString :: pieces rest inQuotes
      else
        match pieces rest inQuotes with
        | p :: ps => String c p :: ps
        | [] => [String c EmptyString]
        end
  end.

Definition fields_of (line : string) : list string :=
  map trim (pieces line false).

End RecordVocabulary.

Section MeanVocabulary.
Import JsString JsNumber JsObject OutputDashboard.
Local Open Scope float_scope.

(** The card the dashboard shows for the sheet [vehicle_toString]. *)
Definition vehicle_toString_S1 : ScenarioMetrics := {|
  id := "S1"; hub := "H1"; totalVehicles := 1; totalTrips := 1;
  avgStops := "1.0"; avgDistance := "10.00"; isCurrent := false
|}.




End MeanVocabulary.

(** * Properties *)

(** ** Order facts about doubles

    The comparisons of doubles are those of their [spec_float] images,
    which order the values that are not [NaN] like the triples of
    [SFkey] in lexicographic order. *)

Section DoubleOrder.
Import JsNumber.

Lemma SFcompare_key (x y : spec_float) :
  not_nan x -> not_nan y ->
  exists c, SFcompare x y = Some c /\
    match c with
    | Lt => key_lt (SFkey x) (SFkey y)
    | Eq => SFkey x = SFkey y
    | Gt => key_lt (SFkey y) (SFkey x)
    end.
Proof.
  unfold not_nan.
  destruct x as [sx|sx| |sx mx ex], y as [sy|sy| |sy my ey];
    intros Hx Hy; try congruence; cbn [SFcompare SFkey];
    try (destruct sx); try (destruct sy);
    try (eexists; split; [reflexivity|]; cbn; first [reflexivity | lia]).
  - destruct (Z.compare_spec ex ey); subst.
    + change (Pos.compare_cont Eq mx my) with (Pos.compare mx my).
      destruct (Pos.compare_spec mx my); subst;
        (eexists; split; [reflexivity|]; cbn; first [reflexivity | lia]).
    + eexists; split; [reflexivity|]; cbn; lia.
    + eexists; split; [reflexivity|]; cbn; lia.
  - destruct (Z.compare_spec ex ey); subst.
    + change (Pos.compare_cont Eq mx my) with (Pos.compare mx my).
      destruct (Pos.compare_spec mx my); subst;
        (eexists; split; [reflexivity|]; cbn; first [reflexivity | lia]).
    + eexists; split; [reflexivity|]; cbn; lia.
    + eexists; split; [reflexivity|]; cbn; lia.
Qed.

Lemma SFcompare_nan_l (y : spec_float) : SFcompare S754_nan y = None.
Proof. destruct y; reflexivity. Qed.

Lemma SFcompare_nan_r (x : spec_float) : SFcompare x S754_nan = None.
Proof. destruct x; reflexivity. Qed.

Lemma key_lt_irrefl (a : Z * Z * Z) : ~ key_lt a a.
Proof. destruct a as [[a1 a2] a3]; cbn; lia. Qed.

Lemma key_lt_asym (a b : Z * Z * Z) : key_lt a b -> ~ key_lt b a.
Proof. destruct a as [[a1 a2] a3], b as [[b1 b2] b3]; cbn; lia. Qed.

Lemma key_lt_trans (a b c : Z * Z * Z) : key_lt a b -> key_lt b c -> key_lt a c.
Proof.
  destruct a as [[a1 a2] a3], b as [[b1 b2] b3], c as [[c1 c2] c3]; cbn; lia.
Qed.

Lemma key_total (a b : Z * Z * Z) : key_lt a b \/ a = b \/ key_lt b a.
Proof.
  destruct a as [[a1 a2] a3], b as [[b1 b2] b3]; cbn.
  destruct (Z.lt_total a1 b1) as [?|[?|?]]; [lia| |lia].
  destruct (Z.lt_total a2 b2) as [?|[?|?]]; [lia| |lia].
  destruct (Z.lt_total a3 b3) as [?|[?|?]]; [lia| |lia].
  subst; auto.
Qed.

Lemma ordered_not_nan (x : number) : ordered x <-> not_nan (Prim2SF x).
Proof.
  unfold ordered, is_nan, not_nan. rewrite FloatAxioms.eqb_spec. unfold SFeqb.
  destruct (Prim2SF x) as [s|s| |s m e] eqn:E.
  - cbn. split; [congruence|reflexivity].
  - destruct s; cbn; (split; [congruence|reflexivity]).
  - cbn. split; [discriminate|congruence].
  - destruct (SFcompare_key (S754_finite s m e) (S754_finite s m e))
      as (c & -> & Hc); try discriminate.
    destruct c; cbn; try (split; [congruence|reflexivity]);
      exfalso; eapply key_lt_irrefl; eauto.
Qed.

Lemma SFcompare_cases (x y : spec_float) :
  not_nan x -> not_nan y ->
  (SFleb x y = true <-> key_le (SFkey x) (SFkey y)) /\
  (SFltb x y = true <-> key_lt (SFkey x) (SFkey y)) /\
  (SFeqb x y = true <-> SFkey x = SFkey y).
Proof.
  intros Hx Hy. destruct (SFcompare_key x y Hx Hy) as (c & Hc & Hk).
  unfold SFleb, SFltb, SFeqb, key_le. rewrite Hc.
  pose proof (key_lt_irrefl (SFkey x)) as Hirr.
  pose proof (key_lt_asym (SFkey x) (SFkey y)) as Has.
  destruct c; repeat split; intros H;
    try discriminate; try reflexivity; auto;
    try (rewrite Hk in *; tauto); try tauto.
  all: exfalso; repeat match goal with H : _ \/ _ |- _ => destruct H end;
    first [ eapply key_lt_asym; eassumption
          | match goal with
            | H : SFkey _ = SFkey _ |- _ =>
                rewrite H in *; eapply key_lt_irrefl; eassumption
            end ].
Qed.

Lemma SFcompare_some_not_nan (x y : spec_float) (c : comparison) :
  SFcompare x y = Some c -> not_nan x /\ not_nan y.
Proof.
  unfold not_nan. destruct x, y; cbn; intros H; try discriminate; split; discriminate.
Qed.

Lemma leb_key (x y : number) :
  PrimFloat.leb x y = true <->
  ordered x /\ ordered y /\ key_le (SFkey (Prim2SF x)) (SFkey (Prim2SF y)).
Proof.
  rewrite !ordered_not_nan, FloatAxioms.leb_spec. split.
  - intros H. assert (not_nan (Prim2SF x) /\ not_nan (Prim2SF y)) as [Hx Hy].
    { unfold SFleb in H. destruct (SFcompare _ _) as [c|] eqn:E; [|discriminate].
      eapply SFcompare_some_not_nan; eauto. }
    repeat split; auto. now apply SFcompare_cases.
  - intros (Hx & Hy & H). now apply SFcompare_cases.
Qed.

Lemma ltb_key (x y : number) :
  PrimFloat.ltb x y = true <->
  ordered x /\ ordered y /\ key_lt (SFkey (Prim2SF x)) (SFkey (Prim2SF y)).
Proof.
  rewrite !ordered_not_nan, FloatAxioms.ltb_spec. split.
  - intros H. assert (not_nan (Prim2SF x) /\ not_nan (Prim2SF y)) as [Hx Hy].
    { unfold SFltb in H. destruct (SFcompare _ _) as [c|] eqn:E; [|discriminate].
      eapply SFcompare_some_not_nan; eauto. }
    repeat split; auto. now apply SFcompare_cases.
  - intros (Hx & Hy & H). now apply SFcompare_cases.
Qed.

Lemma eqb_key (x y : number) :
  PrimFloat.eqb x y = true <->
  ordered x /\ ordered y /\ SFkey (Prim2SF x) = SFkey (Prim2SF y).
Proof.
  rewrite !ordered_not_nan, FloatAxioms.eqb_spec. split.
  - intros H. assert (not_nan (Prim2SF x) /\ not_nan (Prim2SF y)) as [Hx Hy].
    { unfold SFeqb in H. destruct (SFcompare _ _) as [c|] eqn:E; [|discriminate].
      eapply SFcompare_some_not_nan; eauto. }
    repeat split; auto. now apply SFcompare_cases.
  - intros (Hx & Hy & H). now apply SFcompare_cases.
Qed.

(** What follows is all the later proofs use. *)

Lemma leb_refl (x : number) : ordered x -> PrimFloat.leb x x = true.
Proof. intros H. apply leb_key. repeat split; auto. now right. Qed.

Lemma leb_trans (x y z : number) :
  PrimFloat.leb x y = true -> PrimFloat.leb y z = true -> PrimFloat.leb x z = true.
Proof.
  rewrite !leb_key. intros (Hx & _ & H1) (_ & Hz & H2). repeat split; auto.
  destruct H1 as [H1|H1], H2 as [H2|H2].
  - left. eapply key_lt_trans; eauto.
  - left. now rewrite <- H2.
  - left. now rewrite H1.
  - right. congruence.
Qed.

Lemma leb_total (x y : number) :
  ordered x -> ordered y -> PrimFloat.ltb x y = false -> PrimFloat.leb y x = true.
Proof.
  intros Hx Hy H. apply leb_key. repeat split; auto.
  destruct (key_total (SFkey (Prim2SF x)) (SFkey (Prim2SF y))) as [Hl|[He|Hg]].
  - assert (PrimFloat.ltb x y = true) by (apply ltb_key; auto). congruence.
  - right. auto.
  - left. auto.
Qed.

Lemma ltb_leb (x y : number) : PrimFloat.ltb x y = true -> PrimFloat.leb x y = true.
Proof. rewrite ltb_key, leb_key. intros (? & ? & ?). repeat split; auto. now left. Qed.

Lemma leb_not_ltb (x y : number) : PrimFloat.leb x y = true -> PrimFloat.ltb y x = false.
Proof.
  intros H. destruct (PrimFloat.ltb y x) eqn:E; [|reflexivity].
  apply leb_key in H. apply ltb_key in E.
  destruct H as (_ & _ & [H|H]), E as (_ & _ & E).
  - exfalso. eapply key_lt_asym; eauto.
  - rewrite H in E. exfalso. eapply key_lt_irrefl; eauto.
Qed.

Lemma eqb_leb (x y : number) :
  PrimFloat.eqb x y = true <-> PrimFloat.leb x y = true /\ PrimFloat.leb y x = true.
Proof.
  rewrite eqb_key, !leb_key. split.
  - intros (Hx & Hy & H). repeat split; auto; right; auto.
  - intros ((Hx & Hy & H1) & (_ & _ & H2)). repeat split; auto.
    destruct H1 as [H1|H1]; auto. destruct H2 as [H2|H2]; auto.
    exfalso. eapply key_lt_asym; eauto.
Qed.

Lemma leb_ordered (x y : number) :
  PrimFloat.leb x y = true -> ordered x /\ ordered y.
Proof. rewrite leb_key. tauto. Qed.

Lemma eqb_sym (x y : number) : PrimFloat.eqb x y = PrimFloat.eqb y x.
Proof.
  destruct (PrimFloat.eqb x y) eqn:E1, (PrimFloat.eqb y x) eqn:E2; auto.
  - apply eqb_leb in E1. rewrite <- E2. symmetry. apply eqb_leb. tauto.
  - apply eqb_leb in E2. rewrite <- E1. apply eqb_leb. tauto.
Qed.

End DoubleOrder.

Section DoubleFacts.
Import JsNumber.
Local Open Scope float_scope.

Lemma leb_ltb_trans (x y z : number) :
  PrimFloat.leb x y = true -> PrimFloat.ltb y z = true -> PrimFloat.ltb x z = true.
Proof.
  rewrite leb_key, !ltb_key. intros (Hx & _ & H1) (_ & Hz & H2). repeat split; auto.
  destruct H1 as [H1|H1].
  - eapply key_lt_trans; eauto.
  - now rewrite H1.
Qed.

Lemma max_step_ordered (h x : number) :
  ordered h -> ordered x ->
  max_step h x =
    if is_pos_zero x && is_neg_zero h then x
    else if PrimFloat.ltb h x then x else h.
Proof. unfold ordered, max_step. intros -> ->. reflexivity. Qed.

Lemma min_step_ordered (l x : number) :
  ordered l -> ordered x ->
  min_step l x =
    if is_neg_zero x && is_pos_zero l then x
    else if PrimFloat.ltb x l then x else l.
Proof. unfold ordered, min_step. intros -> ->. reflexivity. Qed.

Lemma truthy_ordered (x : number) : truthy x = true -> ordered x.
Proof.
  unfold truthy, ordered. destruct (is_nan x); [discriminate|reflexivity].
Qed.

Lemma or_else_ordered (x d : number) : ordered d -> ordered (or_else x d).
Proof.
  unfold or_else. intros Hd. destruct (truthy x) eqn:E; auto using truthy_ordered.
Qed.

(** [p || 1] is [Math.max(p, 1)] for a [p] that is zero or at least one,
    as every count is. *)
Lemma or_else_one_max (p : number) :
  PrimFloat.eqb p 0 = true \/ PrimFloat.leb 1 p = true ->
  or_else p 1 = Math_max [p; 1].
Proof.
  intros [H|H].
  - assert (ordered p) as Hp by (apply eqb_key in H; tauto).
    assert (truthy p = false) as Ht.
    { unfold truthy, is_zero. change zero with 0. rewrite H, orb_true_r. reflexivity. }
    unfold or_else. rewrite Ht.
    unfold Math_max. cbn [fold_left].
    rewrite (max_step_ordered neg_infinity p) by (auto; reflexivity).
    change (is_neg_zero neg_infinity) with false. rewrite andb_false_r.
    apply eqb_leb in H. destruct H as [Hle _].
    assert (PrimFloat.ltb p 1 = true) as Hlt.
    { apply (leb_ltb_trans p 0 1); [assumption | reflexivity]. }
    destruct (PrimFloat.ltb neg_infinity p).
    + rewrite max_step_ordered by (auto; reflexivity).
      change (is_pos_zero 1) with false. cbn [andb]. now rewrite Hlt.
    + reflexivity.
  - destruct (leb_ordered _ _ H) as [_ Hp].
    assert (PrimFloat.ltb p 1 = false) as Hlt by now apply leb_not_ltb.
    assert (truthy p = true) as Ht.
    { unfold truthy. unfold ordered in Hp. rewrite Hp. cbn [orb].
      unfold is_zero. change zero with 0.
      destruct (PrimFloat.eqb p 0) eqn:E; [|reflexivity].
      apply eqb_leb in E. destruct E as [E _].
      assert (PrimFloat.leb 1 0 = true) as F by (eapply leb_trans; eauto).
      discriminate F. }
    unfold or_else. rewrite Ht.
    unfold Math_max. cbn [fold_left].
    rewrite (max_step_ordered neg_infinity p) by (auto; reflexivity).
    change (is_neg_zero neg_infinity) with false. rewrite andb_false_r.
    destruct (PrimFloat.ltb neg_infinity p) eqn:E.
    + rewrite max_step_ordered by (auto; reflexivity).
      change (is_pos_zero 1) with false. cbn [andb]. now rewrite Hlt.
    + apply leb_total in E; auto; [|reflexivity].
      assert (PrimFloat.leb 1 neg_infinity = true) as F by (eapply leb_trans; eauto).
      discriminate F.
Qed.

End DoubleFacts.

(** ** Rounding to nearest stays below a representable bound

    [SFdiv] and [SFmul] truncate an exact quotient or product with
    [shr_fexp], round it with [round_nearest_even] and renormalise.  A
    bound [k * 2^g] that is a multiple of the unit at every exponent
    reached is not crossed by any of the three steps. *)

Section Rounding.
Local Open Scope Z_scope.

Lemma upper_of_loc (m : Z) (l : location) :
  upper (shr_record_of_loc m l) = upper_loc m l /\ shr_m (shr_record_of_loc m l) = m.
Proof. destruct l as [|[ | | ]]; cbn; split; reflexivity. Qed.

Lemma shr_1_le (mrs : shr_record) :
  0 <= shr_m mrs ->
  0 <= shr_m (shr_1 mrs) /\
  forall K, upper mrs <= 2 * K -> upper (shr_1 mrs) <= K.
Proof.
  destruct mrs as [m r s]. unfold upper. cbn [shr_m shr_r shr_s shr_1].
  destruct m as [|[p|p|]|p]; intros H; try lia;
    cbn [shr_m shr_r shr_s orb]; (split; [lia|]); intros K;
    destruct (r || s); lia.
Qed.

Lemma iter_shr_1_le (n : positive) :
  forall mrs, 0 <= shr_m mrs ->
  0 <= shr_m (SpecFloat.iter_pos shr_1 n mrs) /\
  forall K, upper mrs <= K * 2 ^ Z.pos n -> upper (SpecFloat.iter_pos shr_1 n mrs) <= K.
Proof.
  induction n as [n IH|n IH|]; intros mrs Hm; cbn [SpecFloat.iter_pos].
  - destruct (shr_1_le mrs Hm) as [H1 L1].
    destruct (IH _ H1) as [H2 L2]. destruct (IH _ H2) as [H3 L3].
    split; [exact H3|]. intros K HK. apply L3, L2, L1.
    assert (2 ^ Z.pos n~1 = 2 * (2 ^ Z.pos n * 2 ^ Z.pos n)) as E.
    { rewrite <- Z.pow_add_r, <- Z.pow_succ_r by lia. f_equal. lia. }
    rewrite E in HK. lia.
  - destruct (IH _ Hm) as [H2 L2]. destruct (IH _ H2) as [H3 L3].
    split; [exact H3|]. intros K HK. apply L3, L2.
    assert (2 ^ Z.pos n~0 = 2 ^ Z.pos n * 2 ^ Z.pos n) as E.
    { rewrite <- Z.pow_add_r by lia. f_equal. lia. }
    rewrite E in HK. lia.
  - destruct (shr_1_le mrs Hm) as [H1 L1]. split; [exact H1|].
    intros K HK. apply L1. change (2 ^ 1) with 2 in HK. lia.
Qed.

Lemma fexp_fexp64 (z : Z) : fexp prec emax z = fexp64 z.
Proof. reflexivity. Qed.

Lemma digits2_pos_size (m : positive) : digits2_pos m = Pos.size m.
Proof. induction m as [m IH|m IH|]; cbn; now rewrite ?IH. Qed.

(** [2^(digits - 1) <= m < 2^digits] *)
Lemma Zdigits2_bounds (m : positive) :
  2 ^ (Z.pos (digits2_pos m) - 1) <= Z.pos m < 2 ^ Z.pos (digits2_pos m).
Proof.
  rewrite digits2_pos_size. split.
  - pose proof (Pos.size_le m) as H.
    assert (2 ^ Z.pos (Pos.size m) <= 2 * Z.pos m) as H'.
    { rewrite <- Pos2Z.inj_pow. lia. }
    replace (Z.pos (Pos.size m)) with (Z.succ (Z.pos (Pos.size m) - 1)) in H' by lia.
    rewrite Z.pow_succ_r in H' by lia. lia.
  - pose proof (Pos.size_gt m) as H. rewrite <- Pos2Z.inj_pow. lia.
Qed.

(** A value below [2^G] has its digits end at or below [G]. *)
Lemma Zdigits2_le (m : Z) (e G : Z) :
  0 <= m -> e <= G -> m < 2 ^ (G - e) -> Zdigits2 m + e <= Z.max G e.
Proof.
  intros Hm He Hlt. destruct m as [|p|p]; cbn [Zdigits2]; [lia| |lia].
  destruct (Zdigits2_bounds p) as [Hlo _].
  assert (2 ^ (Z.pos (digits2_pos p) - 1) < 2 ^ (G - e)) as H by lia.
  apply Z.pow_lt_mono_r_iff in H; lia.
Qed.

(** One [shr_fexp]: a bound [k * 2^g] on the grid stays a bound. *)
Lemma shr_fexp_le (m e : Z) (l : location) (g G k : Z) (mrs : shr_record) (e' : Z) :
  shr_fexp prec emax m e l = (mrs, e') ->
  0 <= m -> e <= g -> 0 < k ->
  fexp64 (Z.max G g) <= g ->
  k < 2 ^ (G - g) ->
  upper_loc m l <= k * 2 ^ (g - e) ->
  e' <= g /\ 0 <= shr_m mrs /\ upper mrs <= k * 2 ^ (g - e').
Proof.
  unfold shr_fexp, shr. rewrite fexp_fexp64.
  intros Hs Hm He Hk Hg HG Hu.
  destruct (upper_of_loc m l) as [Eu Em].
  assert (m < 2 ^ (G - e)) as Hlt.
  { assert (upper_loc m l <= k * 2 ^ (g - e)) by assumption.
    assert (m <= upper_loc m l) by (unfold upper_loc; destruct l; lia).
    assert (k * 2 ^ (g - e) < 2 ^ (G - g) * 2 ^ (g - e)).
    { apply Z.mul_lt_mono_pos_r; [apply Z.pow_pos_nonneg; lia|assumption]. }
    assert (0 <= G - g).
    { destruct (Z.lt_ge_cases (G - g) 0) as [Hn|]; [|assumption].
      rewrite Z.pow_neg_r in HG by assumption. lia. }
    rewrite <- Z.pow_add_r in * by lia.
    replace (G - g + (g - e)) with (G - e) in * by lia. lia. }
  assert (e <= G) as HeG.
  { destruct (Z.lt_ge_cases (G - g) 0) as [Hn|]; [|lia].
    rewrite Z.pow_neg_r in HG by assumption. lia. }
  pose proof (Zdigits2_le m e G Hm HeG Hlt) as Hd.
  assert (fexp64 (Zdigits2 m + e) <= g) as Hf.
  { unfold fexp64 in *. lia. }
  destruct (fexp64 (Zdigits2 m + e) - e) as [|n|n] eqn:En.
  - injection Hs as <- <-. rewrite Eu, Em. auto.
  - injection Hs as <- <-.
    rewrite <- Em in Hm. destruct (iter_shr_1_le n _ Hm) as [H1 L1].
    split; [lia|]. split; [exact H1|]. apply L1. rewrite Eu.
    rewrite <- Z.mul_assoc, <- Z.pow_add_r by lia.
    replace (g - (e + Z.pos n) + Z.pos n) with (g - e) by lia. exact Hu.
  - injection Hs as <- <-. rewrite Eu, Em. auto.
Qed.

Lemma round_nearest_even_le (mrs : shr_record) :
  0 <= shr_m mrs ->
  0 <= round_nearest_even (shr_m mrs) (loc_of_shr_record mrs) <= upper mrs.
Proof.
  destruct mrs as [m [|] [|]]; unfold upper; cbn; intros H;
    try destruct (Z.even m); lia.
Qed.

(** Rounding to nearest does not cross a bound that is representable
    at every exponent reached. *)
Lemma binary_round_aux_below (mx ex : Z) (lx : location) (g G k : Z) :
  0 <= mx -> ex <= g -> 0 < k ->
  fexp64 (Z.max G g) <= g -> g <= 971 ->
  k < 2 ^ (G - g) ->
  upper_loc mx lx <= k * 2 ^ (g - ex) ->
  below (binary_round_aux prec emax false mx ex lx) k g.
Proof.
  intros Hm He Hk Hg Hmax HG Hu. unfold binary_round_aux.
  destruct (shr_fexp prec emax mx ex lx) as [mrs1 e1] eqn:E1.
  destruct (shr_fexp_le _ _ _ g G k _ _ E1) as (He1 & Hm1 & Hu1); auto.
  pose proof (round_nearest_even_le mrs1 Hm1) as [Hr0 Hr1].
  set (m2 := round_nearest_even (shr_m mrs1) (loc_of_shr_record mrs1)) in *.
  destruct (shr_fexp prec emax m2 e1 loc_Exact) as [mrs2 e2] eqn:E2.
  destruct (shr_fexp_le _ _ _ g G k _ _ E2) as (He2 & Hm2 & Hu2); auto.
  { unfold upper_loc. lia. }
  assert (shr_m mrs2 <= k * 2 ^ (g - e2)) as Hle.
  { unfold upper in Hu2. destruct (shr_r mrs2 || shr_s mrs2); lia. }
  destruct (shr_m mrs2) as [|m|m] eqn:Em; [left; now exists false| |lia].
  right. destruct (Z.leb_spec e2 (emax - prec)) as [_|Hov].
  - exists m, e2. auto.
  - unfold emax, prec in Hov. lia.
Qed.

(** The order of doubles on valid finite values is the order of the
    values [m * 2^e]. *)
Lemma valid_finite (s : bool) (m : positive) (e : Z) :
  valid_binary (S754_finite s m e) = true ->
  Z.pos m < 2 ^ 53 /\ -1074 <= e /\ (-1074 < e -> 2 ^ 52 <= Z.pos m).
Proof.
  cbn [SpecFloat.valid_binary]. unfold bounded, canonical_mantissa.
  rewrite fexp_fexp64. unfold fexp64.
  intros H. apply andb_prop in H. destruct H as [H _]. apply Z.eqb_eq in H.
  destruct (Zdigits2_bounds m) as [Hlo Hhi].
  assert (Z.pos (digits2_pos m) <= 53) as Hd by lia.
  split; [|split].
  - eapply Z.lt_le_trans; [exact Hhi|]. apply Z.pow_le_mono_r; lia.
  - lia.
  - intros He. assert (Z.pos (digits2_pos m) = 53) as Hd53 by lia.
    rewrite Hd53 in Hlo. exact Hlo.
Qed.

Lemma new_location_upper (n q r : Z) :
  0 <= r -> upper_loc q (new_location n r) = q + (if r =? 0 then 0 else 1).
Proof.
  intros Hr. unfold upper_loc, new_location, new_location_even, new_location_odd.
  destruct (Z.even n), (r =? 0); reflexivity.
Qed.

(** The quotient of two valid positive doubles, the first at or below
    the second, is at or below one. *)
Lemma SFdiv_below_one (md mp : positive) (ed ep : Z) :
  valid_binary (S754_finite false md ed) = true ->
  valid_binary (S754_finite false mp ep) = true ->
  ed < ep \/ (ed = ep /\ (md <= mp)%positive) ->
  below (SFdiv prec emax (S754_finite false md ed) (S754_finite false mp ep)) 1 0.
Proof.
  intros Vd Vp Hle.
  destruct (valid_finite _ _ _ Vd) as (Hd53 & Hdmin & _).
  destruct (valid_finite _ _ _ Vp) as (Hp53 & Hpmin & Hpnorm).
  destruct (Zdigits2_bounds md) as [Hd1 Hd2].
  destruct (Zdigits2_bounds mp) as [Hp1 Hp2].
  cbn [SFdiv xorb]. unfold SFdiv_core_binary. cbn [Zdigits2].
  rewrite fexp_fexp64.
  set (d1 := Z.pos (digits2_pos md)) in *.
  set (d2 := Z.pos (digits2_pos mp)) in *.
  assert (d1 + ed - (d2 + ep) <= 0) as Hdig.
  { destruct Hle as [Hlt|[-> Hm]].
    - assert (d1 <= 53).
      { destruct (Z.le_gt_cases d1 53) as [|Hgt]; [assumption|].
        assert (2 ^ 53 <= 2 ^ (d1 - 1)) by (apply Z.pow_le_mono_r; lia). lia. }
      assert (53 <= d2).
      { destruct (Z.le_gt_cases 53 d2) as [|Hgt]; [assumption|].
        assert (2 ^ d2 <= 2 ^ 52) by (apply Z.pow_le_mono_r; lia).
        specialize (Hpnorm ltac:(lia)). lia. }
      lia.
    - assert (2 ^ (d1 - 1) < 2 ^ d2) as H by lia.
      apply Z.pow_lt_mono_r_iff in H; lia. }
  set (e' := Z.min (fexp64 (d1 + ed - (d2 + ep))) (ed - ep)).
  assert (e' <= -53) as He' by (subst e'; unfold fexp64; lia).
  assert (0 <= ed - ep - e') as Hs by (subst e'; lia).
  set (s := ed - ep - e') in *.
  set (m' := match s with
             | 0 => Z.pos md
             | Z.pos _ => Z.shiftl (Z.pos md) s
             | Z.neg _ => 0
             end).
  assert (m' = Z.pos md * 2 ^ s) as Hm'.
  { subst m'. destruct s as [|n|n] eqn:Es; [rewrite Z.pow_0_r; lia| |lia].
    apply Z.shiftl_mul_pow2. lia. }
  clearbody m'.
  assert (m' <= Z.pos mp * 2 ^ (- e')) as Hnum.
  { rewrite Hm'. destruct Hle as [Hlt|[-> Hm]].
    - specialize (Hpnorm ltac:(lia)).
      replace (- e') with (s + (ep - ed)) by (subst s; lia).
      rewrite Z.pow_add_r by lia.
      assert (2 <= 2 ^ (ep - ed)).
      { change 2 with (2 ^ 1) at 1. apply Z.pow_le_mono_r; lia. }
      assert (0 < 2 ^ s) by (apply Z.pow_pos_nonneg; lia).
      change (2 ^ 53) with 9007199254740992 in Hd53.
      change (2 ^ 52) with 4503599627370496 in Hpnorm.
      assert (9007199254740992 <= Z.pos mp * 2 ^ (ep - ed)) by nia.
      rewrite (Z.mul_comm (2 ^ s)), Z.mul_assoc.
      apply Z.mul_le_mono_nonneg_r; lia.
    - replace (- e') with s by (subst s; lia).
      apply Z.mul_le_mono_nonneg_r; [apply Z.pow_nonneg|]; lia. }
  pose proof (Z_div_mod m' (Z.pos mp) ltac:(lia)) as Hdm.
  destruct (Z.div_eucl m' (Z.pos mp)) as [q r]. destruct Hdm as [Hq Hr].
  assert (0 <= m') by (rewrite Hm'; apply Z.mul_nonneg_nonneg; [lia|apply Z.pow_nonneg; lia]).
  assert (0 < 2 ^ (- e')) by (apply Z.pow_pos_nonneg; lia).
  assert (0 <= q) as Hq0 by (clear - Hq Hr H; nia).
  assert (upper_loc q (new_location (Z.pos mp) r) <= 1 * 2 ^ (0 - e')) as Hup.
  { rewrite new_location_upper by lia. rewrite Z.sub_0_l, Z.mul_1_l.
    set (P := 2 ^ (- e')) in *. clearbody P.
    destruct (Z.eqb_spec r 0) as [Hr0|Hr0]; clear - Hq Hr Hnum H0 Hr0; nia. }
  apply (binary_round_aux_below q e' _ 0 1 1 Hq0);
    [lia | lia | unfold fexp64; lia | lia | reflexivity | exact Hup].
Qed.

Lemma SFmul_100_below (x : spec_float) :
  below x 1 0 -> below (SFmul prec emax x (S754_finite false m100 (-46))) 25 2.
Proof.
  intros [[s ->]|(m & e & -> & He & Hm)].
  - left. eexists. reflexivity.
  - cbn [SFmul xorb]. rewrite Z.mul_1_l, Z.sub_0_l in Hm.
    assert (upper_loc (Z.pos (m * m100)) loc_Exact <= 25 * 2 ^ (2 - (e + -46)))
      as Hup.
    { unfold upper_loc. rewrite Z.add_0_r.
      replace (2 - (e + -46)) with (48 + - e) by lia.
      rewrite Z.pow_add_r by lia. rewrite Pos2Z.inj_mul.
      change (Z.pos m100) with (25 * 2 ^ 48).
      set (P := 2 ^ (- e)) in *. set (c := 2 ^ 48). 
      assert (0 < c) by reflexivity. clearbody P c.
      clear - Hm H. nia. }
    apply (binary_round_aux_below _ _ _ 2 7 25);
      [lia | lia | lia | unfold fexp64; lia | lia | reflexivity | exact Hup].
Qed.

Lemma below_100_key (x : spec_float) :
  valid_binary x = true -> below x 25 2 ->
  x = S754_zero false \/ x = S754_zero true \/
  exists m e, x = S754_finite false m e /\
    (e < -46 \/ (e = -46 /\ Z.pos m <= 7036874417766400)).
Proof.
  intros V [[[|] ->]|(m & e & -> & He & Hm)]; auto.
  right. right. exists m, e. split; [reflexivity|].
  destruct (valid_finite _ _ _ V) as (_ & _ & Hnorm).
  destruct (Z.lt_trichotomy e (-46)) as [Hlt|[->|Hgt]]; [now left| |].
  - right. split; [reflexivity|]. change (2 - -46) with 48 in Hm.
    change (25 * 2 ^ 48) with 7036874417766400 in Hm.
    exact Hm.
  - exfalso. specialize (Hnorm ltac:(lia)).
    assert (2 ^ (2 - e) <= 2 ^ 47) as HP by (apply Z.pow_le_mono_r; lia).
    change (2 ^ 47) with 140737488355328 in HP.
    change (2 ^ 52) with 4503599627370496 in Hnorm.
    set (P := 2 ^ (2 - e)) in *. clearbody P. clear - Hm HP Hnorm. lia.
Qed.

End Rounding.

(** ** The share of a part in a whole *)

Section RangeFacts.
Import JsNumber.
Local Open Scope float_scope.

Lemma truthy_key (p : number) :
  truthy p = true <-> ordered p /\ SFkey (Prim2SF p) <> (0, 0, 0)%Z.
Proof.
  unfold truthy, is_zero, ordered.
  destruct (is_nan p) eqn:En; cbn [orb negb].
  - split; [discriminate|]. intros [H _]. discriminate H.
  - destruct (PrimFloat.eqb p zero) eqn:Ez; cbn [negb].
    + apply eqb_key in Ez. destruct Ez as (_ & _ & Ez).
      split; [discriminate|]. intros [_ H]. exfalso. apply H. exact Ez.
    + split; [|reflexivity]. intros _. split; [reflexivity|].
      intros Hk. assert (PrimFloat.eqb p zero = true) as F; [|congruence].
      apply eqb_key. repeat split; assumption.
Qed.

Lemma below_in_range (x : number) :
  below (Prim2SF x) 25 2 ->
  PrimFloat.leb 0 x = true /\ PrimFloat.leb x 100 = true.
Proof.
  intros H. apply below_100_key in H; [|apply Prim2SF_valid].
  rewrite !leb_key, !ordered_not_nan. unfold not_nan.
  change (Prim2SF 0) with (S754_zero false).
  change (Prim2SF 100) with (S754_finite false 7036874417766400 (-46)).
  destruct H as [->|[->|(m & e & -> & He)]]; cbn [SFkey]; unfold key_le;
    repeat split; try discriminate; try (now right); try (left; cbn; lia).
  destruct He as [He|[-> Hm]]; [left; cbn; lia|].
  destruct (Z.eq_dec (Z.pos m) 7036874417766400%Z) as [->|Hne];
    [now right|left; cbn; lia].
Qed.

(** For [0 <= d <= p] with [d] finite, [d / (p || 1) * 100] is in
    [0, 100]. *)
Lemma share_in_range (d p : number) :
  PrimFloat.leb 0 d = true ->
  PrimFloat.leb d p = true ->
  PrimFloat.ltb d infinity = true ->
  PrimFloat.leb 0 (d / or_else p 1 * 100) = true /\
  PrimFloat.leb (d / or_else p 1 * 100) 100 = true.
Proof.
  intros H0 Hdp Hfin. apply below_in_range.
  rewrite mul_spec, div_spec. unfold SF64mul, SF64div.
  change (Prim2SF 100) with (S754_finite false m100 (-46)).
  apply SFmul_100_below.
  apply leb_key in H0. destruct H0 as (_ & Od & K0).
  apply leb_key in Hdp. destruct Hdp as (_ & Op & Kdp).
  apply ltb_key in Hfin. destruct Hfin as (_ & _ & Kfin).
  change (Prim2SF 0) with (S754_zero false) in K0.
  change (Prim2SF infinity) with (S754_infinity false) in Kfin.
  pose proof (Prim2SF_valid d) as Vd. pose proof (Prim2SF_valid p) as Vp.
  assert (SFkey (Prim2SF p) <> (0, 0, 0)%Z -> or_else p 1 = p) as Hp'.
  { intros Hk. unfold or_else.
    assert (truthy p = true) as -> by (apply truthy_key; auto). reflexivity. }
  assert (SFkey (Prim2SF p) = (0, 0, 0)%Z -> or_else p 1 = 1) as Hp1.
  { intros Hk. unfold or_else. destruct (truthy p) eqn:Et; [|reflexivity].
    apply truthy_key in Et. tauto. }
  apply ordered_not_nan in Od, Op. unfold not_nan in Od, Op.
  unfold key_le in K0, Kdp.
  destruct (Prim2SF d) as [sd|sd| |sd md ed] eqn:Ed; try congruence.
  - (* d is zero *)
    destruct (Prim2SF p) as [sp|sp| |sp mp ep] eqn:Ep; try congruence.
    + rewrite (Hp1 eq_refl).
      change (Prim2SF 1) with (S754_finite false 4503599627370496 (-52)).
      left. eexists. reflexivity.
    + rewrite Hp', Ep by (destruct sp; discriminate). left. eexists. reflexivity.
    + rewrite Hp', Ep by (destruct sp; discriminate). left. eexists. reflexivity.
  - (* d is infinite: excluded *)
    exfalso. destruct sd; cbn in K0, Kfin;
      [destruct K0 as [K0|K0]; [lia|discriminate]|lia].
  - (* d is finite *)
    destruct sd; cbn [SFkey] in K0, Kdp;
      [exfalso; destruct K0 as [K0|K0]; [cbn in K0; lia|discriminate]|].
    destruct (Prim2SF p) as [sp|sp| |sp mp ep] eqn:Ep; try congruence.
    + exfalso. cbn in Kdp. destruct Kdp as [K|K]; [lia|discriminate].
    + rewrite Hp', Ep by (destruct sp; discriminate).
      left. eexists. reflexivity.
    + rewrite Hp', Ep by (destruct sp; discriminate).
      destruct sp; cbn [SFkey] in Kdp;
        [exfalso; destruct Kdp as [K|K]; [cbn in K; lia|discriminate]|].
      apply SFdiv_below_one; [assumption|assumption|].
      destruct Kdp as [K|K].
      * cbn in K. destruct K as [K|[_ [K|[-> K]]]]; [lia|now left|right].
        split; [reflexivity|]. apply Pos2Z.pos_le_pos. lia.
      * injection K as -> ->. right. split; [reflexivity|]. apply Pos.le_refl.
Qed.

End RangeFacts.

(** ** Counts

    A whole number that is not negative is zero or at least one. *)

Section CountFacts.
Import JsNumber.
Local Open Scope float_scope.

Lemma count_zero_or_ge_one (p : number) :
  is_count p -> PrimFloat.eqb p 0 = true \/ PrimFloat.leb 1 p = true.
Proof.
  intros [Hpos Hfl]. apply leb_key in Hpos. destruct Hpos as (_ & Hp & Hle).
  change (Prim2SF 0) with (S754_zero false) in Hle.
  rewrite eqb_key, leb_key.
  change (Prim2SF 0) with (S754_zero false).
  change (Prim2SF 1) with (S754_finite false 4503599627370496 (-52)).
  pose proof (Prim2SF_valid p) as Hv.
  unfold Math_floor in Hfl.
  destruct (Prim2SF p) as [s|s| |s m e] eqn:E.
  - left. repeat split; auto.
  - right. split; [reflexivity|]. split; [assumption|].
    destruct s; cbn [SFkey] in *; unfold key_le in *;
      [exfalso; destruct Hle as [Hle|Hle]; [cbn in Hle; lia|discriminate]
      |left; cbn; lia].
  - apply ordered_not_nan in Hp. unfold not_nan in Hp. congruence.
  - right. split; [reflexivity|]. split; [assumption|].
    destruct s; cbn [SFkey] in Hle; unfold key_le in Hle;
      [exfalso; destruct Hle as [Hle|Hle]; [cbn in Hle; lia|discriminate]|].
    apply valid_finite in Hv. destruct Hv as (Hv & _ & _).
    cbn [SFkey]. unfold key_le. cbn [key_lt].
    destruct (Z.leb_spec 0 e) as [He|He]; [left; lia|].
    assert (2 ^ (- e) <= Z.pos m)%Z as Hm.
    { destruct (Z.lt_ge_cases (Z.pos m) (2 ^ (- e))) as [Hlt|]; [|assumption].
      exfalso. rewrite <- (Z.opp_involutive e) in Hfl at 1.
      rewrite Z.shiftl_opp_r, Z.shiftr_div_pow2 in Hfl by lia.
      cbn [signed] in Hfl. rewrite Z.div_small in Hfl by lia.
      rewrite <- Hfl in E. vm_compute in E. discriminate E. }
    assert (- e < 53)%Z as He'.
    { apply (Z.pow_lt_mono_r_iff 2); lia. }
    destruct (Z.eq_dec e (-52)%Z) as [->|Hne]; [|left; lia].
    change (2 ^ (- -52))%Z with 4503599627370496%Z in Hm.
    destruct (Z.eq_dec (Z.pos m) 4503599627370496%Z) as [Heq|Hneq].
    + right. now rewrite Heq.
    + left. lia.
Qed.

End CountFacts.

(** ** The remote summary path ([AnalysisPage.tsx]) *)

Section AnalysisPageFacts.
Import JsString JsNumber AnalysisPage.
Local Open Scope float_scope.

Lemma try_remote_failure (o : FetchOutcome) :
  remote_failure o <-> try_remote o = None.
Proof.
  split.
  - intros [ | status body H | status]; cbn; auto.
    + now rewrite H.
    + destruct (response_ok status); reflexivity.
  - destruct o as [|status body]; cbn; [constructor|].
    destruct (response_ok status) eqn:E; cbn.
    + destruct body as [[items|item]|]; try discriminate.
      intros _. apply malformed_body.
    + intros _. now apply non_success_status.
Qed.

Lemma try_remote_item (o : FetchOutcome) (item : WebhookResponseItem) :
  remote_item o item <-> try_remote o = Some (Some item).
Proof.
  split.
  - intros [status it H | status it rest H]; cbn; now rewrite H.
  - destruct o as [|status body]; cbn; [discriminate|].
    destruct (response_ok status) eqn:E; cbn; [|discriminate].
    destruct body as [[[|it rest]|it]|]; cbn; try discriminate;
      intros [= <-]; now constructor.
Qed.

Lemma str_or_same (s : string) : str_or (Some s) s = s.
Proof. now destruct s. Qed.

(** What [normalize] returns, field by field. *)
Lemma normalize_fields (X : string) (item : WebhookResponseItem) (b : bool)
    (m : DetailedMetrics) :
  normalize X (Some item) b = Some m ->
  exists s, summary item = Some s /\
    id m = str_or (request_id item) X /\
    isMock m = b /\
    dropSplit m =
      ToNumber (total_consignments_dropped s)
        / num_or (total_consignments_planned s) 1 * 100 /\
    dropSplitStr m = toFixed (dropSplit m) 1 /\
    avgDistance m = num_or (avg_trip_distance_km s) 0 /\
    totalDrops m = num_or (total_consignments_dropped s) 0 /\
    totalTrips m = num_or (total_trips s) 0 /\
    avgConsignments m = num_or (avg_stops_per_trip s) 0 /\
    dropReasons m =
      JsArray.sort (fun a b => count b - count a)
        (map drop_reason_of (default [] (drop_breakup item))).
Proof.
  unfold normalize.
  destruct (_ && _); [discriminate|].
  destruct (summary item) as [s|]; [|discriminate].
  intros [= <-]. exists s. repeat split; reflexivity.
Qed.

Lemma resolved_cons (name : string) (o : FetchOutcome)
    (rest : list (string * FetchOutcome)) :
  resolved ((name, o) :: rest) =
    match fetchScenarioData name o with
    | Some m => m :: resolved rest
    | None => resolved rest
    end.
Proof. reflexivity. Qed.

Lemma fetch_on_failure (X : string) (o : FetchOutcome) :
  remote_failure o ->
  fetchScenarioData X o = normalize X (Some (mock_item X)) true.
Proof.
  intros H. apply try_remote_failure in H.
  unfold fetchScenarioData. now rewrite H.
Qed.

Lemma mock_metrics (X : string) :
  exists m, normalize X (Some (mock_item X)) true = Some m /\
    id m = X /\ isMock m = true.
Proof.
  eexists. split; [reflexivity|]. split; [apply str_or_same|reflexivity].
Qed.

(** C1: whenever the remote call for [X] fails (transport, status or an
    unparsable body), [fetchScenarioData] returns metrics whose id is [X],
    flagged as simulated, with the drop reasons of the fallback payload. *)
Theorem fallback_on_remote_failure (X : string) (o : FetchOutcome) :
  remote_failure o ->
  exists m, fetchScenarioData X o = Some m /\
    id m = X /\
    isMock m = true /\
    dropReasons m
      = map drop_reason_of (default [] (drop_breakup MOCK_RESPONSE_DATA)) /\
    dropReasons m = [ {| reason := "Insufficient weight"; count := 3 |} ].
Proof.
  intros H. apply try_remote_failure in H.
  unfold fetchScenarioData. rewrite H.
  eexists. split; [reflexivity|].
  split; [apply str_or_same|].
  split; [reflexivity|].
  split; vm_compute; reflexivity.
Qed.

Lemma fallback_on_remote_failure_witness :
  exists m, fetchScenarioData "X" (HttpResponse 503 None) = Some m /\
    id m = "X" /\
    isMock m = true /\
    dropReasons m
      = map drop_reason_of (default [] (drop_breakup MOCK_RESPONSE_DATA)) /\
    dropReasons m = [ {| reason := "Insufficient weight"; count := 3 |} ].
Proof.
  apply (fallback_on_remote_failure "X" (HttpResponse 503 None)).
  apply non_success_status. reflexivity.
Defined.

(** C5: a payload handed over by a successful remote call that carries
    [success = false] yields no metrics, and the scenario is left out of
    the batch: the fallback is not used. *)
Theorem explicit_failure_excluded (X : string) (o : FetchOutcome)
    (item : WebhookResponseItem) :
  remote_item o item ->
  success item = Some false ->
  fetchScenarioData X o = None /\
  forall rest, resolved ((X, o) :: rest) = resolved rest.
Proof.
  intros H Hs. apply try_remote_item in H.
  assert (fetchScenarioData X o = None) as E.
  { unfold fetchScenarioData. rewrite H. unfold normalize. now rewrite Hs. }
  split; [exact E|]. intros rest. now rewrite resolved_cons, E.
Qed.

Lemma explicit_failure_excluded_witness :
  fetchScenarioData "S1" (HttpResponse 200 (Some (BodyItem failed_item))) = None /\
  forall rest,
    resolved (("S1", HttpResponse 200 (Some (BodyItem failed_item))) :: rest)
    = resolved rest.
Proof.
  apply (explicit_failure_excluded "S1" _ failed_item).
  - apply single_item. reflexivity.
  - reflexivity.
Defined.

(** C10: a successful response whose body is the empty array yields no
    metrics, and the scenario is left out of the batch; the fallback, which
    would have produced some, is not used. *)
Theorem empty_array_excluded (X : string) (status : nat) :
  response_ok status = true ->
  fetchScenarioData X (HttpResponse status (Some (BodyArray []))) = None /\
  (forall rest,
     resolved ((X, HttpResponse status (Some (BodyArray []))) :: rest)
     = resolved rest) /\
  fetchScenarioData X NetworkError <> None.
Proof.
  intros H.
  assert (fetchScenarioData X (HttpResponse status (Some (BodyArray []))) = None)
    as E by (unfold fetchScenarioData; cbn; now rewrite H).
  split; [exact E|]. split.
  - intros rest. now rewrite resolved_cons, E.
  - unfold fetchScenarioData. cbn [try_remote]. discriminate.
Qed.

Lemma empty_array_excluded_witness :
  fetchScenarioData "S1" (HttpResponse 200 (Some (BodyArray []))) = None /\
  (forall rest,
     resolved (("S1", HttpResponse 200 (Some (BodyArray []))) :: rest)
     = resolved rest) /\
  fetchScenarioData "S1" NetworkError <> None.
Proof. apply (empty_array_excluded "S1" 200). reflexivity. Defined.

(** [Math_floor] and [Math_round] on a double with a fraction part are the
    floor and the nearest integer (a tie going up) of its exact value
    [z * 2^e], [e < 0]. *)
Lemma Math_floor_exact (x : number) (s : bool) (m : positive) (e : Z) :
  Prim2SF x = S754_finite s m e -> (e < 0)%Z ->
  Math_floor x = of_Z (signed s m / 2 ^ (- e)).
Proof.
  intros Hx He. unfold Math_floor. rewrite Hx.
  destruct (Z.leb_spec 0 e); [lia|].
  rewrite <- (Z.opp_involutive e) at 1.
  rewrite Z.shiftl_opp_r, Z.shiftr_div_pow2 by lia. reflexivity.
Qed.

Lemma Math_round_exact (x : number) (s : bool) (m : positive) (e : Z) :
  Prim2SF x = S754_finite s m e -> (e < 0)%Z ->
  let n := ((2 * signed s m + 2 ^ (- e)) / 2 ^ (1 - e))%Z in
  Math_round x =
    if (n =? 0)%Z then (if s then neg_zero else PrimFloat.zero) else of_Z n.
Proof.
  intros Hx He. unfold Math_round. rewrite Hx.
  destruct (Z.leb_spec 0 e); [lia|].
  replace (e - 1)%Z with (- (1 - e))%Z by lia.
  rewrite Z.shiftl_opp_r, Z.shiftr_div_pow2 by lia. reflexivity.
Qed.

(** C3: for a planned count [p] and a dropped count [d] the drop split is
    [d / max(p, 1) * 100], displayed to one decimal; planned 13 and
    dropped 3 display as 23.1. *)
Theorem drop_split_formula (X : string) (item : WebhookResponseItem) (b : bool)
    (m : DetailedMetrics) (s : Summary) (d p : number) :
  normalize X (Some item) b = Some m ->
  summary item = Some s ->
  total_consignments_dropped s = Some d ->
  total_consignments_planned s = Some p ->
  is_count p ->
  dropSplit m = d / Math_max [p; 1] * 100 /\
  dropSplitStr m = toFixed (dropSplit m) 1 /\
  (p = 13 -> d = 3 -> dropSplitStr m = "23.1").
Proof.
  intros Hn Hs Hd Hp Hcount.
  destruct (normalize_fields _ _ _ _ Hn) as (s' & Hs' & _ & _ & Hsplit & Hstr & _).
  assert (s' = s) as -> by congruence.
  rewrite Hd, Hp in Hsplit. cbn [ToNumber num_or] in Hsplit.
  rewrite (or_else_one_max p (count_zero_or_ge_one p Hcount)) in Hsplit.
  split; [exact Hsplit|]. split; [exact Hstr|].
  intros -> ->. rewrite Hstr, Hsplit. vm_compute. reflexivity.
Qed.

Lemma drop_split_formula_witness :
  exists m, normalize "X" (Some MOCK_RESPONSE_DATA) true = Some m /\
    dropSplit m = 3 / Math_max [13; 1] * 100 /\
    dropSplitStr m = toFixed (dropSplit m) 1 /\
    dropSplitStr m = "23.1".
Proof.
  eexists. split; [reflexivity|].
  destruct (drop_split_formula "X" MOCK_RESPONSE_DATA true _
              {| total_trips := Some 1;
                 total_distance_km := Some 0.06;
                 avg_trip_distance_km := Some 0.06;
                 total_trip_hours := Some 2.11;
                 avg_trip_hours := Some 2.11;
                 total_consignments_planned := Some 13;
                 total_consignments_served := Some 10;
                 total_consignments_dropped := Some 3;
                 avg_stops_per_trip := Some 10 |} 3 13
              eq_refl eq_refl eq_refl eq_refl (conj eq_refl eq_refl))
    as (H1 & H2 & H3).
  split; [exact H1|]. split; [exact H2|]. exact (H3 eq_refl eq_refl).
Defined.

(** C2.  The drop split is not clamped: a payload reporting more dropped
    than planned consignments goes above 100. *)
Lemma drop_split_above_100 :
  exists m, fetchScenarioData "S1" (HttpResponse 200 (Some (BodyItem over_item))) = Some m /\
    isMock m = false /\
    PrimFloat.leb (dropSplit m) 100 = false /\
    PrimFloat.ltb 166 (dropSplit m) = true /\
    dropSplitStr m = "166.7".
Proof. eexists. split; [reflexivity|]. repeat split; vm_compute; reflexivity. Qed.

(** C2, as the code has it: when the dropped count is finite and between
    zero and the planned count, the drop split is in [0, 100]. *)
Theorem drop_split_range (X : string) (item : WebhookResponseItem) (b : bool)
    (m : DetailedMetrics) (s : Summary) (d p : number) :
  normalize X (Some item) b = Some m ->
  summary item = Some s ->
  total_consignments_dropped s = Some d ->
  total_consignments_planned s = Some p ->
  PrimFloat.leb 0 d = true ->
  PrimFloat.leb d p = true ->
  PrimFloat.ltb d Infinity = true ->
  PrimFloat.leb 0 (dropSplit m) = true /\ PrimFloat.leb (dropSplit m) 100 = true.
Proof.
  intros Hn Hs Hd Hp H0 Hdp Hfin.
  destruct (normalize_fields _ _ _ _ Hn) as (s' & Hs' & _ & _ & Hsplit & _).
  assert (s' = s) as -> by congruence.
  rewrite Hd, Hp in Hsplit. cbn [ToNumber num_or] in Hsplit.
  rewrite Hsplit. now apply share_in_range.
Qed.

Lemma drop_split_range_witness :
  exists m, fetchScenarioData "X" NetworkError = Some m /\
    PrimFloat.leb 0 (dropSplit m) = true /\ PrimFloat.leb (dropSplit m) 100 = true.
Proof.
  eexists. split; [reflexivity|].
  apply (drop_split_range "X" (mock_item "X") true _
           {| total_trips := Some 1;
              total_distance_km := Some 0.06;
              avg_trip_distance_km := Some 0.06;
              total_trip_hours := Some 2.11;
              avg_trip_hours := Some 2.11;
              total_consignments_planned := Some 13;
              total_consignments_served := Some 10;
              total_consignments_dropped := Some 3;
              avg_stops_per_trip := Some 10 |} 3 13);
    reflexivity.
Defined.

(** C4.  The empty batch resolves to nothing and yet raises no error:
    [executeSearch] returns at once and leaves the state as it was. *)
Lemma empty_batch_no_failure :
  resolved [] = [] /\
  executeSearch (initialState None) [] = initialState None /\
  error (executeSearch (initialState None) []) = None.
Proof. repeat split. Qed.

Lemma resolved_all_failed (scenarios : list (string * FetchOutcome)) :
  Forall (fun s => remote_failure (snd s)) scenarios ->
  map id (resolved scenarios) = map fst scenarios /\
  Forall (fun m => isMock m = true) (resolved scenarios).
Proof.
  induction 1 as [|[name o] rest Ho _ [IH1 IH2]]; [split; constructor|].
  rewrite resolved_cons, (fetch_on_failure name o Ho).
  destruct (mock_metrics name) as (m & -> & Hid & Hmock).
  cbn [map fst]. rewrite IH1, Hid. split; [reflexivity|]. now constructor.
Qed.

Lemma executeSearch_cases (st : PageState) (scenarios : list (string * FetchOutcome)) :
  scenarios <> [] ->
  let st' := executeSearch st scenarios in
  (resolved scenarios = [] /\ error st' = Some unresolvable /\ metricsData st' = [])
  \/ (resolved scenarios <> [] /\ error st' = None
      /\ metricsData st' = resolved scenarios).
Proof.
  intros Hne. destruct scenarios as [|s rest]; [congruence|].
  unfold executeSearch. cbv zeta. fold (resolved (s :: rest)).
  destruct (resolved (s :: rest)) eqn:E; [left|right]; repeat split.
  discriminate.
Qed.

(** C4, as the code has it: a batch that is not empty fails with the
    unresolvable-scenario error exactly when no scenario resolved; with at
    least one resolved scenario it succeeds with those that did; when every
    remote call fails, every scenario falls back and the result is the full
    set of simulated entries. *)
Theorem batch_resolution (st : PageState) (scenarios : list (string * FetchOutcome)) :
  scenarios <> [] ->
  let st' := executeSearch st scenarios in
  (error st' = Some unresolvable <-> resolved scenarios = []) /\
  (resolved scenarios <> [] ->
     error st' = None /\ metricsData st' = resolved scenarios) /\
  (Forall (fun s => remote_failure (snd s)) scenarios ->
     error st' = None /\
     map id (metricsData st') = map fst scenarios /\
     Forall (fun m => isMock m = true) (metricsData st')).
Proof.
  intros Hne st'.
  destruct (executeSearch_cases st scenarios Hne)
    as [(Hr & He & Hm)|(Hr & He & Hm)]; fold st' in He, Hm.
  - split; [|split].
    + split; auto.
    + congruence.
    + intros Hall. destruct (resolved_all_failed _ Hall) as [Hids _].
      rewrite Hr in Hids. destruct scenarios; [congruence|discriminate].
  - split; [|split].
    + rewrite He. split; [discriminate|congruence].
    + auto.
    + intros Hall. destruct (resolved_all_failed _ Hall) as [Hids Hmock].
      rewrite Hm. auto.
Qed.

Lemma batch_resolution_witness :
  let scenarios := [("A", NetworkError); ("B", HttpResponse 500 None)] in
  let st' := executeSearch (initialState None) scenarios in
  (error st' = Some unresolvable <-> resolved scenarios = []) /\
  (resolved scenarios <> [] ->
     error st' = None /\ metricsData st' = resolved scenarios) /\
  (Forall (fun s => remote_failure (snd s)) scenarios ->
     error st' = None /\
     map id (metricsData st') = map fst scenarios /\
     Forall (fun m => isMock m = true) (metricsData st')).
Proof.
  apply (batch_resolution (initialState None)
           [("A", NetworkError); ("B", HttpResponse 500 None)]).
  discriminate.
Defined.

End AnalysisPageFacts.

(** ** Cross-scenario extrema *)

Section ExtremaFacts.
Import JsNumber AnalysisPage.
Local Open Scope float_scope.

Lemma zero_leb_zero (x y : number) :
  is_zero x = true -> is_zero y = true -> PrimFloat.leb x y = true.
Proof.
  unfold is_zero. intros Hx Hy.
  apply eqb_leb in Hx. rewrite eqb_sym in Hy. apply eqb_leb in Hy.
  eapply leb_trans; [apply Hx|apply Hy].
Qed.

Lemma min_step_cases (l x : number) :
  ordered l -> ordered x ->
  (min_step l x = l \/ min_step l x = x) /\
  PrimFloat.leb (min_step l x) l = true /\
  PrimFloat.leb (min_step l x) x = true.
Proof.
  intros Hl Hx. rewrite min_step_ordered by assumption.
  destruct (is_neg_zero x && is_pos_zero l) eqn:Z.
  - apply andb_prop in Z. destruct Z as [Z1 Z2].
    apply andb_prop in Z1. apply andb_prop in Z2.
    split; [now right|]. split; [|now apply leb_refl].
    apply zero_leb_zero; tauto.
  - destruct (PrimFloat.ltb x l) eqn:E.
    + split; [now right|]. split; [now apply ltb_leb|now apply leb_refl].
    + split; [now left|]. split; [now apply leb_refl|now apply leb_total].
Qed.

Lemma max_step_cases (h x : number) :
  ordered h -> ordered x ->
  (max_step h x = h \/ max_step h x = x) /\
  PrimFloat.leb h (max_step h x) = true /\
  PrimFloat.leb x (max_step h x) = true.
Proof.
  intros Hh Hx. rewrite max_step_ordered by assumption.
  destruct (is_pos_zero x && is_neg_zero h) eqn:Z.
  - apply andb_prop in Z. destruct Z as [Z1 Z2].
    apply andb_prop in Z1. apply andb_prop in Z2.
    split; [now right|]. split; [|now apply leb_refl].
    apply zero_leb_zero; tauto.
  - destruct (PrimFloat.ltb h x) eqn:E.
    + split; [now right|]. split; [now apply ltb_leb|now apply leb_refl].
    + split; [now left|]. split; [now apply leb_refl|now apply leb_total].
Qed.

Lemma fold_min_step (xs : list number) (acc : number) :
  ordered acc -> Forall ordered xs ->
  let r := fold_left min_step xs acc in
  ordered r /\ PrimFloat.leb r acc = true /\
  Forall (fun x => PrimFloat.leb r x = true) xs /\
  (r = acc \/ In r xs).
Proof.
  revert acc. induction xs as [|x xs IH]; intros acc Hacc Hxs; cbn [fold_left].
  - repeat split; auto using leb_refl.
  - inversion Hxs as [|? ? Hx Hxs']; subst.
    destruct (min_step_cases acc x Hacc Hx) as (Hc & Hl & Hr).
    assert (ordered (min_step acc x)) as Ho by (destruct Hc as [-> | ->]; auto).
    destruct (IH _ Ho Hxs') as (IH1 & IH2 & IH3 & IH4).
    split; [assumption|]. split; [eapply leb_trans; eauto|]. split.
    + constructor; [eapply leb_trans; eauto|assumption].
    + destruct IH4 as [->|Hin]; [|right; now right].
      destruct Hc as [-> | ->]; [now left|right; now left].
Qed.

Lemma fold_max_step (xs : list number) (acc : number) :
  ordered acc -> Forall ordered xs ->
  let r := fold_left max_step xs acc in
  ordered r /\ PrimFloat.leb acc r = true /\
  Forall (fun x => PrimFloat.leb x r = true) xs /\
  (r = acc \/ In r xs).
Proof.
  revert acc. induction xs as [|x xs IH]; intros acc Hacc Hxs; cbn [fold_left].
  - repeat split; auto using leb_refl.
  - inversion Hxs as [|? ? Hx Hxs']; subst.
    destruct (max_step_cases acc x Hacc Hx) as (Hc & Hl & Hr).
    assert (ordered (max_step acc x)) as Ho by (destruct Hc as [-> | ->]; auto).
    destruct (IH _ Ho Hxs') as (IH1 & IH2 & IH3 & IH4).
    split; [assumption|]. split; [eapply leb_trans; eauto|]. split.
    + constructor; [eapply leb_trans; eauto|assumption].
    + destruct IH4 as [->|Hin]; [|right; now right].
      destruct Hc as [-> | ->]; [now left|right; now left].
Qed.

Lemma leb_infinity (x : number) : ordered x -> PrimFloat.leb x infinity = true.
Proof.
  intros H. apply leb_key. split; [assumption|]. split; [reflexivity|].
  apply ordered_not_nan in H. unfold not_nan in H.
  change (Prim2SF infinity) with (S754_infinity false).
  destruct (Prim2SF x) as [s|s| |s m e]; try congruence; cbn;
    try destruct s; unfold key_le; cbn; first [now right | left; lia].
Qed.

Lemma neg_infinity_leb (x : number) : ordered x -> PrimFloat.leb neg_infinity x = true.
Proof.
  intros H. apply leb_key. split; [reflexivity|]. split; [assumption|].
  apply ordered_not_nan in H. unfold not_nan in H.
  change (Prim2SF neg_infinity) with (S754_infinity true).
  destruct (Prim2SF x) as [s|s| |s m e]; try congruence; cbn;
    try destruct s; unfold key_le; cbn; first [now right | left; lia].
Qed.

Lemma Math_min_is_minimum (xs : list number) :
  xs <> [] -> Forall ordered xs -> is_minimum (Math_min xs) xs.
Proof.
  intros Hne Hxs. unfold Math_min.
  destruct (fold_min_step xs infinity eq_refl Hxs) as (Ho & _ & Hall & Hin).
  split; [assumption|].
  destruct Hin as [E|Hin].
  - destruct xs as [|x xs]; [congruence|]. apply Exists_cons_hd.
    inversion Hall; subst. inversion Hxs; subst.
    apply eqb_leb. split; [|assumption]. rewrite E. now apply leb_infinity.
  - apply Exists_exists. eexists. split; [apply list_elem_of_In; eassumption|].
    apply eqb_leb. split; now apply leb_refl.
Qed.

Lemma Math_max_is_maximum (xs : list number) :
  xs <> [] -> Forall ordered xs -> is_maximum (Math_max xs) xs.
Proof.
  intros Hne Hxs. unfold Math_max.
  destruct (fold_max_step xs neg_infinity eq_refl Hxs) as (Ho & _ & Hall & Hin).
  split; [assumption|].
  destruct Hin as [E|Hin].
  - destruct xs as [|x xs]; [congruence|]. apply Exists_cons_hd.
    inversion Hall; subst. inversion Hxs; subst.
    apply eqb_leb. split; [assumption|]. rewrite E. now apply neg_infinity_leb.
  - apply Exists_exists. eexists. split; [apply list_elem_of_In; eassumption|].
    apply eqb_leb. split; now apply leb_refl.
Qed.

(** An element equals a least value exactly when nothing is below it. *)
Lemma eq_minimum_iff (v x : number) (xs : list number) :
  is_minimum v xs -> In x xs ->
  strict_eq x v = true <-> Forall (fun y => PrimFloat.leb x y = true) xs.
Proof.
  intros [Hall Hex] Hin. unfold strict_eq. rewrite Forall_forall in Hall. split.
  - intros H. apply eqb_leb in H. apply Forall_forall. intros y Hy.
    eapply leb_trans; [apply H|]. apply Hall, Hy.
  - intros H. rewrite Forall_forall in H. apply eqb_leb. split.
    + apply Exists_exists in Hex. destruct Hex as (y & Hy & E).
      apply eqb_leb in E. eapply leb_trans; [apply H, Hy|apply E].
    + apply Hall. now apply list_elem_of_In.
Qed.

Lemma eq_maximum_iff (v x : number) (xs : list number) :
  is_maximum v xs -> In x xs ->
  strict_eq x v = true <-> Forall (fun y => PrimFloat.leb y x = true) xs.
Proof.
  intros [Hall Hex] Hin. unfold strict_eq. rewrite Forall_forall in Hall. split.
  - intros H. apply eqb_leb in H. apply Forall_forall. intros y Hy.
    eapply leb_trans; [apply Hall, Hy|apply H].
  - intros H. rewrite Forall_forall in H. apply eqb_leb. split.
    + apply Hall. now apply list_elem_of_In.
    + apply Exists_exists in Hex. destruct Hex as (y & Hy & E).
      apply eqb_leb in E. eapply leb_trans; [apply E|apply H, Hy].
Qed.

Lemma normalize_comparable (X : string) (item : option WebhookResponseItem)
    (b : bool) (m : DetailedMetrics) :
  normalize X item b = Some m -> comparable m.
Proof.
  destruct item as [item|]; [|discriminate]. intros H. unfold comparable.
  destruct (normalize_fields _ _ _ _ H)
    as (s & _ & _ & _ & _ & _ & -> & -> & -> & -> & _).
  assert (forall x, ordered (num_or x 0)) as G.
  { intros [v|]; cbn; [now apply or_else_ordered|reflexivity]. }
  repeat split; apply G.
Qed.

Lemma fetchScenarioData_comparable (X : string) (o : FetchOutcome)
    (m : DetailedMetrics) :
  fetchScenarioData X o = Some m -> comparable m.
Proof.
  unfold fetchScenarioData. destruct (try_remote o); apply normalize_comparable.
Qed.

Lemma resolved_comparable (scenarios : list (string * FetchOutcome)) :
  Forall comparable (resolved scenarios).
Proof.
  induction scenarios as [|[name o] rest IH]; [constructor|].
  rewrite resolved_cons. destruct (fetchScenarioData name o) as [m|] eqn:E.
  - constructor; [|exact IH]. eapply fetchScenarioData_comparable; eauto.
  - exact IH.
Qed.

(** Outside the comparison view no extrema are computed. *)
Lemma best_metrics_single (l : list DetailedMetrics) : bestMetrics SINGLE l = None.
Proof. unfold bestMetrics. now rewrite orb_true_r. Qed.

(** C6: in the comparison view a batch of fewer than two entries gets no
    extrema and no badge; a batch of two or more gets the least average
    distance, total drops and trip count and the greatest average stops
    per trip of the batch, all unrounded, and an entry carries a badge
    exactly when its value [===] the extremum, that is when no entry of
    the batch is below (above) it.  With distances 5.0, 3.2, 3.2 the least
    is 3.2 and the second and third entries carry the badge. *)
Theorem best_metrics_extrema (l : list DetailedMetrics) :
  Forall comparable l ->
  (length l < 2 ->
     bestMetrics COMPARE l = None /\
     forall s, lowestTrips None s = false /\ bestDistance None s = false /\
               highestConsignments None s = false /\ lowestDrops None s = false) /\
  (2 <= length l ->
     exists e, bestMetrics COMPARE l = Some e /\
       is_minimum (minDistance e) (distances l) /\
       is_minimum (minDrops e) (drops l) /\
       is_minimum (minTrips e) (trips l) /\
       is_maximum (maxConsignments e) (consignments l) /\
       forall s, In s l ->
         (bestDistance (Some e) s = true <->
            Forall (fun x => PrimFloat.leb (avgDistance s) x = true) (distances l)) /\
         (lowestDrops (Some e) s = true <->
            Forall (fun x => PrimFloat.leb (totalDrops s) x = true) (drops l)) /\
         (lowestTrips (Some e) s = true <->
            Forall (fun x => PrimFloat.leb (totalTrips s) x = true) (trips l)) /\
         (highestConsignments (Some e) s = true <->
            Forall (fun x => PrimFloat.leb x (avgConsignments s) = true)
              (consignments l))) /\
  (distances l = [5; 3.2; 3.2] ->
     exists e, bestMetrics COMPARE l = Some e /\
       minDistance e = 3.2 /\
       map (bestDistance (Some e)) l = [false; true; true]).
Proof.
  intros Hl. split; [|split].
  - intros Hlen. split; [|repeat split].
    unfold bestMetrics. destruct (Nat.ltb_spec (length l) 2); [reflexivity|lia].
  - intros Hlen.
    assert (l <> []) as Hne by (destruct l; [cbn in Hlen; lia|discriminate]).
    assert (forall f : DetailedMetrics -> number,
              (forall m, comparable m -> ordered (f m)) ->
              map f l <> [] /\ Forall ordered (map f l)) as Hf.
    { intros f Hcomp. split; [destruct l; [congruence|discriminate]|].
      apply Forall_forall. intros x Hx. apply list_elem_of_In, in_map_iff in Hx.
      destruct Hx as (m & <- & Hm). apply Hcomp.
      rewrite Forall_forall in Hl. now apply Hl, list_elem_of_In. }
    destruct (Hf avgDistance) as [N1 O1]; [unfold comparable; tauto|].
    destruct (Hf totalDrops) as [N2 O2]; [unfold comparable; tauto|].
    destruct (Hf totalTrips) as [N3 O3]; [unfold comparable; tauto|].
    destruct (Hf avgConsignments) as [N4 O4]; [unfold comparable; tauto|].
    pose proof (Math_min_is_minimum _ N1 O1) as M1.
    pose proof (Math_min_is_minimum _ N2 O2) as M2.
    pose proof (Math_min_is_minimum _ N3 O3) as M3.
    pose proof (Math_max_is_maximum _ N4 O4) as M4.
    eexists. split.
    { unfold bestMetrics. destruct (Nat.ltb_spec (length l) 2); [lia|]. reflexivity. }
    cbn [minDistance minDrops minTrips maxConsignments].
    unfold distances, drops, trips, consignments.
    repeat (split; [assumption|]).
    intros s Hs. unfold bestDistance, lowestDrops, lowestTrips, highestConsignments.
    cbn [badge minDistance minDrops minTrips maxConsignments].
    split; [|split; [|split]].
    + apply eq_minimum_iff; [assumption|now apply in_map].
    + apply eq_minimum_iff; [assumption|now apply in_map].
    + apply eq_minimum_iff; [assumption|now apply in_map].
    + apply eq_maximum_iff; [assumption|now apply in_map].
  - intros Hd. unfold distances in Hd.
    destruct l as [|a [|b [|c [|? ?]]]]; try discriminate.
    injection Hd as Ha Hb Hc.
    eexists. split; [reflexivity|].
    cbn [minDistance map]. unfold bestDistance.
    cbn [badge minDistance map]. rewrite Ha, Hb, Hc.
    split; vm_compute; reflexivity.
Qed.

Lemma best_metrics_extrema_witness :
  exists e, bestMetrics COMPARE three_scenarios = Some e /\
    minDistance e = 3.2 /\
    map (bestDistance (Some e)) three_scenarios = [false; true; true].
Proof.
  apply (best_metrics_extrema three_scenarios).
  - repeat constructor.
  - reflexivity.
Defined.

End ExtremaFacts.

(** ** CSV parsing *)

Section ParserFacts.
Import JsString JsNumber OutputDashboard.

Lemma str_or_empty (o : option string) : str_or o "" = default "" o.
Proof. destruct o as [[|c s]|]; reflexivity. Qed.

Lemma fill_row_not_header (hs : list string) (i : nat) (values : list string)
    (row : SheetRow) (h : string) :
  h ∉ hs -> fill_row hs i values row !! h = row !! h.
Proof.
  revert i row. induction hs as [|h' hs IH]; intros i row Hh; [reflexivity|].
  cbn [fill_row]. rewrite IH by set_solver.
  destruct (String.eqb h' "__proto__"); [reflexivity|].
  apply lookup_insert_ne. set_solver.
Qed.

(** The value a field ends with is the one written for its last
    occurrence in the header. *)
Lemma fill_row_header (hs : list string) (i : nat) (values : list string)
    (row : SheetRow) (j : nat) (h : string) :
  hs !! j = Some h -> h <> "__proto__" ->
  (forall j', j < j' -> hs !! j' <> Some h) ->
  fill_row hs i values row !! h = Some (default "" (values !! (i + j))).
Proof.
  revert i row j. induction hs as [|h' hs IH]; intros i row j Hj Hp Hlast;
    [discriminate|].
  cbn [fill_row]. destruct j as [|j].
  - injection Hj as ->. rewrite fill_row_not_header.
    + destruct (String.eqb_spec h "__proto__") as [E|_]; [contradiction|].
      rewrite lookup_insert_eq, str_or_empty, Nat.add_0_r. reflexivity.
    + intros Hin. apply list_elem_of_lookup in Hin. destruct Hin as [k Hk].
      apply (Hlast (S k)); [lia|exact Hk].
  - rewrite (IH (S i) _ j); [do 3 f_equal; lia|exact Hj|exact Hp|].
    intros j' Hlt. apply (Hlast (S j')). lia.
Qed.

Lemma fill_row_dom (hs : list string) (i : nat) (values : list string)
    (row : SheetRow) (h : string) :
  is_Some (fill_row hs i values row !! h) <->
  (h ∈ hs /\ h <> "__proto__") \/ is_Some (row !! h).
Proof.
  revert i row. induction hs as [|h' hs IH]; intros i row; cbn [fill_row].
  - split; [now right|]. intros [[H _]|H]; [|exact H]. now apply elem_of_nil in H.
  - rewrite IH, elem_of_cons.
    destruct (String.eqb_spec h' "__proto__") as [->|Hn].
    + split; [tauto|]. intros [[[->|H] Hp]|H]; tauto.
    + rewrite lookup_insert_is_Some.
      destruct (decide (h' = h)) as [->|Hne]; intuition congruence.
Qed.

Lemma parseCSV_shape (text hdr : string) (rest : list string) :
  surviving_lines text = hdr :: rest ->
  parseCSV text =
    {| headers := parseLine hdr; rows := map (make_row (parseLine hdr)) rest |}.
Proof. unfold parseCSV. now intros ->. Qed.

End ParserFacts.

(** ** Objects, key order and sorting *)

Section ObjectFacts.
Import JsObject.
Context {V : Type}.

Lemma get_None (o : obj V) (k : string) : get o k = None <-> ~ In k (map fst o).
Proof.
  induction o as [|[k' v] o IH]; cbn; [tauto|].
  destruct (String.eqb_spec k' k) as [->|Hne].
  - split; [discriminate|]. intros H. exfalso. apply H. now left.
  - rewrite IH. split; [intros H [E|E]; [congruence|tauto]|tauto].
Qed.

Lemma get_Some_In (o : obj V) (k : string) (v : V) :
  get o k = Some v -> In k (map fst o).
Proof.
  intros H. destruct (in_dec String.string_dec k (map fst o)) as [Hin|Hn]; [exact Hin|].
  apply get_None in Hn. congruence.
Qed.

Lemma get_set_eq (o : obj V) (k : string) (v : V) : get (set o k v) k = Some v.
Proof.
  induction o as [|[k' v'] o IH]; cbn.
  - now rewrite String.eqb_refl.
  - destruct (String.eqb_spec k' k) as [->|Hne]; cbn.
    + now rewrite String.eqb_refl.
    + destruct (String.eqb_spec k' k); [congruence|exact IH].
Qed.

Lemma get_set_ne (o : obj V) (k k' : string) (v : V) :
  k <> k' -> get (set o k v) k' = get o k'.
Proof.
  intros Hne. induction o as [|[k0 v0] o IH]; cbn.
  - destruct (String.eqb_spec k k'); [congruence|reflexivity].
  - destruct (String.eqb_spec k0 k) as [->|H0]; cbn.
    + destruct (String.eqb_spec k k'); [congruence|reflexivity].
    + now rewrite IH.
Qed.

Lemma keys_set_old (o : obj V) (k : string) (v : V) :
  In k (map fst o) -> map fst (set o k v) = map fst o.
Proof.
  induction o as [|[k' v'] o IH]; cbn; [tauto|].
  destruct (String.eqb_spec k' k) as [->|Hne]; cbn; [reflexivity|].
  intros [E|Hin]; [congruence|]. now rewrite IH.
Qed.

Lemma keys_set_new (o : obj V) (k : string) (v : V) :
  ~ In k (map fst o) -> map fst (set o k v) = map fst o ++ [k].
Proof.
  induction o as [|[k' v'] o IH]; cbn; [reflexivity|].
  destruct (String.eqb_spec k' k) as [->|Hne]; cbn; [tauto|].
  intros Hn. rewrite IH; tauto.
Qed.

End ObjectFacts.

Section OrderFacts.
Import JsObject JsNumber.




Lemma insert_sorted_In {A} (cmp : A -> A -> number) (x y : A) (l : list A) :
  In y (JsArray.insert_sorted cmp x l) <-> y = x \/ In y l.
Proof.
  induction l as [|z l IH]; cbn; [intuition|].
  destruct (PrimFloat.ltb 0 (cmp x z)); cbn; [rewrite IH|]; intuition.
Qed.

Lemma sort_In {A} (cmp : A -> A -> number) (y : A) (l : list A) :
  In y (JsArray.sort cmp l) <-> In y l.
Proof.
  unfold JsArray.sort. induction l as [|x l IH]; cbn; [tauto|].
  rewrite insert_sorted_In, IH. intuition.
Qed.

End OrderFacts.

(** ** Aggregation per scenario and vehicle *)

Section AggregatorFacts.
Import JsString JsNumber JsObject OutputDashboard.
Local Open Scope float_scope.





Lemma existsb_eqb_In (k : string) (l : list string) :
  existsb (String.eqb k) l = true <-> In k l.
Proof.
  rewrite existsb_exists. split.
  - intros (x & Hx & E). apply String.eqb_eq in E. now subst.
  - intros H. exists k. split; [exact H|apply String.eqb_refl].
Qed.














End AggregatorFacts.

(** * Behaviour around the reductions *)

(** ** The search form *)

Section TrimFacts.
Import JsString.

Lemma trimEnd_cons (c : ascii) (s : string) :
  trimEnd (String c s) =
    match trimEnd s with
    | EmptyString => if is_space c then EmptyString else String c EmptyString
    | t => String c t
    end.
Proof. reflexivity. Qed.

Lemma trimEnd_idem (s : string) : trimEnd (trimEnd s) = trimEnd s.
Proof.
  induction s as [|c s IH]; [reflexivity|].
  rewrite trimEnd_cons. destruct (trimEnd s) as [|d t] eqn:E.
  - destruct (is_space c) eqn:Ec; [reflexivity|].
    rewrite trimEnd_cons. cbn [trimEnd]. now rewrite Ec.
  - rewrite trimEnd_cons, IH. reflexivity.
Qed.

(** What [trimStart] leaves does not begin with white space. *)
Lemma trimStart_head (s : string) :
  match trimStart s with
  | EmptyString => True
  | String c _ => is_space c = false
  end.
Proof.
  induction s as [|c s IH]; cbn [trimStart]; [exact I|].
  destruct (is_space c) eqn:E; [exact IH|exact E].
Qed.

Lemma trimStart_fixed (s : string) :
  match s with
  | EmptyString => True
  | String c _ => is_space c = false
  end -> trimStart s = s.
Proof. destruct s as [|c s]; cbn [trimStart]; [reflexivity|]. now intros ->. Qed.

Lemma trimEnd_head (s : string) :
  match s with
  | EmptyString => True
  | String c _ => is_space c = false
  end ->
  match trimEnd s with
  | EmptyString => True
  | String c _ => is_space c = false
  end.
Proof.
  destruct s as [|c s]; cbn [trimEnd]; [auto|].
  intros Hc. destruct (trimEnd s); [now rewrite Hc|exact Hc].
Qed.

Lemma trim_idem (s : string) : trim (trim s) = trim s.
Proof.
  unfold trim.
  rewrite (trimStart_fixed (trimEnd (trimStart s))).
  - apply trimEnd_idem.
  - apply trimEnd_head, trimStart_head.
Qed.

End TrimFacts.

Section SearchFormFacts.
Import JsString JsNumber AnalysisPage SearchForm.

Lemma includes_tag_In (t : string) (tags : list string) :
  includes_tag t tags = true <-> In t tags.
Proof. apply existsb_eqb_In. Qed.

Lemma includes_tag_not_In (t : string) (tags : list string) :
  includes_tag t tags = false <-> ~ In t tags.
Proof.
  rewrite <- includes_tag_In. destruct (includes_tag t tags); split; congruence.
Qed.

Lemma truthy_ne (s : string) : JsString.truthy s = true <-> s <> "".
Proof. destruct s; cbn; split; congruence. Qed.

Lemma filter_ne_fresh (t : string) (tags : list string) :
  ~ In t tags -> List.filter (fun x => negb (String.eqb x t)) tags = tags.
Proof.
  induction tags as [|x tags IH]; [reflexivity|].
  intros H. cbn [List.filter].
  destruct (String.eqb_spec x t) as [->|Hne]; cbn [negb].
  - exfalso. apply H. now left.
  - rewrite IH; [reflexivity|]. intros Hin. apply H. now right.
Qed.

Lemma tags_wellformed_add (t : string) (tags : list string) :
  tags_wellformed tags -> t <> "" -> trim t = t -> ~ In t tags ->
  tags_wellformed (tags ++ [t]).
Proof.
  intros [Hnd Hall] Hne Htrim Hnew. split.
  - apply NoDup_app. repeat split.
    + exact Hnd.
    + intros x Hx Hx'. apply list_elem_of_singleton in Hx'. subst x.
      apply Hnew. now apply list_elem_of_In.
    + apply NoDup_singleton.
  - apply Forall_app. split; [exact Hall|]. now repeat constructor.
Qed.

Lemma tags_wellformed_filter (f : string -> bool) (tags : list string) :
  tags_wellformed tags -> tags_wellformed (List.filter f tags).
Proof.
  intros [Hnd Hall]. split.
  - apply NoDup_ListNoDup. apply List.NoDup_filter. now apply NoDup_ListNoDup.
  - rewrite List.Forall_forall in *. intros x Hx. apply filter_In in Hx.
    apply Hall. tauto.
Qed.

Lemma handleAddTag_cases (st : PageState) :
  (handleAddTag st = st) \/
  (trim (searchInput st) <> "" /\ ~ In (trim (searchInput st)) (searchTags st) /\
   handleAddTag st
     = setSearchInput "" (setSearchTags (searchTags st ++ [trim (searchInput st)]) st)).
Proof.
  unfold handleAddTag.
  destruct (JsString.truthy (trim (searchInput st))) eqn:Et; cbn [andb]; [|now left].
  destruct (includes_tag _ _) eqn:Ei; cbn [negb]; [now left|].
  right. split; [now apply truthy_ne|]. split; [now apply includes_tag_not_In|reflexivity].
Qed.

Lemma handleAddTag_wellformed (st : PageState) :
  tags_wellformed (searchTags st) -> tags_wellformed (searchTags (handleAddTag st)).
Proof.
  intros H. destruct (handleAddTag_cases st) as [->|(Hne & Hnew & ->)]; [exact H|].
  cbn [searchTags setSearchInput setSearchTags].
  apply tags_wellformed_add; auto. apply trim_idem.
Qed.

Lemma handleAddTag_fields (st : PageState) :
  mode (handleAddTag st) = mode st /\
  isLoading (handleAddTag st) = isLoading st /\
  metricsData (handleAddTag st) = metricsData st /\
  error (handleAddTag st) = error st /\
  hasSearched (handleAddTag st) = hasSearched st.
Proof.
  destruct (handleAddTag_cases st) as [->|(_ & _ & ->)]; repeat split.
Qed.

End SearchFormFacts.

Section SearchFormTheorems.
Import JsString JsNumber AnalysisPage SearchForm.

Lemma start_fields (names : list string) (p : Page) :
  mode (state (executeSearch_start names p)) = mode (state p) /\
  searchTags (state (executeSearch_start names p)) = searchTags (state p) /\
  searchInput (state (executeSearch_start names p)) = searchInput (state p).
Proof. destruct names; repeat split. Qed.

Lemma start_pending (names : list string) (p : Page) :
  names <> [] ->
  pending (executeSearch_start names p)
    = pending p ++ [ {| search_mode := mode (state p); search_names := names |} ] /\
  isLoading (state (executeSearch_start names p)) = true /\
  hasSearched (state (executeSearch_start names p)) = true.
Proof. destruct names; [congruence|]. intros _. repeat split. Qed.

Lemma settle_tags (s : Search) (outcomes : list FetchOutcome) (st : PageState) :
  searchTags (executeSearch_settle s outcomes st) = searchTags st /\
  mode (executeSearch_settle s outcomes st) = mode st /\
  isLoading (executeSearch_settle s outcomes st) = false.
Proof.
  unfold executeSearch_settle. cbv zeta.
  destruct (validResults _); [repeat split|].
  destruct (search_mode s); repeat split.
Qed.

(** The tags of the page one event later. *)
Lemma react_tags (initialScenario : option string) (p : Page) (ev : Event) :
  let tags' := searchTags (state (react initialScenario p ev)) in
  tags' = searchTags (state p) \/
  tags' = searchTags (handleAddTag (state p)) \/
  exists f, tags' = List.filter f (searchTags (state p)).
Proof.
  cbv zeta. destruct ev as [v|key| | |tag|m| |i outcomes]; cbn [react].
  - now left.
  - unfold handleKeyDown. destruct (String.eqb key "Enter"); [|now left].
    destruct (mode (state p)) eqn:Em.
    + unfold handleFetchData. rewrite Em.
      destruct (negb _); [now left|].
      left. apply start_fields.
    + right. now left.
  - destruct (mode (state p)); [now left|right; now left].
  - destruct (fetch_disabled (state p)); [now left|].
    unfold handleFetchData. destruct (mode (state p)).
    + destruct (negb _); [now left|]. left. apply start_fields.
    + destruct (_ && _) eqn:E.
      * right. left.
        destruct (start_fields
                    (searchTags (state p) ++ [trim (searchInput (state p))])
                    (on_state handleAddTag p)) as (_ & -> & _).
        reflexivity.
      * left. apply start_fields.
  - destruct (mode (state p)); [now left|].
    destruct (includes_tag tag _); [|now left].
    right. right. eexists. reflexivity.
  - now left.
  - unfold autoFetch. destruct initialScenario as [s|]; [|now left].
    destruct (_ && _); [|now left].
    left. destruct (start_fields [s] (on_state (setSearchInput s) p)) as (_ & -> & _).
    reflexivity.
  - destruct (pending p !! i) as [s|]; [|now left].
    destruct (_ =? _)%nat; [|now left].
    left. apply settle_tags.
Qed.

Lemma run_snoc (initialScenario : option string) (events : list Event) (ev : Event) :
  run initialScenario (events ++ [ev])
    = react initialScenario (run initialScenario events) ev.
Proof. unfold run. now rewrite fold_left_app. Qed.

(** The tag list never holds a name twice, a blank name or a name with
    white space around it, whatever is typed, clicked or settled. *)
Theorem tags_stay_wellformed (initialScenario : option string)
    (events : list Event) :
  tags_wellformed (searchTags (state (run initialScenario events))).
Proof.
  induction events as [|ev events IH] using rev_ind.
  - split; [apply NoDup_nil_2|constructor].
  - rewrite run_snoc.
    destruct (react_tags initialScenario (run initialScenario events) ev)
      as [->|[->|[f ->]]].
    + exact IH.
    + now apply handleAddTag_wellformed.
    + now apply tags_wellformed_filter.
Qed.

Lemma noResults_start (names : list string) (p : Page) :
  noResultsShown (state p) = false ->
  noResultsShown (state (executeSearch_start names p)) = false.
Proof. destruct names; [auto|]. intros _. reflexivity. Qed.

Lemma noResults_settle (s : Search) (outcomes : list FetchOutcome) (st : PageState) :
  noResultsShown (executeSearch_settle s outcomes st) = false.
Proof.
  unfold executeSearch_settle. cbv zeta.
  destruct (validResults _) as [|m l].
  - unfold noResultsShown, error_shown. cbn. now rewrite !andb_false_r.
  - unfold noResultsShown.
    destruct (search_mode s); cbn; now rewrite !andb_false_r.
Qed.

Lemma noResults_same (st st' : PageState) :
  hasSearched st' = hasSearched st -> isLoading st' = isLoading st ->
  metricsData st' = metricsData st -> error st' = error st ->
  noResultsShown st' = noResultsShown st.
Proof. unfold noResultsShown, error_shown. now intros -> -> -> ->. Qed.

Lemma noResults_addTag (st : PageState) :
  noResultsShown (handleAddTag st) = noResultsShown st.
Proof.
  destruct (handleAddTag_fields st) as (_ & H1 & H2 & H3 & H4).
  now apply noResults_same.
Qed.

Lemma noResults_fetch (p : Page) :
  noResultsShown (state p) = false ->
  noResultsShown (state (handleFetchData p)) = false.
Proof.
  intros H. unfold handleFetchData. destruct (mode (state p)).
  - destruct (negb _); [exact H|]. now apply noResults_start.
  - destruct (_ && _); apply noResults_start; [|exact H].
    cbn [on_state state]. now rewrite noResults_addTag.
Qed.

Lemma noResults_react (initialScenario : option string) (p : Page) (ev : Event) :
  noResultsShown (state p) = false ->
  noResultsShown (state (react initialScenario p ev)) = false.
Proof.
  intros H. destruct ev as [v|key| | |tag|m| |i outcomes]; cbn [react].
  - exact H.
  - unfold handleKeyDown. destruct (String.eqb key "Enter"); [|exact H].
    destruct (mode (state p)); [now apply noResults_fetch|].
    cbn [on_state state]. now rewrite noResults_addTag.
  - destruct (mode (state p)); [exact H|].
    cbn [on_state state]. now rewrite noResults_addTag.
  - destruct (fetch_disabled (state p)); [exact H|now apply noResults_fetch].
  - destruct (mode (state p)); [exact H|].
    destruct (includes_tag tag _); exact H.
  - reflexivity.
  - unfold autoFetch. destruct initialScenario as [s|]; [|exact H].
    destruct (_ && _); [|exact H]. now apply noResults_start.
  - destruct (pending p !! i) as [s|]; [|exact H].
    destruct (_ =? _)%nat; [|exact H]. apply noResults_settle.
Qed.

(** The panel "No Scenarios Found" is never on display: a search that has
    settled has left results or an error message, and what clears the
    results also clears [hasSearched] or sets [isLoading]. *)
Theorem no_results_panel_unreachable (initialScenario : option string)
    (events : list Event) :
  noResultsShown (state (run initialScenario events)) = false.
Proof.
  induction events as [|ev events IH] using rev_ind.
  - unfold noResultsShown. reflexivity.
  - rewrite run_snoc. now apply noResults_react.
Qed.

Lemma loading_react (initialScenario : option string) (p : Page) (ev : Event) :
  (isLoading (state p) = true -> pending p <> []) ->
  isLoading (state (react initialScenario p ev)) = true ->
  pending (react initialScenario p ev) <> [].
Proof.
  assert (forall names q,
            (isLoading (state q) = true -> pending q <> []) ->
            isLoading (state (executeSearch_start names q)) = true ->
            pending (executeSearch_start names q) <> []) as Hstart.
  { intros [|n names] q Hq; [exact Hq|]. intros _. cbn.
    destruct (pending q); discriminate. }
  assert (forall q,
            (isLoading (state q) = true -> pending q <> []) ->
            isLoading (state (on_state handleAddTag q)) = true ->
            pending (on_state handleAddTag q) <> []) as Hadd.
  { intros q Hq. cbn [on_state state pending].
    destruct (handleAddTag_fields (state q)) as (_ & -> & _). exact Hq. }
  assert (forall q,
            (isLoading (state q) = true -> pending q <> []) ->
            isLoading (state (handleFetchData q)) = true ->
            pending (handleFetchData q) <> []) as Hfetch.
  { intros q Hq. unfold handleFetchData. destruct (mode (state q)).
    - destruct (negb _); [exact Hq|]. now apply Hstart.
    - destruct (_ && _); apply Hstart; [now apply Hadd|exact Hq]. }
  intros H. destruct ev as [v|key| | |tag|m| |i outcomes]; cbn [react].
  - exact H.
  - unfold handleKeyDown. destruct (String.eqb key "Enter"); [|exact H].
    destruct (mode (state p)); [now apply Hfetch|now apply Hadd].
  - destruct (mode (state p)); [exact H|now apply Hadd].
  - destruct (fetch_disabled (state p)); [exact H|now apply Hfetch].
  - destruct (mode (state p)); [exact H|].
    destruct (includes_tag tag _); exact H.
  - exact H.
  - unfold autoFetch. destruct initialScenario as [s|]; [|exact H].
    destruct (_ && _); [|exact H]. apply Hstart. exact H.
  - destruct (pending p !! i) as [s|]; [|exact H].
    destruct (_ =? _)%nat; [|exact H].
    cbn [state]. destruct (settle_tags s outcomes (state p)) as (_ & _ & ->).
    discriminate.
Qed.

(** The loading indicator is on only while a search is in flight: when
    the last search settles, [isLoading] is false. *)
Theorem loading_only_while_pending (initialScenario : option string)
    (events : list Event) :
  isLoading (state (run initialScenario events)) = true ->
  pending (run initialScenario events) <> [].
Proof.
  induction events as [|ev events IH] using rev_ind.
  - discriminate.
  - rewrite run_snoc. now apply loading_react.
Qed.

Lemma loading_only_while_pending_witness :
  pending (run None [Typed "IDBtest3"; KeyDown "Enter"]) <> [].
Proof.
  apply (loading_only_while_pending None [Typed "IDBtest3"; KeyDown "Enter"]).
  reflexivity.
Defined.

(** A tag that was added and is removed again leaves the tags as they
    were, and a second [handleAddTag] adds nothing. *)
Theorem add_then_remove_tag (st : PageState) :
  let t := trim (searchInput st) in
  t <> "" -> t ∉ searchTags st ->
  searchTags (handleAddTag st) = searchTags st ++ [t] /\
  searchInput (handleAddTag st) = "" /\
  handleAddTag (handleAddTag st) = handleAddTag st /\
  searchTags (removeTag t (handleAddTag st)) = searchTags st.
Proof.
  intros t Hne Hnew. subst t.
  rewrite list_elem_of_In in Hnew.
  assert (handleAddTag st
          = setSearchInput ""
              (setSearchTags (searchTags st ++ [trim (searchInput st)]) st)) as E.
  { unfold handleAddTag.
    apply truthy_ne in Hne. apply includes_tag_not_In in Hnew.
    now rewrite Hne, Hnew. }
  rewrite E. cbn [searchTags searchInput setSearchInput setSearchTags removeTag].
  split; [reflexivity|]. split; [reflexivity|]. split.
  - unfold handleAddTag. cbn [searchInput setSearchInput]. reflexivity.
  - rewrite List.filter_app. cbn [List.filter]. rewrite String.eqb_refl.
    cbn [negb]. rewrite app_nil_r. now apply filter_ne_fresh.
Qed.

Lemma add_then_remove_tag_witness :
  let st := setSearchTags ["S1"] (setSearchInput " S2 " (initialState None)) in
  searchTags (handleAddTag st) = ["S1"; "S2"] /\
  searchInput (handleAddTag st) = "" /\
  handleAddTag (handleAddTag st) = handleAddTag st /\
  searchTags (removeTag "S2" (handleAddTag st)) = ["S1"].
Proof.
  apply (add_then_remove_tag
           (setSearchTags ["S1"] (setSearchInput " S2 " (initialState None)))).
  - discriminate.
  - apply not_elem_of_cons. split; [discriminate|apply not_elem_of_nil].
Defined.

(** In compare mode a search covers exactly the tags the form shows
    afterwards, the input in hand having joined them; without any tag the
    click does nothing. *)
Theorem compare_search_covers_tags (p : Page) :
  mode (state p) = COMPARE ->
  let p' := handleFetchData p in
  let tags' := searchTags (state p') in
  tags' = searchTags (handleAddTag (state p)) /\
  (tags' = [] -> p' = p) /\
  (tags' <> [] ->
     pending p' = pending p
       ++ [ {| search_mode := COMPARE; search_names := tags' |} ] /\
     isLoading (state p') = true /\ hasSearched (state p') = true).
Proof.
  intros Hm. cbv zeta. unfold handleFetchData. rewrite Hm.
  destruct (handleAddTag_cases (state p)) as [E|(Hne & Hnew & E)].
  - (* nothing joins the tags *)
    assert (JsString.truthy (trim (searchInput (state p)))
            && negb (includes_tag (trim (searchInput (state p)))
                       (searchTags (state p))) = false) as Hc.
    { destruct (_ && _) eqn:Hc; [|reflexivity].
      unfold handleAddTag in E. rewrite Hc in E.
      apply (f_equal (fun s => length (searchTags s))) in E.
      cbn [searchTags setSearchInput setSearchTags] in E.
      rewrite length_app in E. cbn [length] in E. lia. }
    rewrite Hc, E.
    destruct (start_fields (searchTags (state p)) p) as (_ & -> & _).
    split; [reflexivity|]. split.
    + intros ->. reflexivity.
    + intros Hne. rewrite <- Hm. now apply start_pending.
  - apply truthy_ne in Hne as Ht. apply includes_tag_not_In in Hnew as Hi.
    rewrite Ht, Hi. cbn [andb negb].
    set (names := searchTags (state p) ++ [trim (searchInput (state p))]).
    assert (searchTags (handleAddTag (state p)) = names) as Htags by now rewrite E.
    assert (names <> []) as Hnames.
    { subst names. destruct (searchTags (state p)); discriminate. }
    destruct (start_fields names (on_state handleAddTag p)) as (_ & Hsame & _).
    destruct (start_pending names (on_state handleAddTag p) Hnames)
      as (Hp & Hl & Hs).
    cbn [on_state state pending] in Hsame, Hp.
    destruct (handleAddTag_fields (state p)) as (Hmode & _).
    rewrite Hmode, Hm in Hp. rewrite Hsame, Htags.
    split; [reflexivity|]. split; [congruence|]. intros _. auto.
Qed.

Lemma compare_search_covers_tags_witness :
  let p := {| state := setSearchInput " S2 "
                         (setSearchTags ["S1"] (setMode COMPARE (initialState None)));
              pending := [] |} in
  let p' := handleFetchData p in
  let tags' := searchTags (state p') in
  tags' = searchTags (handleAddTag (state p)) /\
  (tags' = [] -> p' = p) /\
  (tags' <> [] ->
     pending p' = pending p
       ++ [ {| search_mode := COMPARE; search_names := tags' |} ] /\
     isLoading (state p') = true /\ hasSearched (state p') = true).
Proof.
  apply (compare_search_covers_tags
           {| state := setSearchInput " S2 "
                         (setSearchTags ["S1"] (setMode COMPARE (initialState None)));
              pending := [] |}).
  reflexivity.
Defined.

Lemma starts_search_start (names : list string) (p q : Page) :
  pending q = pending p ->
  negb (length (pending (executeSearch_start names q)) =? length (pending p))%nat
  = match names with [] => false | _ => true end.
Proof.
  intros E. destruct names as [|n names]; cbn [executeSearch_start pending].
  - rewrite E, Nat.eqb_refl. reflexivity.
  - rewrite E, length_app. cbn [length].
    destruct (Nat.eqb_spec (length (pending p) + 1) (length (pending p))); [lia|].
    reflexivity.
Qed.

(** A click on the search button, when it is enabled, starts a search
    unless the input holds white space only (and, in compare mode, there
    is no tag): then the click does nothing. *)
Theorem enabled_click_without_search (p : Page) :
  fetch_disabled (state p) = false ->
  (starts_search p = false <->
   searchInput (state p) <> "" /\ trim (searchInput (state p)) = "" /\
   (mode (state p) = COMPARE -> searchTags (state p) = [])).
Proof.
  unfold fetch_disabled, starts_search, handleFetchData.
  intros Hen. apply orb_false_iff in Hen. destruct Hen as [Hen Hs].
  apply orb_false_iff in Hen. destruct Hen as [_ Hc].
  destruct (mode (state p)) eqn:Em.
  - (* single *)
    cbn [andb] in Hs. apply negb_false_iff in Hs. apply truthy_ne in Hs.
    destruct (JsString.truthy (trim (searchInput (state p)))) eqn:Et; cbn [negb].
    + rewrite (starts_search_start _ p p eq_refl). apply truthy_ne in Et.
      split; [discriminate|]. intros (_ & H & _). congruence.
    + rewrite Nat.eqb_refl. cbn [negb].
      split; [|reflexivity]. intros _. split; [exact Hs|]. split; [|discriminate].
      destruct (trim (searchInput (state p))); [reflexivity|discriminate].
  - (* compare *)
    cbn [andb] in Hc.
    destruct (JsString.truthy (trim (searchInput (state p)))) eqn:Et; cbn [andb].
    + apply truthy_ne in Et as Hne.
      destruct (includes_tag _ _) eqn:Ei; cbn [negb].
      * rewrite (starts_search_start _ p p eq_refl).
        apply includes_tag_In in Ei.
        destruct (searchTags (state p)); [destruct Ei|].
        split; [discriminate|]. intros (_ & H & _). congruence.
      * rewrite (starts_search_start _ p (on_state handleAddTag p) eq_refl).
        destruct (searchTags (state p) ++ [trim (searchInput (state p))]) eqn:El.
        { destruct (searchTags (state p)); discriminate El. }
        split; [discriminate|]. intros (_ & H & _). congruence.
    + rewrite (starts_search_start _ p p eq_refl).
      assert (trim (searchInput (state p)) = "") as Htrim.
      { destruct (trim (searchInput (state p))); [reflexivity|discriminate]. }
      destruct (searchTags (state p)) as [|t tags] eqn:El.
      * cbn [length Nat.eqb andb] in Hc. apply negb_false_iff in Hc.
        apply truthy_ne in Hc. split; [|reflexivity]. intros _. auto.
      * split; [discriminate|]. intros (_ & _ & H). specialize (H eq_refl).
        discriminate H.
Qed.

Lemma enabled_click_without_search_witness :
  let p := {| state := setSearchInput "  " (initialState None); pending := [] |} in
  starts_search p = false <->
  searchInput (state p) <> "" /\ trim (searchInput (state p)) = "" /\
  (mode (state p) = COMPARE -> searchTags (state p) = []).
Proof.
  apply (enabled_click_without_search
           {| state := setSearchInput "  " (initialState None); pending := [] |}).
  reflexivity.
Defined.

Lemma combine_fst_snd {A B} (l : list (A * B)) :
  combine (map fst l) (map snd l) = l.
Proof. induction l as [|[a b] l IH]; cbn; [reflexivity|now rewrite IH]. Qed.

(** A search that nothing interrupts: its two halves make up
    [executeSearch]. *)
Lemma executeSearch_halves (st : PageState) (scenarios : list (string * FetchOutcome)) :
  scenarios <> [] ->
  executeSearch st scenarios =
    executeSearch_settle
      {| search_mode := mode st; search_names := map fst scenarios |}
      (map snd scenarios)
      (state (executeSearch_start (map fst scenarios) {| state := st; pending := [] |})).
Proof.
  intros Hne. destruct scenarios as [|s rest]; [congruence|].
  unfold executeSearch, executeSearch_settle.
  cbn [search_names search_mode]. rewrite combine_fst_snd.
  cbn [map executeSearch_start state].
  destruct st as [md input tags loading metrics err searched].
  destruct (validResults _) as [|m l]; [reflexivity|].
  destruct md; reflexivity.
Qed.

(** The effect that searches for [initialScenario] has nothing to do on
    a page: no scenario was given, or a search has been started. *)
Lemma autoFetch_idle (initialScenario : option string) (p : Page) :
  autoFetch initialScenario p = p <->
  match initialScenario with
  | Some s => JsString.truthy s && negb (hasSearched (state p)) = false
  | None => True
  end.
Proof.
  unfold autoFetch. destruct initialScenario as [s|]; [|tauto].
  destruct (JsString.truthy s && negb (hasSearched (state p))); [|tauto].
  split; [|discriminate]. intros H. apply (f_equal pending) in H.
  cbn [executeSearch_start pending on_state] in H.
  apply (f_equal (@length Search)) in H. rewrite length_app in H.
  cbn [length] in H. lia.
Qed.

(** In single mode, on a page with no search in flight where the effect
    that searches for [initialScenario] has nothing to do (no scenario
    was given, or its search has been started), a name typed and Enter
    pressed search for the trimmed name alone; when its call has
    settled, the page is in the state [executeSearch] gives for that one
    name, and nothing is in flight.  The effect has nothing to do after
    any of these steps. *)
Theorem single_search_end_to_end (initialScenario : option string) (p : Page)
    (typed : string) (o : FetchOutcome) :
  mode (state p) = SINGLE -> pending p = [] ->
  autoFetch initialScenario p = p ->
  trim typed <> "" ->
  let p0 := react initialScenario p (Typed typed) in
  let p1 := react initialScenario p0 (KeyDown "Enter") in
  let p2 := react initialScenario p1 (Settled 0 [o]) in
  pending p1 = [ {| search_mode := SINGLE; search_names := [trim typed] |} ] /\
  state p2 = executeSearch (setSearchInput typed (state p)) [(trim typed, o)] /\
  pending p2 = [] /\
  autoFetch initialScenario p0 = p0 /\
  autoFetch initialScenario p1 = p1 /\
  autoFetch initialScenario p2 = p2.
Proof.
  intros Hmode Hpend Hidle Hne. apply truthy_ne in Hne. cbv zeta.
  set (p0 := react initialScenario p (Typed typed)).
  assert (mode (state p0) = SINGLE /\ searchInput (state p0) = typed
          /\ pending p0 = [] /\ hasSearched (state p0) = hasSearched (state p)
          /\ state p0 = setSearchInput typed (state p))
    as (M0 & I0 & P0 & S0 & E0).
  { subst p0. cbn [react on_state state pending setSearchInput mode searchInput
                   hasSearched]. auto. }
  clearbody p0.
  assert (react initialScenario p0 (KeyDown "Enter")
          = executeSearch_start [trim typed] p0) as Hkey.
  { cbn [react]. unfold handleKeyDown, handleFetchData. cbn [String.eqb Ascii.eqb].
    rewrite M0, I0. now rewrite Hne. }
  rewrite Hkey.
  set (p1 := executeSearch_start [trim typed] p0).
  assert (pending p1 = [ {| search_mode := SINGLE; search_names := [trim typed] |} ])
    as P1.
  { subst p1. cbn [executeSearch_start pending]. now rewrite P0, M0. }
  assert (hasSearched (state p1) = true) as S1 by reflexivity.
  set (p2 := react initialScenario p1 (Settled 0 [o])).
  assert (state p2 = executeSearch_settle
                       {| search_mode := SINGLE; search_names := [trim typed] |}
                       [o] (state p1) /\ pending p2 = []) as [E2 P2].
  { subst p2. cbn [react]. rewrite P1.
    cbn [lookup list_lookup search_names length Nat.eqb state pending].
    split; reflexivity. }
  split; [exact P1|]. split; [|split; [exact P2|]].
  - rewrite E2. rewrite (executeSearch_halves _ [(trim typed, o)]) by discriminate.
    cbn [map fst snd]. cbn [setSearchInput mode]. rewrite Hmode.
    subst p1. cbn [executeSearch_start state]. now rewrite E0.
  - apply autoFetch_idle in Hidle.
    assert (hasSearched (state p2) = true) as S2.
    { rewrite E2. unfold executeSearch_settle.
      destruct (validResults _); cbn [search_mode]; rewrite <- S1; reflexivity. }
    repeat split; apply autoFetch_idle; destruct initialScenario as [s|]; auto.
    + now rewrite S0.
    + rewrite S1. apply andb_false_r.
    + rewrite S2. apply andb_false_r.
Qed.

Lemma single_search_end_to_end_witness :
  let init := Some "AUTO" in
  let p := run init [EffectRun; Settled 0 [NetworkError]] in
  let p0 := react init p (Typed " IDBtest3 ") in
  let p1 := react init p0 (KeyDown "Enter") in
  let p2 := react init p1 (Settled 0 [NetworkError]) in
  pending p1 = [ {| search_mode := SINGLE; search_names := [trim " IDBtest3 "] |} ] /\
  state p2 = executeSearch (setSearchInput " IDBtest3 " (state p))
               [(trim " IDBtest3 ", NetworkError)] /\
  pending p2 = [] /\
  autoFetch init p0 = p0 /\ autoFetch init p1 = p1 /\ autoFetch init p2 = p2.
Proof.
  apply (single_search_end_to_end (Some "AUTO")
           (run (Some "AUTO") [EffectRun; Settled 0 [NetworkError]])
           " IDBtest3 " NetworkError).
  - reflexivity.
  - reflexivity.
  - vm_compute. reflexivity.
  - discriminate.
Defined.

End SearchFormTheorems.

(** ** Payloads without a count or a summary, and simulated data *)

Section PayloadFacts.
Import JsString JsNumber AnalysisPage.
Local Open Scope float_scope.

Lemma SF_nan (x : float) : Prim2SF x = S754_nan -> x = nan.
Proof. intros H. rewrite <- (SF2Prim_Prim2SF x), H. reflexivity. Qed.

Lemma nan_div (p : number) : nan / p = nan.
Proof. apply SF_nan. rewrite div_spec. reflexivity. Qed.

Lemma nan_mul (p : number) : nan * p = nan.
Proof. apply SF_nan. rewrite mul_spec. reflexivity. Qed.

Lemma shr_fexp_nonneg (m e : Z) (l : location) :
  (0 <= m)%Z -> (0 <= shr_m (fst (shr_fexp prec emax m e l)))%Z.
Proof.
  intros Hm. unfold shr_fexp, shr.
  destruct (upper_of_loc m l) as [_ Em].
  destruct (fexp prec emax (Zdigits2 m + e) - e)%Z as [|n|n]; cbn [fst];
    try (rewrite Em; exact Hm).
  apply iter_shr_1_le. now rewrite Em.
Qed.

(** Rounding a magnitude that is not negative never gives [NaN]. *)
Lemma binary_round_aux_not_nan (s : bool) (mx ex : Z) (lx : location) :
  (0 <= mx)%Z -> binary_round_aux prec emax s mx ex lx <> S754_nan.
Proof.
  intros Hm. unfold binary_round_aux.
  pose proof (shr_fexp_nonneg mx ex lx Hm) as H1.
  destruct (shr_fexp prec emax mx ex lx) as [mrs1 e1]. cbn [fst] in H1.
  pose proof (round_nearest_even_le mrs1 H1) as [Hr0 _].
  pose proof (shr_fexp_nonneg _ e1 loc_Exact Hr0) as H2.
  destruct (shr_fexp prec emax _ e1 loc_Exact) as [mrs2 e2]. cbn [fst] in H2.
  destruct (shr_m mrs2) as [|m|m]; [discriminate| |lia].
  destruct (_ <=? _)%Z; discriminate.
Qed.

Lemma SFmul_not_nan (x : spec_float) (s : bool) (m : positive) (e : Z) :
  x <> S754_nan -> SFmul prec emax x (S754_finite s m e) <> S754_nan.
Proof.
  destruct x as [sx|sx| |sx mx ex]; intros Hx; cbn [SFmul]; try discriminate.
  - congruence.
  - apply binary_round_aux_not_nan. lia.
Qed.

Lemma SFdiv_core_nonneg (mx my : positive) (ex ey : Z) :
  let '(q, _, _) := SFdiv_core_binary prec emax (Z.pos mx) ex (Z.pos my) ey in
  (0 <= q)%Z.
Proof.
  unfold SFdiv_core_binary.
  set (s := (ex - ey - _)%Z).
  set (m' := match s with
             | 0%Z => Z.pos mx
             | Z.pos _ => Z.shiftl (Z.pos mx) s
             | Z.neg _ => 0%Z
             end).
  assert (0 <= m')%Z as Hm'.
  { subst m'. destruct s; try lia. apply Z.shiftl_nonneg. lia. }
  clearbody m'.
  pose proof (Z_div_mod m' (Z.pos my) ltac:(lia)) as Hdm.
  destruct (Z.div_eucl m' (Z.pos my)) as [q r]. destruct Hdm as [Hq Hr].
  nia.
Qed.

(** A finite dividend and a divisor that is neither zero nor [NaN] give a
    quotient that is not [NaN]. *)
Lemma SFdiv_not_nan (x y : spec_float) :
  (forall s, x <> S754_infinity s) -> x <> S754_nan ->
  (forall s, y <> S754_zero s) -> y <> S754_nan ->
  SFdiv prec emax x y <> S754_nan.
Proof.
  destruct x as [sx|sx| |sx mx ex], y as [sy|sy| |sy my ey];
    intros Hxi Hxn Hyz Hyn; cbn [SFdiv]; try discriminate; try congruence;
    try (exfalso; eapply Hyz; reflexivity);
    try (exfalso; eapply Hxi; reflexivity).
  - pose proof (SFdiv_core_nonneg mx my ex ey) as H.
    destruct (SFdiv_core_binary prec emax (Z.pos mx) ex (Z.pos my) ey) as [[q e] l].
    now apply binary_round_aux_not_nan.
Qed.

Lemma is_nan_SF (x : float) : is_nan x = true <-> Prim2SF x = S754_nan.
Proof.
  pose proof (ordered_not_nan x) as H. unfold ordered, not_nan in H.
  destruct (is_nan x); split; intros E; try congruence; try tauto.
  destruct (Prim2SF x); try reflexivity; exfalso; destruct H as [_ H];
    discriminate H; discriminate.
Qed.


Lemma finite_SF (x : number) :
  finite x -> Prim2SF x <> S754_nan /\ forall s, Prim2SF x <> S754_infinity s.
Proof.
  intros [H1 H2]. apply ltb_key in H1, H2.
  destruct H1 as (_ & Hx & K1). destruct H2 as (_ & _ & K2).
  apply ordered_not_nan in Hx. split; [exact Hx|].
  change (Prim2SF neg_infinity) with (S754_infinity true) in K1.
  change (Prim2SF infinity) with (S754_infinity false) in K2.
  intros s E. rewrite E in K1, K2. destruct s; cbn in K1, K2; lia.
Qed.

Lemma or_else_SF (p d : number) :
  Prim2SF d <> S754_nan -> (forall s, Prim2SF d <> S754_zero s) ->
  Prim2SF (or_else p d) <> S754_nan /\ forall s, Prim2SF (or_else p d) <> S754_zero s.
Proof.
  intros Hn Hz. unfold or_else. destruct (truthy p) eqn:E; [|auto].
  apply truthy_key in E. destruct E as [Ho Hk].
  apply ordered_not_nan in Ho. split; [exact Ho|].
  intros s E. rewrite E in Hk. now apply Hk.
Qed.

(** The drop split without a dropped count: the total shown is 0, the
    share is [NaN] and is displayed as such; with a dropped count that is
    a finite number the share is a number. *)
Theorem drop_split_without_count (X : string) (item : WebhookResponseItem)
    (b : bool) (m : DetailedMetrics) (s : Summary) :
  normalize X (Some item) b = Some m ->
  summary item = Some s ->
  (total_consignments_dropped s = None ->
     totalDrops m = 0 /\ isNaN (dropSplit m) = true /\ dropSplitStr m = "NaN") /\
  (forall d, total_consignments_dropped s = Some d -> finite d ->
     isNaN (dropSplit m) = false).
Proof.
  intros Hn Hs.
  destruct (normalize_fields _ _ _ _ Hn)
    as (s' & Hs' & _ & _ & Hsplit & Hstr & _ & Hdrops & _).
  assert (s' = s) as -> by congruence. split.
  - intros Hd. rewrite Hd in Hsplit, Hdrops. cbn [ToNumber num_or] in Hsplit, Hdrops.
    unfold NaN in Hsplit. rewrite nan_div, nan_mul in Hsplit.
    rewrite Hstr, Hsplit. repeat split; assumption.
  - intros d Hd Hfin. rewrite Hd in Hsplit. cbn [ToNumber] in Hsplit.
    destruct (isNaN (dropSplit m)) eqn:E; [exfalso|reflexivity].
    apply is_nan_SF in E. rewrite Hsplit, mul_spec, div_spec in E.
    change (Prim2SF 100) with (S754_finite false m100 (-46)) in E.
    revert E. apply SFmul_not_nan.
    destruct (finite_SF d Hfin) as [Hdn Hdi].
    assert (Prim2SF (num_or (total_consignments_planned s) 1) <> S754_nan /\
            forall sg, Prim2SF (num_or (total_consignments_planned s) 1) <> S754_zero sg)
      as [Hpn Hpz].
    { destruct (total_consignments_planned s) as [p|]; cbn [num_or].
      - apply or_else_SF; [discriminate|]. intros sg. discriminate.
      - split; [discriminate|]. intros sg. discriminate. }
    now apply SFdiv_not_nan.
Qed.

Lemma drop_split_without_count_witness :
  exists m, normalize "X" (Some payload_without_drop_count) true = Some m /\
    totalDrops m = 0 /\ isNaN (dropSplit m) = true /\ dropSplitStr m = "NaN".
Proof.
  eexists. split; [reflexivity|].
  apply (drop_split_without_count "X" payload_without_drop_count true _ _
           eq_refl eq_refl).
  reflexivity.
Defined.

(** A payload that a successful call hands over without its summary
    yields no metrics: the scenario is left out of the batch, the fallback
    is not used, and a batch of this scenario alone fails. *)
Theorem missing_summary_excluded (X : string) (o : FetchOutcome)
    (item : WebhookResponseItem) :
  remote_item o item ->
  summary item = None ->
  fetchScenarioData X o = None /\
  (forall rest, resolved ((X, o) :: rest) = resolved rest) /\
  (forall st, error (executeSearch st [(X, o)]) = Some unresolvable /\
              metricsData (executeSearch st [(X, o)]) = []).
Proof.
  intros H Hs. apply try_remote_item in H.
  assert (fetchScenarioData X o = None) as E.
  { unfold fetchScenarioData. rewrite H. unfold normalize. rewrite Hs.
    now destruct (_ && _). }
  split; [exact E|]. split.
  - intros rest. now rewrite resolved_cons, E.
  - intros st. unfold executeSearch. cbn [map]. rewrite E. split; reflexivity.
Qed.

Lemma missing_summary_excluded_witness :
  let item := {| success := Some true; request_id := Some "S1";
                 hub_code := Some "HUB"; summary := None;
                 trip_matrix := []; drop_breakup := None |} in
  let o := HttpResponse 200 (Some (BodyArray [item])) in
  fetchScenarioData "S1" o = None /\
  (forall rest, resolved (("S1", o) :: rest) = resolved rest) /\
  (forall st, error (executeSearch st [("S1", o)]) = Some unresolvable /\
              metricsData (executeSearch st [("S1", o)]) = []).
Proof.
  apply (missing_summary_excluded "S1" _
           {| success := Some true; request_id := Some "S1";
              hub_code := Some "HUB"; summary := None;
              trip_matrix := []; drop_breakup := None |}).
  - apply first_item. reflexivity.
  - reflexivity.
Defined.

Lemma normalize_isMock (X : string) (item : option WebhookResponseItem) (b : bool)
    (m : DetailedMetrics) :
  normalize X item b = Some m -> isMock m = b.
Proof.
  destruct item as [item|]; [|discriminate]. intros H.
  now destruct (normalize_fields _ _ _ _ H) as (_ & _ & _ & -> & _).
Qed.

Lemma fetch_isMock (X : string) (o : FetchOutcome) (m : DetailedMetrics) :
  fetchScenarioData X o = Some m -> (isMock m = true <-> remote_failure o).
Proof.
  unfold fetchScenarioData. rewrite try_remote_failure.
  destruct (try_remote o) as [item|]; intros H; apply normalize_isMock in H;
    rewrite H; split; congruence.
Qed.

(** The badge "Includes Simulated Data" tells the truth: it is on exactly
    when the remote call of some scenario of the batch failed. *)
Theorem simulated_badge_iff_failure (scenarios : list (string * FetchOutcome)) :
  includesSimulated (resolved scenarios) = true <->
  Exists (fun s => remote_failure (snd s)) scenarios.
Proof.
  unfold includesSimulated.
  induction scenarios as [|[name o] rest IH].
  - cbn. split; [discriminate|]. intros H. inversion H.
  - rewrite resolved_cons, Exists_cons. cbn [snd].
    destruct (fetchScenarioData name o) as [m|] eqn:E.
    + cbn [existsb]. rewrite orb_true_iff, IH, (fetch_isMock _ _ _ E). reflexivity.
    + rewrite IH. split; [now right|]. intros [Hf|Hr]; [|exact Hr].
      destruct (mock_metrics name) as (m & Hm & _).
      rewrite (fetch_on_failure name o Hf), Hm in E. discriminate E.
Qed.

Lemma mock_fields (X : string) (o : FetchOutcome) (m : DetailedMetrics) :
  remote_failure o -> fetchScenarioData X o = Some m ->
  avgDistance m = 0.06 /\ totalDrops m = 3 /\ totalTrips m = 1
  /\ avgConsignments m = 10.
Proof.
  intros Hf H. rewrite (fetch_on_failure X o Hf) in H.
  injection H as <-. repeat split.
Qed.

Lemma resolved_all_failed_fields (scenarios : list (string * FetchOutcome)) :
  Forall (fun s => remote_failure (snd s)) scenarios ->
  length (resolved scenarios) = length scenarios /\
  Forall (fun m => avgDistance m = 0.06 /\ totalDrops m = 3 /\ totalTrips m = 1
                   /\ avgConsignments m = 10) (resolved scenarios).
Proof.
  induction 1 as [|[name o] rest Ho _ [IH1 IH2]]; [split; constructor|].
  rewrite resolved_cons. cbn [snd] in Ho.
  destruct (mock_metrics name) as (m & Hm & _).
  pose proof (fetch_on_failure name o Ho) as E. rewrite Hm in E. rewrite E.
  cbn [length]. split; [now rewrite IH1|].
  constructor; [|exact IH2]. now apply (mock_fields name o).
Qed.

(** Where all entries of a batch agree on a value, the extremum is this
    value. *)
Lemma extremum_of_constant (f : DetailedMetrics -> number) (c : number)
    (l : list DetailedMetrics) :
  l <> [] -> ordered c -> Forall (fun m => f m = c) l ->
  strict_eq c (Math_min (map f l)) = true /\ strict_eq c (Math_max (map f l)) = true.
Proof.
  intros Hne Hc Hall.
  assert (map f l <> []) as Hne' by (destruct l; [congruence|discriminate]).
  assert (Forall (fun x => x = c) (map f l)) as Hall'.
  { apply List.Forall_map. exact Hall. }
  assert (Forall ordered (map f l)) as Ho.
  { eapply List.Forall_impl; [|exact Hall']. now intros x ->. }
  destruct (Math_min_is_minimum _ Hne' Ho) as [_ Hmin].
  destruct (Math_max_is_maximum _ Hne' Ho) as [_ Hmax].
  rewrite List.Forall_forall in Hall'.
  apply List.Exists_exists in Hmin, Hmax.
  destruct Hmin as (x & Hx & Ex). destruct Hmax as (y & Hy & Ey).
  rewrite (Hall' _ Hx) in Ex. rewrite (Hall' _ Hy) in Ey. auto.
Qed.

(** When every remote call of a comparison fails, every entry is the
    simulated one and carries all four badges: the comparison says
    nothing. *)
Theorem simulated_batch_all_badges (scenarios : list (string * FetchOutcome)) :
  2 <= length scenarios ->
  Forall (fun s => remote_failure (snd s)) scenarios ->
  let l := resolved scenarios in
  map id l = map fst scenarios /\
  Forall (fun m => isMock m = true) l /\
  includesSimulated l = true /\
  Forall (fun s => all_badges (bestMetrics COMPARE l) s = true) l.
Proof.
  intros Hlen Hall. cbv zeta.
  destruct (resolved_all_failed scenarios Hall) as [Hids Hmock].
  destruct (resolved_all_failed_fields scenarios Hall) as [Hl Hf].
  set (l := resolved scenarios) in *.
  assert (l <> []) as Hne by (destruct l; [cbn in Hl; lia|discriminate]).
  split; [exact Hids|]. split; [exact Hmock|]. split.
  - unfold includesSimulated. destruct l as [|m l']; [congruence|].
    inversion Hmock as [|? ? Hm _]; subst. cbn. now rewrite Hm.
  - unfold bestMetrics.
    destruct (Nat.ltb_spec (length l) 2) as [Hlt|_]; [lia|]. cbn [orb].
    destruct (extremum_of_constant avgDistance 0.06 l Hne eq_refl) as [D _].
    { eapply List.Forall_impl; [|exact Hf]. cbn. tauto. }
    destruct (extremum_of_constant totalDrops 3 l Hne eq_refl) as [R _].
    { eapply List.Forall_impl; [|exact Hf]. cbn. tauto. }
    destruct (extremum_of_constant totalTrips 1 l Hne eq_refl) as [T _].
    { eapply List.Forall_impl; [|exact Hf]. cbn. tauto. }
    destruct (extremum_of_constant avgConsignments 10 l Hne eq_refl) as [_ C].
    { eapply List.Forall_impl; [|exact Hf]. cbn. tauto. }
    eapply List.Forall_impl; [|exact Hf].
    intros s (H1 & H2 & H3 & H4).
    unfold all_badges, lowestTrips, bestDistance, highestConsignments, lowestDrops.
    cbn [badge minDistance minDrops minTrips maxConsignments].
    rewrite H1, H2, H3, H4, D, R, T, C. reflexivity.
Qed.

Lemma simulated_batch_all_badges_witness :
  let scenarios := [("A", NetworkError); ("B", HttpResponse 500 None)] in
  let l := resolved scenarios in
  map id l = map fst scenarios /\
  Forall (fun m => isMock m = true) l /\
  includesSimulated l = true /\
  Forall (fun s => all_badges (bestMetrics COMPARE l) s = true) l.
Proof.
  apply (simulated_batch_all_badges
           [("A", NetworkError); ("B", HttpResponse 500 None)]).
  - cbn. lia.
  - repeat constructor.
Defined.

End PayloadFacts.

(** ** Lines, line ends and the cards of the dashboard *)

Section StringFacts.
Import JsString.

Lemma append_cons (c : ascii) (s t : string) :
  String c s +:+ t = String c (s +:+ t).
Proof. reflexivity. Qed.

Lemma append_nil_r (s : string) : s +:+ "" = s.
Proof.
  induction s as [|c s IH]; [reflexivity|]. now rewrite append_cons, IH.
Qed.

Lemma append_assoc (a b c : string) : (a +:+ b) +:+ c = a +:+ (b +:+ c).
Proof.
  induction a as [|x a IH]; [reflexivity|]. now rewrite !append_cons, IH.
Qed.

Lemma contains_char_app (a : ascii) (s t : string) :
  contains_char a (s +:+ t) = contains_char a s || contains_char a t.
Proof.
  induction s as [|c s IH]; [reflexivity|].
  rewrite append_cons. cbn [contains_char]. rewrite IH. now rewrite orb_assoc.
Qed.

Lemma contains_trimStart (a : ascii) (s : string) :
  contains_char a s = false -> contains_char a (trimStart s) = false.
Proof.
  induction s as [|c s IH]; cbn [trimStart contains_char]; [auto|].
  intros H. apply orb_false_iff in H. destruct H as [H1 H2].
  destruct (is_space c); [auto|]. cbn. now rewrite H1, H2.
Qed.

Lemma contains_trimEnd (a : ascii) (s : string) :
  contains_char a s = false -> contains_char a (trimEnd s) = false.
Proof.
  induction s as [|c s IH]; [auto|].
  rewrite trimEnd_cons. cbn [contains_char].
  intros H. apply orb_false_iff in H. destruct H as [H1 H2].
  specialize (IH H2). destruct (trimEnd s) as [|d t].
  - destruct (is_space c); cbn; [reflexivity|now rewrite H1].
  - cbn [contains_char]. cbn [contains_char] in IH. now rewrite H1, IH.
Qed.

Lemma contains_trim (a : ascii) (s : string) :
  contains_char a s = false -> contains_char a (trim s) = false.
Proof. intros H. unfold trim. now apply contains_trimEnd, contains_trimStart. Qed.

Lemma last_is_contains (a : ascii) (s : string) :
  last_is a s = true -> contains_char a s = true.
Proof.
  induction s as [|c s IH]; [discriminate|].
  cbn [last_is contains_char]. destruct s as [|d s'].
  - intros ->. reflexivity.
  - intros H. rewrite (IH H). apply orb_true_r.
Qed.

Lemma strip_quotes_clean (s : string) :
  contains_char quote s = false -> strip_quotes s = s.
Proof.
  intros H. unfold strip_quotes.
  assert (match s with
          | String c s' => if Ascii.eqb c quote then s' else s
          | EmptyString => s
          end = s) as ->.
  { destruct s as [|c s']; [reflexivity|]. cbn in H.
    apply orb_false_iff in H. destruct H as [-> _]. reflexivity. }
  destruct (last_is quote s) eqn:E; [|reflexivity].
  apply last_is_contains in E. congruence.
Qed.

(** White space at the end of a string does not count. *)
Lemma trimEnd_app_space (s : string) (c : ascii) :
  is_space c = true -> trimEnd (s +:+ String c EmptyString) = trimEnd s.
Proof.
  intros Hc. induction s as [|d s IH].
  - change (trimEnd ("" +:+ String c ""))
      with (if is_space c then "" else String c "").
    now rewrite Hc.
  - rewrite append_cons, !trimEnd_cons, IH. reflexivity.
Qed.

Lemma trimStart_app_space (s : string) (c : ascii) :
  is_space c = true ->
  trimStart (s +:+ String c EmptyString) =
    match trimStart s with
    | EmptyString => EmptyString
    | t => t +:+ String c EmptyString
    end.
Proof.
  intros Hc. induction s as [|d s IH].
  - change (trimStart ("" +:+ String c ""))
      with (if is_space c then "" else String c "").
    now rewrite Hc.
  - rewrite append_cons. cbn [trimStart].
    destruct (is_space d); [exact IH|reflexivity].
Qed.

Lemma trim_app_space (s : string) (c : ascii) :
  is_space c = true -> trim (s +:+ String c EmptyString) = trim s.
Proof.
  intros Hc. unfold trim. rewrite trimStart_app_space by exact Hc.
  destruct (trimStart s) as [|d t]; [reflexivity|].
  now apply trimEnd_app_space.
Qed.

End StringFacts.

Section ParseLineFacts.
Import JsString OutputDashboard.

Lemma loop_app_result (line : string) (result : list string) (current : string)
    (inQuotes : bool) :
  parseLine_loop line result current inQuotes
  = result ++ parseLine_loop line [] current inQuotes.
Proof.
  revert result current inQuotes.
  induction line as [|c rest IH]; intros result current inQuotes;
    cbn [parseLine_loop]; [reflexivity|].
  destruct (Ascii.eqb c quote); [apply IH|].
  destruct (Ascii.eqb c comma && negb inQuotes); [|apply IH].
  rewrite (IH (result ++ [trim current])), (IH ([] ++ [trim current])).
  now rewrite <- app_assoc.
Qed.

Lemma loop_fields (line : string) (current : string) (inQuotes : bool) :
  contains_char quote current = false ->
  let fs := parseLine_loop line [] current inQuotes in
  length fs = S (separators line inQuotes) /\
  Forall (fun f => exists u, contains_char quote u = false /\ f = trim u) fs.
Proof.
  revert current inQuotes.
  induction line as [|c rest IH]; intros current inQuotes Hcur;
    cbn [parseLine_loop separators].
  - split; [reflexivity|]. repeat constructor. now exists current.
  - destruct (Ascii.eqb c quote) eqn:Eq; [now apply IH|].
    destruct (Ascii.eqb c comma && negb inQuotes).
    + rewrite loop_app_result. cbn [app length].
      destruct (IH "" inQuotes eq_refl) as [Hl Hf].
      split; [now rewrite Hl|]. constructor; [now exists current|exact Hf].
    + apply IH. rewrite contains_char_app, Hcur. cbn. now rewrite Eq.
Qed.

Lemma clean_field_trim (u : string) :
  contains_char quote u = false -> clean_field (trim u).
Proof. intros H. split; [now apply contains_trim|apply trim_idem]. Qed.

Lemma clean_field_fixed (f : string) : clean_field f -> trim (strip_quotes f) = f.
Proof. intros [Hq Ht]. now rewrite strip_quotes_clean. Qed.

Lemma parseLine_loop_clean (line : string) :
  parseLine line = parseLine_loop line [] "" false.
Proof.
  unfold parseLine.
  destruct (loop_fields line "" false eq_refl) as [_ Hf].
  induction Hf as [|f fs (u & Hu & ->) _ IH]; [reflexivity|].
  cbn [map]. rewrite IH. f_equal.
  apply clean_field_fixed. now apply clean_field_trim.
Qed.

(** [parseLine] returns one field more than the line has commas outside
    quotes, so at least one; no field holds a quote or has white space
    around it, and the final removal of quotes never changes anything. *)
Theorem parseLine_fields (line : string) :
  length (parseLine line) = S (separators line false) /\
  Forall clean_field (parseLine line) /\
  parseLine line = parseLine_loop line [] "" false.
Proof.
  rewrite parseLine_loop_clean.
  destruct (loop_fields line "" false eq_refl) as [Hl Hf].
  split; [exact Hl|]. split; [|reflexivity].
  eapply List.Forall_impl; [|exact Hf].
  intros f (u & Hu & ->). now apply clean_field_trim.
Qed.

(** Scanning characters that are neither quote nor (outside quotes)
    comma only extends the field in hand. *)
Lemma loop_scan (f rest : string) (result : list string) (current : string)
    (inQuotes : bool) :
  contains_char quote f = false ->
  (inQuotes = false -> contains_char comma f = false) ->
  parseLine_loop (f +:+ rest) result current inQuotes
  = parseLine_loop rest result (current +:+ f) inQuotes.
Proof.
  revert current. induction f as [|c f IH]; intros current Hq Hc.
  - now rewrite append_nil_r.
  - rewrite append_cons. cbn [parseLine_loop]. cbn [contains_char] in Hq, Hc.
    apply orb_false_iff in Hq. destruct Hq as [Hq1 Hq2]. rewrite Hq1.
    assert (Ascii.eqb c comma && negb inQuotes = false) as ->.
    { destruct inQuotes; [apply andb_false_r|].
      specialize (Hc eq_refl). apply orb_false_iff in Hc. destruct Hc as [-> _].
      reflexivity. }
    rewrite IH; [|exact Hq2|].
    + now rewrite append_assoc.
    + intros E. specialize (Hc E). apply orb_false_iff in Hc. tauto.
Qed.

Lemma loop_quoted (f rest : string) (result : list string) :
  contains_char quote f = false ->
  parseLine_loop (quoted f +:+ rest) result "" false
  = parseLine_loop rest result f false.
Proof.
  intros Hq. unfold quoted. rewrite append_cons. cbn [parseLine_loop].
  change (Ascii.eqb quote quote) with true. cbn [negb].
  rewrite append_assoc, loop_scan by (auto; discriminate).
  rewrite append_cons. cbn [parseLine_loop].
  change (Ascii.eqb quote quote) with true. reflexivity.
Qed.

Lemma concat_cons2 (sep x y : string) (l : list string) :
  String.concat sep (x :: y :: l) = x +:+ sep +:+ String.concat sep (y :: l).
Proof. reflexivity. Qed.

Lemma loop_csv_line (fields : list string) (result : list string) :
  fields <> [] -> Forall clean_field fields ->
  parseLine_loop (csv_line fields) result "" false = result ++ fields.
Proof.
  intros Hne Hall. revert result.
  induction Hall as [|f fs [Hq Ht] Hfs IH]; [congruence|]. intros result.
  unfold csv_line. destruct fs as [|g fs].
  - cbn [map String.concat].
    rewrite <- (append_nil_r (quoted f)). rewrite loop_quoted by exact Hq.
    cbn [parseLine_loop]. now rewrite Ht.
  - cbn [map]. rewrite concat_cons2. rewrite loop_quoted by exact Hq.
    rewrite append_cons. cbn [parseLine_loop].
    change (Ascii.eqb comma quote) with false.
    change (Ascii.eqb comma comma) with true. cbn [andb negb].
    change (parseLine_loop (csv_line (g :: fs)) (result ++ [trim f]) "" false
            = result ++ f :: g :: fs).
    rewrite IH by discriminate.
    rewrite Ht, <- app_assoc. reflexivity.
Qed.

Lemma loop_plain_line (fields : list string) (result : list string) :
  fields <> [] ->
  Forall (fun f => clean_field f /\ contains_char comma f = false) fields ->
  parseLine_loop (plain_line fields) result "" false = result ++ fields.
Proof.
  intros Hne Hall. revert result.
  induction Hall as [|f fs [[Hq Ht] Hc] Hfs IH]; [congruence|]. intros result.
  unfold plain_line. destruct fs as [|g fs].
  - cbn [String.concat].
    rewrite <- (append_nil_r f) at 1. rewrite loop_scan by auto.
    cbn [parseLine_loop]. change ("" +:+ f) with f. now rewrite Ht.
  - rewrite concat_cons2. rewrite loop_scan by auto.
    rewrite append_cons. cbn [parseLine_loop].
    change (Ascii.eqb comma quote) with false.
    change (Ascii.eqb comma comma) with true. cbn [andb negb].
    change (parseLine_loop (plain_line (g :: fs)) (result ++ [trim f]) "" false
            = result ++ f :: g :: fs).
    rewrite IH by discriminate.
    rewrite Ht, <- app_assoc. reflexivity.
Qed.

(** A line written from its fields reads back as these fields: with
    every field in quotes, whatever commas the fields hold; without
    quotes, when no field holds a comma.  The fields are to be free of
    quotes and of white space around them. *)
Theorem parseLine_round_trip (fields : list string) :
  fields <> [] -> Forall clean_field fields ->
  parseLine (csv_line fields) = fields /\
  (Forall (fun f => contains_char comma f = false) fields ->
   parseLine (plain_line fields) = fields).
Proof.
  intros Hne Hall. split.
  - now rewrite parseLine_loop_clean, loop_csv_line.
  - intros Hc. rewrite parseLine_loop_clean, loop_plain_line; auto.
    rewrite List.Forall_forall in *. auto.
Qed.

Lemma parseLine_round_trip_witness :
  parseLine (csv_line ["Oslo, Norway"; ""; "12 km"]) = ["Oslo, Norway"; ""; "12 km"] /\
  (Forall (fun f => contains_char comma f = false) ["Oslo, Norway"; ""; "12 km"] ->
   parseLine (plain_line ["Oslo, Norway"; ""; "12 km"]) = ["Oslo, Norway"; ""; "12 km"]).
Proof.
  apply (parseLine_round_trip ["Oslo, Norway"; ""; "12 km"]).
  - discriminate.
  - repeat constructor.
Defined.

End ParseLineFacts.

Section LineEndFacts.
Import JsString OutputDashboard.

Lemma split_lines_cons (c : ascii) (s : string) :
  split_lines (String c s) =
    if Ascii.eqb c LF then EmptyString :: split_lines s
    else match split_lines s with
         | l :: ls => String c l :: ls
         | [] => [String c EmptyString]
         end.
Proof. reflexivity. Qed.

Lemma split_lines_ne (s : string) : split_lines s <> [].
Proof.
  induction s as [|c s IH]; [discriminate|].
  rewrite split_lines_cons. destruct (Ascii.eqb c LF); [discriminate|].
  destruct (split_lines s); discriminate.
Qed.

Lemma split_lines_app (l rest : string) :
  contains_char LF l = false ->
  split_lines (l +:+ rest) =
    match split_lines rest with
    | r :: rs => (l +:+ r) :: rs
    | [] => [l]
    end.
Proof.
  induction l as [|c l IH]; intros H.
  - change ("" +:+ rest) with rest. pose proof (split_lines_ne rest).
    now destruct (split_lines rest).
  - cbn [contains_char] in H. apply orb_false_iff in H. destruct H as [H1 H2].
    rewrite append_cons, split_lines_cons, H1, (IH H2).
    destruct (split_lines rest); reflexivity.
Qed.

Lemma split_unix_text (lines : list string) :
  lines <> [] -> Forall (fun l => contains_char LF l = false) lines ->
  split_lines (unix_text lines) = lines.
Proof.
  intros Hne Hall. induction Hall as [|l ls Hl Hls IH]; [congruence|].
  unfold unix_text. destruct ls as [|l' ls].
  - cbn [String.concat]. rewrite <- (append_nil_r l) at 1.
    rewrite split_lines_app by exact Hl. cbn. now rewrite append_nil_r.
  - rewrite concat_cons2. rewrite split_lines_app by exact Hl.
    rewrite append_cons, split_lines_cons.
    change (Ascii.eqb LF LF) with true. cbn iota.
    change ("" +:+ ?s) with s.
    change (String.concat (String LF "") (l' :: ls)) with (unix_text (l' :: ls)).
    rewrite IH by discriminate. now rewrite append_nil_r.
Qed.

Lemma split_dos_text (lines : list string) :
  lines <> [] -> Forall (fun l => contains_char LF l = false) lines ->
  split_lines (dos_text lines) = with_cr lines.
Proof.
  intros Hne Hall. induction Hall as [|l ls Hl Hls IH]; [congruence|].
  unfold dos_text. destruct ls as [|l' ls].
  - cbn [String.concat with_cr]. rewrite <- (append_nil_r l) at 1.
    rewrite split_lines_app by exact Hl. cbn. now rewrite append_nil_r.
  - rewrite concat_cons2. rewrite split_lines_app by exact Hl.
    rewrite append_cons, split_lines_cons.
    change (Ascii.eqb CR LF) with false. cbn iota.
    rewrite append_cons, split_lines_cons.
    change (Ascii.eqb LF LF) with true. cbn iota.
    change ("" +:+ ?s) with s.
    change (String.concat (String CR (String LF "")) (l' :: ls))
      with (dos_text (l' :: ls)).
    rewrite IH by discriminate. reflexivity.
Qed.

(** A CR at the end of a line does not count. *)
Lemma loop_app_cr (line : string) (result : list string) (current : string)
    (inQuotes : bool) :
  parseLine_loop (line +:+ String CR EmptyString) result current inQuotes
  = parseLine_loop line result current inQuotes.
Proof.
  revert result current inQuotes.
  induction line as [|c rest IH]; intros result current inQuotes.
  - change ("" +:+ String CR "") with (String CR "").
    cbn [parseLine_loop].
    change (Ascii.eqb CR quote) with false.
    change (Ascii.eqb CR comma) with false. cbn [andb].
    now rewrite trim_app_space.
  - rewrite append_cons. cbn [parseLine_loop].
    destruct (Ascii.eqb c quote); [apply IH|].
    destruct (Ascii.eqb c comma && negb inQuotes); apply IH.
Qed.

Lemma parseLine_app_cr (line : string) :
  parseLine (line +:+ String CR EmptyString) = parseLine line.
Proof. unfold parseLine. now rewrite loop_app_cr. Qed.

Lemma parseCSV_lines (text : string) : parseCSV text = parse_lines (split_lines text).
Proof. reflexivity. Qed.

Lemma parse_lines_with_cr (lines : list string) :
  parse_lines (with_cr lines) = parse_lines lines.
Proof.
  assert (forall ls,
            Forall2 (fun a b => trim a = trim b /\ parseLine a = parseLine b)
              (with_cr ls) ls) as Hrel.
  { induction ls as [|l [|l' ls] IH]; [constructor|repeat constructor|].
    change (with_cr (l :: l' :: ls))
      with ((l +:+ String CR "") :: with_cr (l' :: ls)).
    constructor; [|exact IH].
    split; [now apply trim_app_space|apply parseLine_app_cr]. }
  assert (forall ls1 ls2,
            Forall2 (fun a b => trim a = trim b /\ parseLine a = parseLine b) ls1 ls2 ->
            Forall2 (fun a b => trim a = trim b /\ parseLine a = parseLine b)
              (List.filter (fun l => JsString.truthy (trim l)) ls1)
              (List.filter (fun l => JsString.truthy (trim l)) ls2)) as Hfilter.
  { induction 1 as [|a b ls1 ls2 [Ht Hp] _ IH]; [constructor|].
    cbn [List.filter]. rewrite Ht.
    destruct (JsString.truthy (trim b)); [constructor; auto|exact IH]. }
  unfold parse_lines.
  pose proof (Hfilter _ _ (Hrel lines)) as H.
  destruct H as [|a b r1 r2 [_ Hp] Hrest]; [reflexivity|].
  rewrite Hp. f_equal.
  induction Hrest as [|x y r1 r2 [_ Hxy] _ IH]; [reflexivity|].
  cbn [map]. rewrite IH. unfold make_row. now rewrite Hxy.
Qed.

(** A sheet with lines ended by CR LF parses like the same sheet with
    lines ended by LF. *)
Theorem parseCSV_line_ends (lines : list string) :
  Forall (fun l => contains_char LF l = false) lines ->
  parseCSV (dos_text lines) = parseCSV (unix_text lines).
Proof.
  intros Hall. destruct lines as [|l ls]; [reflexivity|].
  rewrite !parseCSV_lines, split_dos_text, split_unix_text by (auto; discriminate).
  apply parse_lines_with_cr.
Qed.

Lemma parseCSV_line_ends_witness :
  parseCSV (dos_text ["id,name"; "1,Ann"; "2,Bob"])
  = parseCSV (unix_text ["id,name"; "1,Ann"; "2,Bob"]).
Proof.
  apply (parseCSV_line_ends ["id,name"; "1,Ann"; "2,Bob"]). repeat constructor.
Defined.

End LineEndFacts.

Section CardFacts.
Import JsString JsNumber JsObject OutputDashboard.

Lemma insert_sorted_perm {A} (cmp : A -> A -> number) (x : A) (l : list A) :
  JsArray.insert_sorted cmp x l ≡ₚ x :: l.
Proof.
  induction l as [|y l IH]; cbn [JsArray.insert_sorted]; [reflexivity|].
  destruct (PrimFloat.ltb 0 (cmp x y)); [|reflexivity].
  rewrite IH. apply Permutation_swap.
Qed.

Lemma sort_perm {A} (cmp : A -> A -> number) (l : list A) : JsArray.sort cmp l ≡ₚ l.
Proof.
  unfold JsArray.sort. induction l as [|x l IH]; cbn [fold_right]; [reflexivity|].
  now rewrite insert_sorted_perm, IH.
Qed.

Lemma insert_index_perm (k : string) (ks : list string) :
  insert_index k ks ≡ₚ k :: ks.
Proof.
  induction ks as [|k' ks IH]; cbn [insert_index]; [reflexivity|].
  destruct (index_of k <? index_of k')%Z; [reflexivity|].
  rewrite IH. apply Permutation_swap.
Qed.

Lemma filter_split_perm {A} (f : A -> bool) (l : list A) :
  List.filter f l ++ List.filter (fun x => negb (f x)) l ≡ₚ l.
Proof.
  induction l as [|x l IH]; cbn [List.filter]; [reflexivity|].
  destruct (f x); cbn [negb app].
  - now rewrite IH.
  - rewrite <- Permutation_middle. now rewrite IH.
Qed.

Lemma order_keys_perm (ks : list string) : order_keys ks ≡ₚ ks.
Proof.
  unfold order_keys.
  assert (forall l, fold_right insert_index [] l ≡ₚ l) as G.
  { induction l as [|k l IH]; cbn [fold_right]; [reflexivity|].
    now rewrite insert_index_perm, IH. }
  rewrite G. apply filter_split_perm.
Qed.

(** A comparator that is constantly zero leaves the order alone. *)
Lemma sort_zero {A} (cmp : A -> A -> number) (l : list A) :
  (forall x y, In x l -> In y l -> PrimFloat.ltb 0 (cmp x y) = false) ->
  JsArray.sort cmp l = l.
Proof.
  unfold JsArray.sort. induction l as [|x l IH]; intros H; [reflexivity|].
  cbn [fold_right]. rewrite IH by (intros a b Ha Hb; apply H; now right).
  destruct l as [|y l]; [reflexivity|]. cbn [JsArray.insert_sorted].
  rewrite H; [reflexivity|now left|right; now left].
Qed.

Lemma scenario_ids_snoc (pre : list SheetRow) (r : SheetRow) :
  scenario_ids (pre ++ [r]) = add_id (scenario_ids pre) r.
Proof. unfold scenario_ids. now rewrite fold_left_app. Qed.

Lemma add_id_In (acc : list string) (r : SheetRow) (k : string) :
  In k (add_id acc r) <-> In k acc \/ k = reqId_of r.
Proof.
  unfold add_id. destruct (existsb _ acc) eqn:E.
  - apply existsb_eqb_In in E. split; [tauto|]. intros [H| ->]; assumption.
  - rewrite in_app_iff. cbn. intuition.
Qed.

Lemma scenario_ids_In (data : list SheetRow) (k : string) :
  In k (scenario_ids data) <-> exists r, In r data /\ reqId_of r = k.
Proof.
  induction data as [|r pre IH] using rev_ind.
  - cbn. split; [tauto|]. intros (r & [] & _).
  - rewrite scenario_ids_snoc, add_id_In, IH. split.
    + intros [(x & Hx & H)| ->].
      * exists x. rewrite in_app_iff. tauto.
      * exists r. rewrite in_app_iff. cbn. tauto.
    + intros (x & Hx & E). apply in_app_iff in Hx.
      destruct Hx as [Hx|[->|[]]]; [left; eauto|right; auto].
Qed.

Lemma scenario_ids_NoDup (data : list SheetRow) : NoDup (scenario_ids data).
Proof.
  induction data as [|r pre IH] using rev_ind; [apply NoDup_nil_2|].
  rewrite scenario_ids_snoc. unfold add_id.
  destruct (existsb _ _) eqn:E; [exact IH|].
  apply NoDup_app. split; [exact IH|]. split; [|apply NoDup_singleton].
  intros x Hx Hx'. apply list_elem_of_singleton in Hx'. subst x.
  apply list_elem_of_In, existsb_eqb_In in Hx. congruence.
Qed.

(** A row with a request id that is not inherited is filed under it. *)
Lemma group_row_normal (o : obj (list SheetRow)) (pre : list SheetRow)
    (r : SheetRow) :
  inherited (reqId_of r) = false ->
  (forall k, get o k = non_empty (rows_of_scenario k pre)) ->
  exists o', group_row o r = Normal o' /\
    (forall k, get o' k = non_empty (rows_of_scenario k (pre ++ [r]))) /\
    map fst o' = add_id (map fst o) r.
Proof.
  intros Hi H. unfold group_row, missing, add_id. rewrite Hi. cbn [negb].
  pose proof (H (reqId_of r)) as Hk0. set (k0 := reqId_of r) in *.
  assert (forall k, non_empty (rows_of_scenario k (pre ++ [r])) =
            if String.eqb k0 k then Some (rows_of_scenario k pre ++ [r])
            else non_empty (rows_of_scenario k pre)) as Hsnoc.
  { intros k. unfold rows_of_scenario. rewrite List.filter_app.
    cbn [List.filter]. fold k0. destruct (String.eqb k0 k).
    - destruct (List.filter _ pre); reflexivity.
    - now rewrite app_nil_r. }
  destruct (get o k0) as [l|] eqn:E; cbv iota.
  - rewrite E. exists (set o k0 (l ++ [r])). split; [reflexivity|].
    assert (In k0 (map fst o)) as Hin by (eapply get_Some_In; eauto).
    split.
    + intros k. rewrite Hsnoc. destruct (String.eqb_spec k0 k) as [<-|Hne].
      * rewrite get_set_eq. do 2 f_equal.
        destruct (rows_of_scenario k0 pre); cbn [non_empty] in Hk0; congruence.
      * rewrite get_set_ne by exact Hne. apply H.
    + rewrite keys_set_old by exact Hin.
      apply existsb_eqb_In in Hin. now rewrite Hin.
  - rewrite get_set_eq. exists (set (set o k0 []) k0 ([] ++ [r])).
    split; [reflexivity|]. apply get_None in E as Hn. split.
    + intros k. rewrite Hsnoc. destruct (String.eqb_spec k0 k) as [<-|Hne].
      * rewrite get_set_eq. do 2 f_equal.
        destruct (rows_of_scenario k0 pre); cbn [non_empty] in Hk0; congruence.
      * rewrite !get_set_ne by exact Hne. apply H.
    + rewrite keys_set_old.
      * rewrite keys_set_new by exact Hn.
        destruct (existsb (String.eqb k0) (map fst o)) eqn:Ex; [|reflexivity].
        apply existsb_eqb_In in Ex. tauto.
      * rewrite keys_set_new by exact Hn. apply in_app_iff. right. now left.
Qed.

(** A row with an inherited request id throws. *)
Lemma group_row_throws (o : obj (list SheetRow)) (r : SheetRow) :
  inherited (reqId_of r) = true -> get o (reqId_of r) = None ->
  group_row o r = TypeError.
Proof.
  intros Hi Hn. unfold group_row, missing. rewrite Hn, Hi. cbn [negb].
  now rewrite Hn.
Qed.

Lemma group_rows_cases (rest : list SheetRow) :
  forall (o : obj (list SheetRow)) (pre : list SheetRow),
  (forall k, get o k = non_empty (rows_of_scenario k pre)) ->
  map fst o = scenario_ids pre ->
  Forall (fun r => inherited (reqId_of r) = false) pre ->
  match group_rows o rest with
  | Normal o' =>
      Forall (fun r => inherited (reqId_of r) = false) rest /\
      (forall k, get o' k = non_empty (rows_of_scenario k (pre ++ rest))) /\
      map fst o' = scenario_ids (pre ++ rest)
  | TypeError => Exists (fun r => inherited (reqId_of r) = true) rest
  end.
Proof.
  induction rest as [|r rest IH]; intros o pre Hget Hkeys Hpre; cbn [group_rows].
  - rewrite app_nil_r. split; [constructor|]. split; assumption.
  - destruct (inherited (reqId_of r)) eqn:Hi.
    + rewrite group_row_throws; [now left|exact Hi|].
      apply get_None. rewrite Hkeys. intros Hin.
      apply scenario_ids_In in Hin. destruct Hin as (x & Hx & Ex).
      rewrite List.Forall_forall in Hpre. specialize (Hpre x Hx). congruence.
    + destruct (group_row_normal o pre r Hi Hget) as (o' & -> & Hget' & Hkeys').
      assert (map fst o' = scenario_ids (pre ++ [r])) as Hk'
        by now rewrite Hkeys', scenario_ids_snoc, Hkeys.
      assert (Forall (fun r => inherited (reqId_of r) = false) (pre ++ [r])) as Hp'.
      { apply List.Forall_app. split; [exact Hpre|]. now constructor. }
      specialize (IH o' (pre ++ [r]) Hget' Hk' Hp').
      replace ((pre ++ [r]) ++ rest) with (pre ++ r :: rest) in IH
        by (rewrite <- app_assoc; reflexivity).
      destruct (group_rows o' rest) as [o''|].
      * destruct IH as (Hall & IH). split; [now constructor|exact IH].
      * now right.
Qed.

(** Grouping throws exactly when some request id is inherited; when it
    returns, every request id has its rows, in order of first
    appearance. *)
Lemma group_by_scenario_cases (data : list SheetRow) :
  match group_by_scenario data with
  | Normal o =>
      Forall (fun r => inherited (reqId_of r) = false) data /\
      (forall k, get o k = non_empty (rows_of_scenario k data)) /\
      map fst o = scenario_ids data
  | TypeError => Exists (fun r => inherited (reqId_of r) = true) data
  end.
Proof.
  unfold group_by_scenario.
  apply (group_rows_cases data [] []); [reflexivity|reflexivity|constructor].
Qed.

Lemma scenario_results_ids (o : obj (list SheetRow)) (cur : option string) :
  map id (scenario_results o cur) = keys o /\
  Forall (fun m => isCurrent m = is_current cur (id m)) (scenario_results o cur).
Proof.
  unfold scenario_results. split.
  - rewrite map_map. cbn [id scenario_result]. apply map_id.
  - apply List.Forall_map. apply List.Forall_forall. intros k _. reflexivity.
Qed.

(** The insertion sort is the sort of a conforming engine. *)
Lemma sort_conforming : conforming (fun A => @JsArray.sort A).
Proof. intros A cmp l. split; [apply sort_perm|reflexivity]. Qed.

(** A comparator that is constantly zero is consistent. *)
Lemma zero_consistent {A} (cmp : A -> A -> number) (l : list A) :
  (forall x y, In x l -> In y l -> cmp x y = 0%float) -> consistent cmp l.
Proof.
  intros H. unfold consistent. repeat split.
  - intros a b Ha Hb. now rewrite H.
  - intros a Ha. now rewrite H.
  - intros a b Ha Hb _. now rewrite H.
  - intros a b c Ha Hb Hc _ _. now rewrite H.
  - intros a b c Ha Hb Hc E. rewrite H in E by assumption. discriminate.
  - intros a b c Ha Hb Hc E. rewrite H in E by assumption. discriminate.
Qed.

(** What [scenarioMetrics] comes to. *)
Lemma scenarioMetrics_cases (engine : JsArray.Sort) (data : list SheetRow)
    (cur : option string) :
  conforming engine ->
  match scenarioMetrics engine data cur with
  | TypeError => Exists (fun r => inherited (reqId_of r) = true) data
  | Normal None => data = []
  | Normal (Some ms) =>
      data <> [] /\
      Forall (fun r => inherited (reqId_of r) = false) data /\
      exists o,
        (forall k, get o k = non_empty (rows_of_scenario k data)) /\
        map fst o = scenario_ids data /\
        ms ≡ₚ scenario_results o cur /\
        (consistent current_first (scenario_results o cur) ->
         ms = JsArray.sort current_first (scenario_results o cur))
  end.
Proof.
  intros He. unfold scenarioMetrics. destruct data as [|r0 data0]; [reflexivity|].
  pose proof (group_by_scenario_cases (r0 :: data0)) as Hg.
  destruct (group_by_scenario (r0 :: data0)) as [o|]; [|exact Hg].
  destruct Hg as (Hall & Hget & Hkeys).
  split; [discriminate|]. split; [exact Hall|]. exists o.
  split; [exact Hget|]. split; [exact Hkeys|].
  apply (He _ current_first (scenario_results o cur)).
Qed.

Lemma Exists_inherited (data : list SheetRow) :
  Exists (fun r => inherited (reqId_of r) = true) data <->
  exists r, r ∈ data /\ inherited (reqId_of r) = true.
Proof.
  rewrite List.Exists_exists. split; intros (r & Hr & Hi); exists r;
    (split; [now apply list_elem_of_In|exact Hi]).
Qed.

Lemma Forall_not_inherited (data : list SheetRow) :
  Forall (fun r => inherited (reqId_of r) = false) data ->
  ~ exists r, r ∈ data /\ inherited (reqId_of r) = true.
Proof.
  rewrite List.Forall_forall. intros H (r & Hr & Hi).
  apply list_elem_of_In in Hr. specialize (H r Hr). congruence.
Qed.

(** The dashboard shows one card for every request id of the sheet and
    no other: the ids of the cards are the request ids, each once.  Each
    card is marked current exactly when its id is the current scenario
    name, letter case apart.  When no id is, the cards come in the order
    of the keys: ids that are array indices in ascending order, then the
    others in order of first appearance.  There are no cards at all
    when some request id is the name of a property every object
    inherits: the computation throws. *)
Theorem one_card_per_scenario (engine : JsArray.Sort) (data : list SheetRow)
    (cur : option string) :
  conforming engine ->
  (scenarioMetrics engine data cur = TypeError <->
   exists r, r ∈ data /\ inherited (reqId_of r) = true) /\
  (scenarioMetrics engine data cur = Normal None <-> data = []) /\
  forall ms, scenarioMetrics engine data cur = Normal (Some ms) ->
    NoDup (map id ms) /\
    (forall k, k ∈ map id ms <-> exists r, r ∈ data /\ reqId_of r = k) /\
    Forall (fun m => isCurrent m = is_current cur (id m)) ms /\
    (Forall (fun m => isCurrent m = false) ms ->
     map id ms = order_keys (scenario_ids data)).
Proof.
  intros He. pose proof (scenarioMetrics_cases engine data cur He) as Hc.
  destruct (scenarioMetrics engine data cur) as [[ms|]|].
  - destruct Hc as (Hne & Hall & o & Hget & Hkeys & Hperm & Hsort).
    split; [|split].
    + split; [discriminate|]. intros H. now apply Forall_not_inherited in Hall.
    + split; [discriminate|]. intros ->. now contradiction Hne.
    + intros ms' [= <-].
      destruct (scenario_results_ids o cur) as [Hids Hcur].
      unfold keys in Hids. rewrite Hkeys in Hids.
      assert (map id ms ≡ₚ scenario_ids data) as Hp.
      { rewrite Hperm, Hids. apply order_keys_perm. }
      split; [|split; [|split]].
      * rewrite Hp. apply scenario_ids_NoDup.
      * intros k. rewrite Hp, list_elem_of_In, scenario_ids_In.
        split; intros (r & Hr & E); exists r; (split; [|exact E]);
          now apply list_elem_of_In.
      * rewrite Hperm. exact Hcur.
      * intros Hnone. rewrite Hperm in Hnone.
        assert (forall x y, In x (scenario_results o cur) ->
                  In y (scenario_results o cur) -> current_first x y = 0%float)
          as Hzero.
        { intros x y Hx Hy. rewrite List.Forall_forall in Hnone.
          unfold current_first. now rewrite (Hnone x Hx), (Hnone y Hy). }
        rewrite Hsort by now apply zero_consistent.
        rewrite sort_zero; [exact Hids|].
        intros x y Hx Hy. now rewrite Hzero.
  - subst data. split; [|split].
    + split; [discriminate|]. intros (r & Hr & _). now apply elem_of_nil in Hr.
    + split; reflexivity.
    + intros ms [=].
  - split; [|split].
    + split; [intros _; now apply Exists_inherited|reflexivity].
    + split; [discriminate|]. intros ->. now apply List.Exists_nil in Hc.
    + intros ms [=].
Qed.

Lemma one_card_per_scenario_witness :
  let run := scenarioMetrics (fun A => @JsArray.sort A) two_vehicles None in
  (run = TypeError <->
   exists r, r ∈ two_vehicles /\ inherited (reqId_of r) = true) /\
  (run = Normal None <-> two_vehicles = []) /\
  forall ms, run = Normal (Some ms) ->
    NoDup (map id ms) /\
    (forall k, k ∈ map id ms <-> exists r, r ∈ two_vehicles /\ reqId_of r = k) /\
    Forall (fun m => isCurrent m = is_current None (id m)) ms /\
    (Forall (fun m => isCurrent m = false) ms ->
     map id ms = order_keys (scenario_ids two_vehicles)).
Proof.
  apply (one_card_per_scenario (fun A => @JsArray.sort A) two_vehicles None).
  apply sort_conforming.
Defined.

End CardFacts.

(** ** The sheet connection *)

Section SheetIdFacts.
Import JsString OutputDashboard SheetFetch.

Lemma take_id_all (s : string) : all_chars id_char (take_id s) = true.
Proof.
  induction s as [|c s IH]; [reflexivity|]. cbn [take_id].
  destruct (id_char c) eqn:E; [|reflexivity]. cbn. now rewrite E.
Qed.

Lemma take_id_app (i rest : string) :
  all_chars id_char i = true -> take_id rest = "" -> take_id (i +:+ rest) = i.
Proof.
  intros Hi Hr. induction i as [|c i IH]; [exact Hr|].
  cbn [all_chars] in Hi. apply andb_prop in Hi. destruct Hi as [Hc Hi].
  rewrite append_cons. cbn [take_id]. now rewrite Hc, IH.
Qed.

(** A string of the class holds no match. *)
Lemma urlMatch_id (i : string) : all_chars id_char i = true -> urlMatch i = None.
Proof.
  induction i as [|c i IH]; [reflexivity|]. intros H.
  cbn [all_chars] in H. apply andb_prop in H. destruct H as [Hc Hi].
  cbn [urlMatch]. rewrite (IH Hi).
  assert (match_here (String c i) = "") as ->; [|reflexivity].
  unfold match_here. cbn [strip_prefix].
  destruct (Ascii.eqb "/" c) eqn:E; [|reflexivity].
  apply Ascii.eqb_eq in E. subst c. discriminate Hc.
Qed.

Lemma strip_prefix_app (p s r x : string) :
  strip_prefix p s = Some r -> strip_prefix p (s +:+ x) = Some (r +:+ x).
Proof.
  revert s. induction p as [|a p IH]; intros s; cbn [strip_prefix].
  - now intros [= ->].
  - destruct s as [|b s]; [discriminate|]. rewrite append_cons.
    destruct (Ascii.eqb a b); [apply IH|discriminate].
Qed.

Lemma strip_prefix_none_app (p s x : string) :
  strip_prefix p s = None -> String.length p <= String.length s ->
  strip_prefix p (s +:+ x) = None.
Proof.
  revert s. induction p as [|a p IH]; intros s; cbn [strip_prefix]; [discriminate|].
  destruct s as [|b s]; cbn [String.length]; [lia|]. rewrite append_cons.
  destruct (Ascii.eqb a b); [|reflexivity]. intros H Hl. apply IH; [exact H|lia].
Qed.

Lemma strip_prefix_length (p s r : string) :
  strip_prefix p s = Some r -> String.length s = String.length p + String.length r.
Proof.
  revert s. induction p as [|a p IH]; intros s; cbn [strip_prefix].
  - now intros [= ->].
  - destruct s as [|b s]; [discriminate|]. cbn [String.length].
    destruct (Ascii.eqb a b); [|discriminate]. intros H. now rewrite (IH _ H).
Qed.

Lemma take_id_empty_app (r x : string) :
  r <> "" -> take_id r = "" -> take_id (r +:+ x) = "".
Proof.
  destruct r as [|c r]; [congruence|]. intros _. rewrite append_cons.
  cbn [take_id]. destruct (id_char c); [discriminate|reflexivity].
Qed.

(** No match at the start of a string of four characters or more: none
    either when the string goes on. *)
Lemma match_here_app (s x : string) :
  4 <= String.length s -> match_here s = "" -> match_here (s +:+ x) = "".
Proof.
  intros Hl. unfold match_here.
  destruct (strip_prefix "/d/" s) as [r|] eqn:E.
  - rewrite (strip_prefix_app _ _ _ x E). apply take_id_empty_app.
    apply strip_prefix_length in E. cbn [String.length] in E.
    destruct r; [cbn in E; lia|discriminate].
  - rewrite strip_prefix_none_app; [reflexivity|exact E|cbn; lia].
Qed.

Lemma length_append (a b : string) :
  String.length (a +:+ b) = String.length a + String.length b.
Proof.
  induction a as [|c a IH]; [reflexivity|].
  rewrite append_cons. cbn [String.length]. now rewrite IH.
Qed.

Lemma urlMatch_after (p i rest : string) :
  urlMatch (p +:+ "/d/") = None ->
  i <> "" -> all_chars id_char i = true -> take_id rest = "" ->
  urlMatch (p +:+ "/d/" +:+ i +:+ rest) = Some i.
Proof.
  intros Hp Hi Hall Hrest. induction p as [|c p IH].
  - change ("" +:+ "/d/" +:+ i +:+ rest)
      with (String "/" ("d/" +:+ i +:+ rest)).
    cbn [urlMatch].
    assert (match_here (String "/" ("d/" +:+ i +:+ rest)) = i) as ->.
    { unfold match_here.
      change (strip_prefix "/d/" (String "/" ("d/" +:+ i +:+ rest)))
        with (Some (i +:+ rest)).
      now apply take_id_app. }
    destruct i; [congruence|reflexivity].
  - rewrite append_cons in Hp. cbn [urlMatch] in Hp.
    destruct (match_here (String c (p +:+ "/d/"))) eqn:Eh; [|discriminate].
    rewrite append_cons. cbn [urlMatch].
    replace (String c (p +:+ "/d/" +:+ i +:+ rest))
      with (String c (p +:+ "/d/") +:+ (i +:+ rest))
      by (rewrite append_cons, append_assoc; reflexivity).
    rewrite match_here_app; [|cbn [String.length]; rewrite length_append; cbn; lia
                             |exact Eh].
    apply IH. exact Hp.
Qed.

End SheetIdFacts.

Section SheetFetchFacts.
Import JsString JsNumber JsObject OutputDashboard SheetFetch.

(** A pasted document address and the bare id in it lead to the same
    request: the id is what follows the first [/d/] that is followed by a
    character of the class, up to the first character outside the class;
    an id alone is taken as it is. *)
Theorem pasted_url_or_id (p i rest : string) :
  urlMatch (p +:+ "/d/") = None ->
  i <> "" -> all_chars id_char i = true -> take_id rest = "" ->
  cleanId (p +:+ "/d/" +:+ i +:+ rest) = i /\
  cleanId i = i /\
  export_url (p +:+ "/d/" +:+ i +:+ rest) = export_url i.
Proof.
  intros Hp Hi Hall Hrest.
  assert (cleanId (p +:+ "/d/" +:+ i +:+ rest) = i) as E1.
  { unfold cleanId. now rewrite urlMatch_after. }
  assert (cleanId i = i) as E2.
  { unfold cleanId. now rewrite urlMatch_id. }
  split; [exact E1|]. split; [exact E2|].
  unfold export_url. now rewrite E1, E2.
Qed.

Lemma pasted_url_or_id_witness :
  cleanId ("https://docs.google.com/spreadsheets" +:+ "/d/" +:+ "1AbC_d-9"
           +:+ "/edit#gid=0") = "1AbC_d-9" /\
  cleanId "1AbC_d-9" = "1AbC_d-9" /\
  export_url ("https://docs.google.com/spreadsheets" +:+ "/d/" +:+ "1AbC_d-9"
              +:+ "/edit#gid=0") = export_url "1AbC_d-9".
Proof.
  apply (pasted_url_or_id "https://docs.google.com/spreadsheets" "1AbC_d-9"
           "/edit#gid=0"); try reflexivity.
  discriminate.
Defined.

Lemma urlMatch_run (s run : string) :
  urlMatch s = Some run -> all_chars id_char run = true.
Proof.
  induction s as [|c s IH]; [discriminate|]. cbn [urlMatch].
  destruct (match_here (String c s)) as [|a r] eqn:E; [exact IH|].
  intros [= <-]. rewrite <- E. unfold match_here.
  destruct (strip_prefix "/d/" (String c s)); [apply take_id_all|reflexivity].
Qed.

(** An id that was extracted is never taken for an address again:
    extracting twice is extracting once, and what is requested is either
    the input as it is or a run of letters, digits, [-] and [_]. *)
Theorem cleanId_idempotent (sheetId : string) :
  cleanId (cleanId sheetId) = cleanId sheetId /\
  (cleanId sheetId = sheetId \/ all_chars id_char (cleanId sheetId) = true).
Proof.
  unfold cleanId at 2 3 4 5. destruct (urlMatch sheetId) as [run|] eqn:E.
  - apply urlMatch_run in E. split; [|now right].
    unfold cleanId. now rewrite urlMatch_id.
  - split; [|now left]. unfold cleanId. now rewrite E.
Qed.

Lemma sheet_run_snoc (s : option string) (events : list Event) (ev : Event) :
  run s (events ++ [ev]) = react (run s events) ev.
Proof. unfold run. now rewrite fold_left_app. Qed.

Lemma refresh_invariant (s : option string) (events : list Event) :
  let d := run s events in
  (isLoading (state d) = true <-> requested d <> None) /\
  (isLoading (state d) = true -> error (state d) = None /\ data (state d) = []) /\
  (data (state d) <> [] -> error (state d) = None /\ lastUpdated (state d) <> None).
Proof.
  cbv zeta. induction events as [|ev events IH] using rev_ind.
  - cbn. split; [split; [discriminate|intros H; now contradiction H]|].
    split; [discriminate|]. intros H. now contradiction H.
  - rewrite sheet_run_snoc. destruct IH as (IH1 & IH2 & IH3).
    set (d := run s events) in *. clearbody d.
    destruct d as [[sid loading rows hdrs err upd] sto req].
    cbn [state requested isLoading error data lastUpdated] in *.
    destruct ev as [v| |o now]; cbn [react state requested isLoading].
    + auto.
    + destruct loading; cbn [orb]; [auto|].
      unfold fetchSheetData_start. cbn [sheetId].
      destruct (negb (JsString.truthy sid)); [auto|].
      cbn. split; [split; [discriminate|reflexivity]|].
      split; [auto|]. intros H. now contradiction H.
    + destruct req as [url|]; [|auto].
      destruct (IH2 (proj2 IH1 ltac:(discriminate))) as [-> ->].
      unfold fetchSheetData_settle.
      destruct o as [message|status csvText]; cbn.
      * split; [split; [discriminate|congruence]|].
        split; [discriminate|]. intros H. now contradiction H.
      * destruct (AnalysisPage.response_ok status); cbn.
        -- split; [split; [discriminate|congruence]|].
           split; [discriminate|]. intros _. split; [reflexivity|discriminate].
        -- split; [split; [discriminate|congruence]|].
           split; [discriminate|]. intros H. now contradiction H.
Qed.

(** Rows are on display only after a refresh that succeeded and while no
    other is in flight: with rows there is no error and no loading, and
    the loading flag is on exactly while a request is in flight. *)
Theorem rows_only_after_success (s : option string) (events : list Event) :
  let d := run s events in
  (isLoading (state d) = true <-> requested d <> None) /\
  (data (state d) <> [] ->
     error (state d) = None /\ isLoading (state d) = false
     /\ lastUpdated (state d) <> None).
Proof.
  cbv zeta. destruct (refresh_invariant s events) as (H1 & H2 & H3).
  split; [exact H1|]. intros Hd. destruct (H3 Hd) as [He Hu].
  split; [exact He|]. split; [|exact Hu].
  destruct (isLoading (state (run s events))) eqn:E; [|reflexivity].
  destruct (H2 eq_refl) as [_ F]. congruence.
Qed.

(** The sheet id a later visit starts with is the last one entered that
    was not empty: emptying the field does not forget the id. *)
Theorem stored_sheet_id (s : option string) (events : list Event) :
  sheetId (initialState (stored (run s events)))
  = last_entered (str_or s "") events.
Proof.
  cbn [initialState sheetId].
  induction events as [|ev events IH] using rev_ind; [reflexivity|].
  rewrite sheet_run_snoc. unfold last_entered in *. rewrite fold_left_app.
  cbn [fold_left]. rewrite <- IH.
  set (d := run s events). clearbody d.
  destruct ev as [v| |o now]; cbn [react stored].
  - destruct (JsString.truthy v) eqn:E; [|reflexivity].
    cbn [str_or]. now rewrite E.
  - destruct (_ || _); reflexivity.
  - destruct (requested d); reflexivity.
Qed.






End SheetFetchFacts.

(** ** The order of the drop reasons *)

Section ValueFacts.
Import JsNumber.
Local Open Scope Z_scope.

Lemma shr_1_div (mrs : shr_record) :
  0 <= shr_m mrs -> shr_m (shr_1 mrs) = shr_m mrs / 2.
Proof.
  destruct mrs as [m r s]. cbn [shr_m shr_1].
  destruct m as [|[p|p|]|p]; intros H; cbn [shr_m]; try lia; try reflexivity.
  - apply Z.div_unique with 1; lia.
  - apply Z.div_unique with 0; lia.
Qed.

Lemma iter_shr_1_div (n : positive) (mrs : shr_record) :
  0 <= shr_m mrs ->
  shr_m (SpecFloat.iter_pos shr_1 n mrs) = shr_m mrs / 2 ^ Z.pos n.
Proof.
  revert mrs. induction n as [n IH|n IH|]; intros mrs Hm; cbn [SpecFloat.iter_pos].
  - pose proof (shr_1_le mrs Hm) as [H1 _].
    pose proof (iter_shr_1_le n _ H1) as [H2 _].
    rewrite IH, IH, shr_1_div by assumption.
    assert (0 < 2 ^ Z.pos n) as Hp by (apply Z.pow_pos_nonneg; lia).
    rewrite !Z.div_div by lia.
    assert (2 ^ Z.pos n~1 = 2 * (2 ^ Z.pos n * 2 ^ Z.pos n)) as E.
    { rewrite <- Z.pow_add_r, <- Z.pow_succ_r by lia. f_equal. lia. }
    rewrite E. f_equal; lia.
  - pose proof (iter_shr_1_le n _ Hm) as [H2 _].
    rewrite IH, IH by assumption.
    assert (0 < 2 ^ Z.pos n) as Hp by (apply Z.pow_pos_nonneg; lia).
    rewrite !Z.div_div by lia.
    assert (2 ^ Z.pos n~0 = 2 ^ Z.pos n * 2 ^ Z.pos n) as E.
    { rewrite <- Z.pow_add_r by lia. f_equal. lia. }
    now rewrite E.
  - now apply shr_1_div.
Qed.

(** Truncating a positive magnitude at or above the least exponent
    leaves a positive magnitude. *)
Lemma shr_fexp_pos (m e : Z) (l : location) :
  0 < m -> -1074 <= e ->
  0 < shr_m (fst (shr_fexp prec emax m e l)) /\
  -1074 <= snd (shr_fexp prec emax m e l).
Proof.
  intros Hm He. unfold shr_fexp, shr. rewrite fexp_fexp64.
  destruct (upper_of_loc m l) as [_ Em].
  destruct m as [|p|p]; try lia. cbn [Zdigits2].
  destruct (Zdigits2_bounds p) as [Hlo Hhi].
  set (d := Z.pos (digits2_pos p)) in *.
  destruct (fexp64 (d + e) - e) as [|n|n] eqn:En; cbn [fst snd];
    try (rewrite Em; lia).
  rewrite iter_shr_1_div by (rewrite Em; lia). rewrite Em.
  unfold fexp64 in En.
  assert (Z.pos n = d - 53) as Hn by lia.
  split; [|lia].
  apply Z.div_str_pos. split; [apply Z.pow_pos_nonneg; lia|].
  eapply Z.le_trans; [|exact Hlo]. apply Z.pow_le_mono_r; lia.
Qed.

Lemma round_nearest_even_ge (m : Z) (l : location) : m <= round_nearest_even m l.
Proof. destruct l as [|[ | | ]]; cbn; try destruct (Z.even m); lia. Qed.

(** Rounding a positive magnitude at or above the least exponent gives a
    number of the sign asked for that is not zero. *)
Lemma binary_round_aux_sign (s : bool) (mx ex : Z) (lx : location) :
  0 < mx -> -1074 <= ex ->
  (exists m e, binary_round_aux prec emax s mx ex lx = S754_finite s m e) \/
  binary_round_aux prec emax s mx ex lx = S754_infinity s.
Proof.
  intros Hm He. unfold binary_round_aux.
  destruct (shr_fexp_pos mx ex lx Hm He) as [H1 E1].
  destruct (shr_fexp prec emax mx ex lx) as [mrs1 e1]. cbn [fst snd] in H1, E1.
  pose proof (round_nearest_even_ge (shr_m mrs1) (loc_of_shr_record mrs1)) as Hr.
  set (m2 := round_nearest_even _ _) in *.
  destruct (shr_fexp_pos m2 e1 loc_Exact ltac:(lia) E1) as [H2 _].
  destruct (shr_fexp prec emax m2 e1 loc_Exact) as [mrs2 e2]. cbn [fst] in H2.
  destruct (shr_m mrs2) as [|m|m]; try lia.
  destruct (e2 <=? emax - prec); [left; eauto|now right].
Qed.

Lemma iter_xO (m d : positive) : Z.pos (Pos.iter xO m d) = Z.pos m * 2 ^ Z.pos d.
Proof.
  induction d as [|d IH] using Pos.peano_ind.
  - cbn. lia.
  - rewrite Pos.iter_succ, Pos2Z.inj_xO, IH, Pos2Z.inj_succ, Z.pow_succ_r by lia.
    lia.
Qed.

Lemma shl_align_value (mx : positive) (ex ez : Z) :
  ez <= ex ->
  Z.pos (fst (shl_align mx ex ez)) = Z.pos mx * 2 ^ (ex - ez) /\
  snd (shl_align mx ex ez) = ez.
Proof.
  intros H. unfold shl_align.
  destruct (ez - ex) as [|d|d] eqn:E; cbn [fst snd]; try lia.
  - replace (ex - ez) with 0 by lia. split; lia.
  - rewrite iter_xO. replace (ex - ez) with (Z.pos d) by lia. split; reflexivity.
Qed.

Lemma shl_align_ge (mx : positive) (ex ez : Z) :
  ex <= ez -> shl_align mx ex ez = (mx, ex).
Proof.
  intros H. unfold shl_align. destruct (ez - ex) as [|d|d] eqn:E; try reflexivity. lia.
Qed.

Lemma binary_round_sign (s : bool) (m : positive) (e : Z) :
  -1074 <= e ->
  (exists m' e', binary_round prec emax s m e = S754_finite s m' e') \/
  binary_round prec emax s m e = S754_infinity s.
Proof.
  intros He. unfold binary_round. rewrite fexp_fexp64.
  set (f := fexp64 (Z.pos (digits2_pos m) + e)).
  assert (-1074 <= f) as Hf by (subst f; unfold fexp64; lia).
  destruct (Z.le_gt_cases f e) as [Hle|Hgt].
  - destruct (shl_align_value m e f Hle) as [_ Hs].
    destruct (shl_align m e f) as [mz ez]. cbn [snd] in Hs. subst ez.
    apply binary_round_aux_sign; lia.
  - rewrite shl_align_ge by lia. apply binary_round_aux_sign; lia.
Qed.

(** The sign of a sum that is normalised is the sign of the sum. *)
Lemma binary_normalize_sign (D e : Z) :
  -1074 <= e ->
  match binary_normalize prec emax D e false with
  | S754_zero _ => D = 0
  | S754_finite s _ _ | S754_infinity s => if s then D < 0 else 0 < D
  | S754_nan => False
  end.
Proof.
  intros He. unfold binary_normalize. destruct D as [|p|p]; [reflexivity| |].
  - destruct (binary_round_sign false p e He) as [(m' & e' & ->)| ->]; lia.
  - destruct (binary_round_sign true p e He) as [(m' & e' & ->)| ->]; lia.
Qed.


(** The order of valid doubles is the order of their values. *)
Lemma positive_order (m1 m2 : positive) (e1 e2 : Z) :
  valid_binary (S754_finite false m1 e1) = true ->
  valid_binary (S754_finite false m2 e2) = true ->
  (e1 < e2 \/ (e1 = e2 /\ Z.pos m1 < Z.pos m2)) <->
  Z.pos m1 * 2 ^ (e1 + 1074) < Z.pos m2 * 2 ^ (e2 + 1074).
Proof.
  intros V1 V2.
  assert (forall ma mb ea eb,
            valid_binary (S754_finite false ma ea) = true ->
            valid_binary (S754_finite false mb eb) = true ->
            ea < eb ->
            Z.pos ma * 2 ^ (ea + 1074) < Z.pos mb * 2 ^ (eb + 1074)) as Hlt.
  { intros ma mb ea eb Va Vb H.
    destruct (valid_finite _ _ _ Va) as (Ha & Hea & _).
    destruct (valid_finite _ _ _ Vb) as (_ & _ & Hb). specialize (Hb ltac:(lia)).
    assert (2 * 2 ^ (ea + 1074) <= 2 ^ (eb + 1074)) as Hp.
    { rewrite <- Z.pow_succ_r by lia. apply Z.pow_le_mono_r; lia. }
    assert (0 < 2 ^ (ea + 1074)) as Hpa by (apply Z.pow_pos_nonneg; lia).
    change (2 ^ 53) with 9007199254740992 in Ha.
    change (2 ^ 52) with 4503599627370496 in Hb.
    set (A := 2 ^ (ea + 1074)) in *. set (B := 2 ^ (eb + 1074)) in *.
    clearbody A B. clear - Ha Hb Hp Hpa. nia. }
  destruct (valid_finite _ _ _ V1) as (_ & He1 & _).
  assert (0 < 2 ^ (e1 + 1074)) as Hp1 by (apply Z.pow_pos_nonneg; lia).
  split.
  - intros [H|[-> H]]; [now apply Hlt|].
    apply Z.mul_lt_mono_pos_r; assumption.
  - intros H. destruct (Z.lt_trichotomy e1 e2) as [Hl|[He|Hg]]; [now left| |].
    + subst e2. right. split; [reflexivity|].
      apply Z.mul_lt_mono_pos_r in H; assumption.
    + pose proof (Hlt m2 m1 e2 e1 V2 V1 Hg). lia.
Qed.

Lemma valid_sign (s : bool) (m : positive) (e : Z) :
  valid_binary (S754_finite s m e) = valid_binary (S754_finite false m e).
Proof. reflexivity. Qed.

Lemma signed_mul (s : bool) (m : positive) (P : Z) :
  signed s m * P = if s then - (Z.pos m * P) else Z.pos m * P.
Proof. destruct s; cbn [signed]; [|reflexivity]. now rewrite <- Z.mul_opp_l. Qed.

Lemma units_pos (m : positive) (e : Z) :
  valid_binary (S754_finite false m e) = true -> 0 < Z.pos m * 2 ^ (e + 1074).
Proof.
  intros V. destruct (valid_finite _ _ _ V) as (_ & He & _).
  apply Z.mul_pos_pos; [lia|apply Z.pow_pos_nonneg; lia].
Qed.

Lemma order_units (x y : spec_float) :
  valid_binary x = true -> valid_binary y = true -> SFfinite x -> SFfinite y ->
  key_lt (SFkey x) (SFkey y) <-> units x < units y.
Proof.
  intros Vx Vy Fx Fy.
  destruct x as [sx|sx| |sx mx ex], y as [sy|sy| |sy my ey];
    try contradiction; cbn [SFkey units]; rewrite ?signed_mul.
  - cbn. lia.
  - rewrite valid_sign in Vy. pose proof (units_pos _ _ Vy).
    destruct sy; cbn; lia.
  - rewrite valid_sign in Vx. pose proof (units_pos _ _ Vx).
    destruct sx; cbn; lia.
  - rewrite valid_sign in Vx, Vy.
    pose proof (units_pos _ _ Vx) as Px. pose proof (units_pos _ _ Vy) as Py.
    pose proof (positive_order mx my ex ey Vx Vy) as Hxy.
    pose proof (positive_order my mx ey ex Vy Vx) as Hyx.
    set (U := Z.pos mx * 2 ^ (ex + 1074)) in *.
    set (W := Z.pos my * 2 ^ (ey + 1074)) in *. clearbody U W.
    destruct sx, sy; cbn [key_lt]; lia.
Qed.

(** The difference of two finite doubles has the sign of the difference
    of their values, and is zero only when they are equal. *)
Lemma SFsub_sign (x y : spec_float) :
  valid_binary x = true -> valid_binary y = true -> SFfinite x -> SFfinite y ->
  SFsub prec emax y x <> S754_nan /\
  (key_lt (0, 0, 0) (SFkey (SFsub prec emax y x)) <-> units x < units y).
Proof.
  intros Vx Vy Fx Fy.
  destruct x as [sx|sx| |sx mx ex], y as [sy|sy| |sy my ey];
    try contradiction; cbn [SFsub units]; rewrite ?signed_mul.
  - split; [destruct sy, sx; discriminate|].
    destruct sy, sx; cbn; lia.
  - split; [discriminate|]. rewrite valid_sign in Vy. pose proof (units_pos _ _ Vy).
    destruct sy; cbn; lia.
  - split; [discriminate|]. rewrite valid_sign in Vx. pose proof (units_pos _ _ Vx).
    destruct sx; cbn; lia.
  - rewrite valid_sign in Vx, Vy.
    destruct (valid_finite _ _ _ Vx) as (_ & Hex & _).
    destruct (valid_finite _ _ _ Vy) as (_ & Hey & _).
    set (ez := Z.min ey ex).
    assert (-1074 <= ez /\ ez <= ey /\ ez <= ex) as (Hez & Hzy & Hzx)
      by (subst ez; lia).
    clearbody ez.
    destruct (shl_align_value my ey ez Hzy) as [Ay _].
    destruct (shl_align_value mx ex ez Hzx) as [Ax _].
    set (D := cond_Zopp sy (Z.pos (fst (shl_align my ey ez)))
              - cond_Zopp sx (Z.pos (fst (shl_align mx ex ez)))).
    assert (D * 2 ^ (ez + 1074)
            = (if sy then - (Z.pos my * 2 ^ (ey + 1074))
               else Z.pos my * 2 ^ (ey + 1074))
              - (if sx then - (Z.pos mx * 2 ^ (ex + 1074))
                 else Z.pos mx * 2 ^ (ex + 1074))) as HD.
    { subst D. rewrite Ay, Ax.
      replace (ey + 1074) with ((ey - ez) + (ez + 1074)) by lia.
      replace (ex + 1074) with ((ex - ez) + (ez + 1074)) by lia.
      rewrite (Z.pow_add_r 2 (ey - ez) (ez + 1074)) by lia.
      rewrite (Z.pow_add_r 2 (ex - ez) (ez + 1074)) by lia.
      destruct sy, sx; cbn [cond_Zopp]; ring. }
    assert (0 < 2 ^ (ez + 1074)) as Hp by (apply Z.pow_pos_nonneg; lia).
    pose proof (binary_normalize_sign D ez Hez) as Hs.
    set (U := if sx then - (Z.pos mx * 2 ^ (ex + 1074))
              else Z.pos mx * 2 ^ (ex + 1074)) in *.
    set (W := if sy then - (Z.pos my * 2 ^ (ey + 1074))
              else Z.pos my * 2 ^ (ey + 1074)) in *.
    assert (0 < D <-> U < W) as Hiff.
    { set (P := 2 ^ (ez + 1074)) in *. clearbody P U W.
      clear - HD Hp. split; intros; nia. }
    rewrite <- Hiff. clearbody D.
    destruct (binary_normalize prec emax D ez false) as [s|s| |s m e];
      [| | contradiction |]; (split; [discriminate|]).
    + subst D. cbn. lia.
    + destruct s; cbn; lia.
    + destruct s; cbn; lia.
Qed.

End ValueFacts.

Section SubtractionFacts.
Import JsNumber.
Local Open Scope float_scope.

Lemma finite_SFfinite (x : number) : finite x -> SFfinite (Prim2SF x).
Proof.
  intros H. destruct (finite_SF x H) as [Hn Hi].
  destruct (Prim2SF x) as [s|s| |s m e]; cbn; auto.
  eapply Hi. reflexivity.
Qed.

(** [y - x] is above zero exactly when [x] is below [y], for finite
    doubles. *)
Lemma sub_pos_iff (x y : number) :
  finite x -> finite y ->
  PrimFloat.ltb 0 (y - x) = true <-> PrimFloat.ltb x y = true.
Proof.
  intros Fx Fy.
  pose proof (finite_SFfinite x Fx) as Sx. pose proof (finite_SFfinite y Fy) as Sy.
  destruct (finite_SF x Fx) as [Nx _]. destruct (finite_SF y Fy) as [Ny _].
  destruct (SFsub_sign _ _ (Prim2SF_valid x) (Prim2SF_valid y) Sx Sy) as [Hn Hs].
  rewrite !ltb_key, !ordered_not_nan, sub_spec.
  change (Prim2SF 0) with (S754_zero false). cbn [SFkey].
  unfold SF64sub.
  rewrite Hs, (order_units _ _ (Prim2SF_valid x) (Prim2SF_valid y) Sx Sy).
  unfold not_nan. split; [intros (_ & _ & H)|intros (_ & _ & H)]; repeat split; auto.
Qed.

End SubtractionFacts.

Section ReasonFacts.
Import JsString JsNumber AnalysisPage.
Local Open Scope float_scope.

Lemma finite_ordered (x : number) : finite x -> ordered x.
Proof. intros [_ H]. apply ltb_key in H. tauto. Qed.

Lemma ltb_not_both_eqb (a b v : number) :
  PrimFloat.ltb a b = true -> PrimFloat.eqb a v = true -> PrimFloat.eqb b v = true ->
  False.
Proof.
  rewrite ltb_key, !eqb_key. intros (_ & _ & H) (_ & _ & Ea) (_ & _ & Eb).
  rewrite Ea, Eb in H. now apply key_lt_irrefl in H.
Qed.

Lemma insert_descending (x : DropReason) (l : list DropReason) :
  finite (count x) -> Forall (fun r => finite (count r)) l ->
  descending l -> descending (JsArray.insert_sorted by_count x l).
Proof.
  intros Fx Fl. induction Fl as [|y l Fy Fl IH]; intros Hd; cbn [JsArray.insert_sorted].
  - split; [constructor|exact I].
  - destruct Hd as [Hy Hd]. unfold by_count at 1.
    destruct (PrimFloat.ltb 0 (count y - count x)) eqn:E.
    + apply (proj1 (sub_pos_iff (count x) (count y) Fx Fy)) in E.
      split; [|now apply IH].
      apply List.Forall_forall. intros c Hc. apply insert_sorted_In in Hc.
      destruct Hc as [->|Hc]; [now apply ltb_leb|].
      rewrite List.Forall_forall in Hy. now apply Hy.
    + assert (PrimFloat.ltb (count x) (count y) = false) as E'.
      { destruct (PrimFloat.ltb (count x) (count y)) eqn:E2; [|reflexivity].
        apply (proj2 (sub_pos_iff (count x) (count y) Fx Fy)) in E2. congruence. }
      apply leb_total in E'; auto using finite_ordered.
      split; [|split; assumption].
      constructor; [exact E'|].
      eapply List.Forall_impl; [|exact Hy]. intros c Hc. cbn in Hc.
      eapply leb_trans; eauto.
Qed.

Lemma insert_with_count (v : number) (x : DropReason) (l : list DropReason) :
  finite (count x) -> Forall (fun r => finite (count r)) l ->
  with_count v (JsArray.insert_sorted by_count x l) = with_count v (x :: l).
Proof.
  intros Fx Fl. unfold with_count.
  induction Fl as [|y l Fy Fl IH]; cbn [JsArray.insert_sorted]; [reflexivity|].
  unfold by_count at 1.
  destruct (PrimFloat.ltb 0 (count y - count x)) eqn:E; [|reflexivity].
  apply (proj1 (sub_pos_iff (count x) (count y) Fx Fy)) in E.
  cbn [List.filter] in *. rewrite IH.
  destruct (PrimFloat.eqb (count x) v) eqn:Ex, (PrimFloat.eqb (count y) v) eqn:Ey;
    try reflexivity.
  exfalso. eapply ltb_not_both_eqb; eauto.
Qed.

Lemma sort_by_count (l : list DropReason) :
  Forall (fun r => finite (count r)) l ->
  descending (JsArray.sort by_count l) /\
  forall v, with_count v (JsArray.sort by_count l) = with_count v l.
Proof.
  intros Fl. unfold JsArray.sort.
  induction Fl as [|x l Fx Fl [IH1 IH2]]; cbn [fold_right]; [split; [exact I|reflexivity]|].
  assert (Forall (fun r => finite (count r)) (fold_right (JsArray.insert_sorted by_count) [] l))
    as Fs.
  { apply List.Forall_forall. intros r Hr.
    apply (sort_In by_count r l) in Hr. rewrite List.Forall_forall in Fl. auto. }
  split; [now apply insert_descending|].
  intros v. rewrite insert_with_count by assumption.
  unfold with_count in *. cbn [List.filter]. now rewrite IH2.
Qed.

Lemma descending_split (n : nat) (l : list DropReason) :
  descending l ->
  forall a c, In a (firstn n l) -> In c (skipn n l) ->
    PrimFloat.leb (count c) (count a) = true.
Proof.
  revert n. induction l as [|x l IH]; intros n Hd a c Ha Hc.
  - destruct n; destruct Ha.
  - destruct n as [|n]; [destruct Ha|]. destruct Hd as [Hx Hd].
    cbn [firstn skipn] in Ha, Hc. destruct Ha as [<-|Ha].
    + rewrite List.Forall_forall in Hx. apply Hx.
      rewrite <- (firstn_skipn n l). apply in_or_app. now right.
    + eapply IH; eauto.
Qed.

(** With finite counts the drop reasons are the reasons of the payload
    in descending order of their counts, reasons with the same count in
    the order of the payload; so the first [n] shown have counts at least
    those of the others. *)
Theorem drop_reasons_by_count (X : string) (item : WebhookResponseItem) (b : bool)
    (m : DetailedMetrics) :
  normalize X (Some item) b = Some m ->
  let reasons := map drop_reason_of (default [] (drop_breakup item)) in
  Forall (fun r => finite (count r)) reasons ->
  dropReasons m ≡ₚ reasons /\
  descending (dropReasons m) /\
  (forall v, with_count v (dropReasons m) = with_count v reasons) /\
  (forall n a c, In a (firstn n (dropReasons m)) -> In c (skipn n (dropReasons m)) ->
     PrimFloat.leb (count c) (count a) = true).
Proof.
  intros Hn reasons Hfin.
  destruct (normalize_fields _ _ _ _ Hn) as (s & _ & _ & _ & _ & _ & _ & _ & _ & _ & Hr).
  fold reasons in Hr. change (fun a b => count b - count a) with by_count in Hr.
  rewrite Hr. destruct (sort_by_count reasons Hfin) as [Hd Hs].
  split; [apply sort_perm|]. split; [exact Hd|]. split; [exact Hs|].
  intros n. now apply descending_split.
Qed.

Lemma drop_reasons_by_count_witness :
  exists m, normalize "S1" (Some three_reasons_item) false = Some m /\
    map reason (dropReasons m) = ["VOLUME"; "WINDOW"; "Insufficient weight"] /\
    dropReasons m ≡ₚ map drop_reason_of three_reasons /\
    descending (dropReasons m) /\
    (forall v, with_count v (dropReasons m)
               = with_count v (map drop_reason_of three_reasons)) /\
    (forall n a c, In a (firstn n (dropReasons m)) -> In c (skipn n (dropReasons m)) ->
       PrimFloat.leb (count c) (count a) = true).
Proof.
  eexists. split; [reflexivity|]. split; [reflexivity|].
  apply (drop_reasons_by_count "S1" three_reasons_item false); [reflexivity|].
  repeat constructor.
Defined.

End ReasonFacts.

(** ** The minutes of a duration *)

Section ExactFacts.
Import JsNumber.
Local Open Scope Z_scope.

Lemma digits_unique (p : positive) (D : Z) :
  2 ^ (D - 1) <= Z.pos p < 2 ^ D -> Z.pos (digits2_pos p) = D.
Proof.
  intros [Hlo Hhi]. destruct (Zdigits2_bounds p) as [Blo Bhi].
  set (d := Z.pos (digits2_pos p)) in *.
  assert (0 < D).
  { destruct (Z.lt_ge_cases 0 D) as [|Hn]; [assumption|].
    assert (2 ^ D <= 2 ^ 0) by (destruct (Z.eq_dec D 0) as [->|];
      [reflexivity|rewrite Z.pow_neg_r by lia; cbn; lia]).
    cbn in *. lia. }
  assert (d - 1 < D).
  { apply (Z.pow_lt_mono_r_iff 2); lia. }
  assert (D - 1 < d).
  { apply (Z.pow_lt_mono_r_iff 2); lia. }
  lia.
Qed.

Lemma digits_shift (p q : positive) (n : Z) :
  0 <= n -> Z.pos q = Z.pos p * 2 ^ n ->
  Z.pos (digits2_pos q) = Z.pos (digits2_pos p) + n.
Proof.
  intros Hn Hq. apply digits_unique. destruct (Zdigits2_bounds p) as [Blo Bhi].
  set (d := Z.pos (digits2_pos p)) in *.
  assert (0 < 2 ^ n) by (apply Z.pow_pos_nonneg; lia).
  rewrite Hq.
  replace (d + n - 1) with ((d - 1) + n) by lia.
  rewrite !Z.pow_add_r by lia. split.
  - apply Z.mul_le_mono_nonneg_r; lia.
  - apply Z.mul_lt_mono_pos_r; lia.
Qed.

Lemma digits_le_53 (m : positive) : Z.pos m < 2 ^ 53 -> Z.pos (digits2_pos m) <= 53.
Proof.
  intros H. destruct (Zdigits2_bounds m) as [Blo _].
  destruct (Z.le_gt_cases (Z.pos (digits2_pos m)) 53) as [|Hgt]; [assumption|].
  assert (2 ^ 53 <= 2 ^ (Z.pos (digits2_pos m) - 1)) by (apply Z.pow_le_mono_r; lia).
  lia.
Qed.

(** A magnitude of at most 53 digits at or above the least exponent is a
    double: rounding it changes nothing. *)
Lemma binary_round_exact (s : bool) (m : positive) (e : Z) :
  Z.pos m < 2 ^ 53 -> -1074 <= e -> Z.pos (digits2_pos m) + e <= 1024 ->
  exists mz f,
    binary_round prec emax s m e = S754_finite s mz f /\
    valid_binary (S754_finite s mz f) = true /\
    f <= e /\ Z.pos mz = Z.pos m * 2 ^ (e - f).
Proof.
  intros Hm He Hmax. pose proof (digits_le_53 m Hm) as Hd.
  unfold binary_round. rewrite fexp_fexp64.
  set (d := Z.pos (digits2_pos m)) in *.
  set (f := fexp64 (d + e)).
  assert (f <= e /\ -1074 <= f /\ f <= 971) as (Hfe & Hf & Hf') by (subst f; unfold fexp64; lia).
  destruct (shl_align_value m e f Hfe) as [Hv Hs].
  destruct (shl_align m e f) as [mz ez]. cbn [fst snd] in Hv, Hs. subst ez.
  pose proof (digits_shift m mz (e - f) ltac:(lia) Hv) as Hdz. fold d in Hdz.
  assert (fexp64 (Z.pos (digits2_pos mz) + f) = f) as Hcanon.
  { rewrite Hdz. replace (d + (e - f) + f) with (d + e) by lia. reflexivity. }
  assert (shr_fexp prec emax (Z.pos mz) f loc_Exact
          = ({| shr_m := Z.pos mz; shr_r := false; shr_s := false |}, f)) as Hshr.
  { unfold shr_fexp, shr. rewrite fexp_fexp64. cbn [Zdigits2].
    rewrite Hcanon, Z.sub_diag. reflexivity. }
  exists mz, f. split; [|split; [|split]]; auto.
  - unfold binary_round_aux. rewrite Hshr. cbn [shr_m loc_of_shr_record round_nearest_even].
    rewrite Hshr. cbn [shr_m].
    destruct (Z.leb_spec f (emax - prec)) as [_|Hov]; [reflexivity|].
    unfold emax, prec in Hov. lia.
  - cbn [valid_binary]. unfold bounded, canonical_mantissa.
    rewrite fexp_fexp64, Hcanon, Z.eqb_refl. cbn [andb].
    apply Z.leb_le. unfold emax, prec. lia.
Qed.

(** The double of a whole number below [2^53] is this number. *)
Lemma of_Z_exact (k : Z) :
  0 < k < 2 ^ 53 ->
  exists mk ek,
    Prim2SF (of_Z k) = S754_finite false mk ek /\
    -1074 <= ek /\
    Z.pos mk * 2 ^ (ek + 1074) = k * 2 ^ 1074.
Proof.
  intros [Hk0 Hk]. destruct k as [|p|p]; try lia.
  pose proof (digits_le_53 p Hk) as Hd.
  destruct (binary_round_exact false p 0 Hk ltac:(lia) ltac:(lia))
    as (mz & f & Hr & Hv & Hf & Hz).
  exists mz, f. unfold of_Z. cbn [binary_normalize]. rewrite Hr.
  rewrite Prim2SF_SF2Prim by exact Hv.
  destruct (valid_finite _ _ _ Hv) as (_ & Hmin & _).
  split; [reflexivity|]. split; [exact Hmin|].
  rewrite Hz. rewrite Z.sub_0_l.
  replace 1074 with (- f + (f + 1074)) at 2 by lia.
  rewrite (Z.pow_add_r 2 (- f) (f + 1074)) by lia. ring.
Qed.

End ExactFacts.

Section DurationFacts.
Import JsNumber AnalysisPage.
Local Open Scope Z_scope.

(** A double minus its whole part is below one. *)
Lemma SFsub_floor_below (m mk : positive) (e ek k : Z) :
  valid_binary (S754_finite false m e) = true -> e < 0 ->
  k = Z.pos m / 2 ^ (- e) ->
  -1074 <= ek -> Z.pos mk < 2 ^ 53 ->
  Z.pos mk * 2 ^ (ek + 1074) = k * 2 ^ 1074 ->
  below (SFsub prec emax (S754_finite false m e) (S754_finite false mk ek)) 1 0.
Proof.
  intros V He Hk Hek Hmk Hval.
  destruct (valid_finite _ _ _ V) as (Hm & Hemin & _).
  cbn [SFsub cond_Zopp].
  set (ez := Z.min e ek).
  assert (-1074 <= ez /\ ez <= e /\ ez <= ek /\ ez < 0 /\ (ez = e \/ ez = ek))
    as (Hez & Hze & Hzk & Hz0 & Hzcase) by (subst ez; lia).
  clearbody ez.
  destruct (shl_align_value m e ez Hze) as [Am _].
  destruct (shl_align_value mk ek ez Hzk) as [Ak _].
  rewrite Am, Ak.
  set (P := 2 ^ (- e)) in *.
  assert (0 < P) as HP by (apply Z.pow_pos_nonneg; lia).
  pose proof (Z.mod_pos_bound (Z.pos m) P HP) as Hr.
  pose proof (Z.div_mod (Z.pos m) P ltac:(lia)) as Hdm.
  rewrite <- Hk in Hdm. set (r := Z.pos m mod P) in *.
  assert (2 ^ 1074 = P * 2 ^ (e + 1074)) as HT.
  { subst P. rewrite <- Z.pow_add_r by lia. f_equal. lia. }
  set (D := Z.pos m * 2 ^ (e - ez) - Z.pos mk * 2 ^ (ek - ez)).
  assert (D * 2 ^ (ez + 1074) = r * 2 ^ (e + 1074)) as HD.
  { subst D. rewrite Z.mul_sub_distr_r, <- !Z.mul_assoc, <- !Z.pow_add_r by lia.
    replace (e - ez + (ez + 1074)) with (e + 1074) by lia.
    replace (ek - ez + (ez + 1074)) with (ek + 1074) by lia.
    rewrite Hval, HT. rewrite Hdm at 1. ring. }
  assert (0 < 2 ^ (ez + 1074)) as Hpz by (apply Z.pow_pos_nonneg; lia).
  assert (0 < 2 ^ (e + 1074)) as Hpe by (apply Z.pow_pos_nonneg; lia).
  assert (0 <= D) as HD0.
  { set (A := 2 ^ (ez + 1074)) in *. set (B := 2 ^ (e + 1074)) in *.
    clearbody A B D r. clear - HD Hpz Hpe Hr. nia. }
  assert (D * 2 ^ (ez + 1074) < 2 ^ 1074) as HDlt.
  { rewrite HD, HT. apply Z.mul_lt_mono_pos_r; lia. }
  assert (D < 2 ^ (- ez)) as HDz.
  { replace 1074 with (- ez + (ez + 1074)) in HDlt at 2 by lia.
    rewrite (Z.pow_add_r 2 (- ez) (ez + 1074)) in HDlt by lia.
    apply Z.mul_lt_mono_pos_r in HDlt; assumption. }
  clearbody D. unfold binary_normalize.
  destruct D as [|pD|pD]; [left; now exists false| |lia].
  assert (Z.pos pD < 2 ^ 53) as HD53.
  { destruct Hzcase as [->| ->].
    - assert (r <= Z.pos m) by (subst r; apply Z.mod_le; lia).
      change (2 ^ 53) with 9007199254740992 in *.
      assert (Z.pos pD = r) as ->; [|lia].
      apply Z.mul_cancel_r in HD; lia.
    - assert (-52 <= ek) as Hek52.
      { assert (0 < k).
        { destruct (Z.lt_trichotomy 0 k) as [|[<-|Hn]]; [assumption| |].
          - rewrite Z.mul_0_l in Hval.
            assert (0 < Z.pos mk * 2 ^ (ek + 1074))
              by (apply Z.mul_pos_pos; [lia|apply Z.pow_pos_nonneg; lia]).
            lia.
          - assert (0 < 2 ^ 1074) by (apply Z.pow_pos_nonneg; lia).
            assert (0 < Z.pos mk * 2 ^ (ek + 1074))
              by (apply Z.mul_pos_pos; [lia|apply Z.pow_pos_nonneg; lia]).
            nia. }
        destruct (Z.le_gt_cases (-52) ek) as [|Hlt]; [assumption|exfalso].
        assert (2 ^ (ek + 1074) * 2 ^ 53 <= 2 ^ 1074) as Hpow.
        { rewrite <- Z.pow_add_r by lia. apply Z.pow_le_mono_r; lia. }
        assert (0 < 2 ^ (ek + 1074)) as Hq by (apply Z.pow_pos_nonneg; lia).
        assert (0 < 2 ^ 1074) as HT0 by (apply Z.pow_pos_nonneg; lia).
        set (Q := 2 ^ (ek + 1074)) in *. set (T := 2 ^ 1074) in *.
        change (2 ^ 53) with 9007199254740992 in *.
        clearbody Q T. clear - Hval Hmk Hpow Hq HT0 H. nia. }
      eapply Z.lt_le_trans; [exact HDz|]. apply Z.pow_le_mono_r; lia. }
  assert (Z.pos (digits2_pos pD) + ez <= 1024) as Hdig.
  { destruct (Zdigits2_bounds pD) as [Blo _].
    assert (Z.pos (digits2_pos pD) - 1 < - ez)
      by (apply (Z.pow_lt_mono_r_iff 2); lia).
    lia. }
  destruct (binary_round_exact false pD ez HD53 Hez Hdig)
    as (mz & f & -> & Hv & Hf & Hmz).
  right. exists mz, f. split; [reflexivity|]. split; [lia|].
  rewrite Z.mul_1_l, Z.sub_0_l.
  assert (Z.pos mz < 2 ^ (- f)); [|lia].
  rewrite Hmz. replace (- f) with (- ez + (ez - f)) by lia.
  rewrite Z.pow_add_r by lia.
  apply Z.mul_lt_mono_pos_r; [apply Z.pow_pos_nonneg; lia|exact HDz].
Qed.


Lemma nonneg_finite_SF (v : number) :
  PrimFloat.leb 0 v = true -> PrimFloat.ltb v infinity = true ->
  (exists s, Prim2SF v = S754_zero s) \/ exists m e, Prim2SF v = S754_finite false m e.
Proof.
  intros H0 Hfin. apply leb_key in H0. destruct H0 as (_ & Ov & K0).
  apply ltb_key in Hfin. destruct Hfin as (_ & _ & Kfin).
  change (Prim2SF 0%float) with (S754_zero false) in K0.
  change (Prim2SF infinity) with (S754_infinity false) in Kfin.
  apply ordered_not_nan in Ov. unfold not_nan in Ov. unfold key_le in K0.
  destruct (Prim2SF v) as [s|s| |s m e]; [left; eauto| |congruence|].
  - exfalso. destruct s; cbn in K0, Kfin; [|lia].
    destruct K0 as [K0|K0]; [lia|discriminate].
  - right. destruct s; [exfalso|eauto]. cbn in K0.
    destruct K0 as [K0|K0]; [lia|discriminate].
Qed.

Lemma fraction_below (v : number) :
  PrimFloat.leb 0 v = true -> PrimFloat.ltb v infinity = true ->
  below (Prim2SF (v - Math_floor v)%float) 1 0.
Proof.
  intros H0 Hfin. rewrite sub_spec. unfold SF64sub.
  pose proof (Prim2SF_valid v) as V.
  destruct (nonneg_finite_SF v H0 Hfin) as [[s E]|(m & e & E)].
  - unfold Math_floor. rewrite E. rewrite E. left.
    destruct s; eexists; reflexivity.
  - rewrite E in V. destruct (Z.leb_spec 0 e) as [He|He].
    + unfold Math_floor. rewrite E.
      destruct (Z.leb_spec 0 e) as [_|]; [|lia]. rewrite E.
      cbn [SFsub cond_Zopp]. rewrite Z.sub_diag. left. now exists false.
    + rewrite (Math_floor_exact v false m e E He). cbn [signed].
      destruct (valid_finite _ _ _ V) as (Hm & Hemin & _).
      set (k := Z.pos m / 2 ^ (- e)).
      assert (0 < 2 ^ (- e)) as HP by (apply Z.pow_pos_nonneg; lia).
      assert (0 <= k) as Hk0 by (apply Z.div_pos; lia).
      assert (k <= Z.pos m) as Hkm.
      { subst k. apply Z.div_le_upper_bound; [assumption|].
        assert (1 <= 2 ^ (- e)) by lia. nia. }
      destruct (Z.eq_dec k 0) as [Hz|Hnz].
      * rewrite Hz. change (Prim2SF (of_Z 0)) with (S754_zero false).
        rewrite E. cbn [SFsub]. right. exists m, e.
        split; [reflexivity|]. split; [lia|].
        rewrite Z.mul_1_l, Z.sub_0_l.
        subst k. apply Z.div_small_iff in Hz; lia.
      * destruct (of_Z_exact k ltac:(lia)) as (mk & ek & Ek & Hek & Hval).
        pose proof (Prim2SF_valid (of_Z k)) as Vk. rewrite Ek in Vk.
        destruct (valid_finite _ _ _ Vk) as (Hmk & _ & _).
        rewrite E, Ek. now apply (SFsub_floor_below m mk e ek k).
Qed.

Lemma SFmul_60_below (x : spec_float) :
  below x 1 0 -> below (SFmul prec emax x (S754_finite false m60 (-47))) 15 2.
Proof.
  intros [[s ->]|(m & e & -> & He & Hm)].
  - left. eexists. reflexivity.
  - cbn [SFmul xorb]. rewrite Z.mul_1_l, Z.sub_0_l in Hm.
    assert (upper_loc (Z.pos (m * m60)) loc_Exact <= 15 * 2 ^ (2 - (e + -47)))
      as Hup.
    { unfold upper_loc. rewrite Z.add_0_r.
      replace (2 - (e + -47)) with (49 + - e) by lia.
      rewrite Z.pow_add_r by lia. rewrite Pos2Z.inj_mul.
      change (Z.pos m60) with (15 * 2 ^ 49).
      set (P := 2 ^ (- e)) in *. set (c := 2 ^ 49).
      assert (0 < c) by reflexivity. clearbody P c.
      clear - Hm H. nia. }
    apply (binary_round_aux_below _ _ _ 2 6 15);
      [lia | lia | lia | unfold fexp64; lia | lia | reflexivity | exact Hup].
Qed.

Lemma minutes_table (n : Z) : 1 <= n <= 60 -> minute_ok n = true.
Proof.
  intros H.
  assert (forallb minute_ok (map Z.of_nat (seq 1 60)) = true) as T
    by (vm_compute; reflexivity).
  rewrite forallb_forall in T. apply T.
  apply in_map_iff. exists (Z.to_nat n). split; [lia|]. apply in_seq. lia.
Qed.

Lemma zero_in_range (p : number) (s : bool) :
  Prim2SF p = S754_zero s ->
  PrimFloat.leb 0 p = true /\ PrimFloat.leb p 60 = true.
Proof.
  intros E. rewrite !leb_key, !ordered_not_nan, E. unfold not_nan.
  change (Prim2SF 0%float) with (S754_zero false).
  change (Prim2SF 60%float) with (S754_finite false m60 (-47)).
  repeat split; try discriminate; [now right|left; cbn; lia].
Qed.

(** The nearest whole number to a double from 0 to 60 is from 0 to 60. *)
Lemma round_in_range (p : number) :
  below (Prim2SF p) 15 2 ->
  PrimFloat.leb 0 (Math_round p) = true /\ PrimFloat.leb (Math_round p) 60 = true.
Proof.
  intros [[s E]|(m & e & E & He & Hm)].
  - unfold Math_round. rewrite E. now apply (zero_in_range p s).
  - pose proof (Prim2SF_valid p) as V. rewrite E in V.
    destruct (valid_finite _ _ _ V) as (_ & Hemin & Hnorm).
    destruct (Z.leb_spec 0 e) as [He0|He0].
    { exfalso. specialize (Hnorm ltac:(lia)).
      assert (2 ^ (2 - e) <= 2 ^ 2) by (apply Z.pow_le_mono_r; lia).
      change (2 ^ 2) with 4 in *. change (2 ^ 52) with 4503599627370496 in *.
      set (Q := 2 ^ (2 - e)) in *. clearbody Q. lia. }
    rewrite (Math_round_exact p false m e E He0). cbn [signed]. cbv zeta.
    set (n := (2 * Z.pos m + 2 ^ (- e)) / 2 ^ (1 - e)).
    assert (0 <= n <= 60) as Hn.
    { subst n.
      assert (0 < 2 ^ (- e)) as HP by (apply Z.pow_pos_nonneg; lia).
      assert (2 ^ (1 - e) = 2 * 2 ^ (- e)) as E1.
      { replace (1 - e) with (Z.succ (- e)) by lia. apply Z.pow_succ_r. lia. }
      assert (2 ^ (2 - e) = 4 * 2 ^ (- e)) as E2.
      { replace (2 - e) with (2 + - e) by lia. rewrite Z.pow_add_r by lia.
        reflexivity. }
      rewrite E1. rewrite E2 in Hm.
      set (P := 2 ^ (- e)) in *. clearbody P. split.
      - apply Z.div_pos; lia.
      - apply Z.lt_succ_r. apply Z.div_lt_upper_bound; lia. }
    destruct (Z.eqb_spec n 0) as [Hz|Hnz].
    + now apply (zero_in_range 0%float false).
    + pose proof (minutes_table n ltac:(lia)) as T. unfold minute_ok in T.
      apply andb_prop in T. exact T.
Qed.

(** For a duration that is a finite number, not negative, the minutes
    shown are a number from 0 to 60; they are 60, not 0 of the next hour,
    when the fraction of the hour rounds up to the full hour: 1.9999
    hours are shown as 1h 60m. *)
Theorem minutes_up_to_sixty (v : number) :
  PrimFloat.leb 0 v = true -> PrimFloat.ltb v Infinity = true ->
  PrimFloat.leb 0 (minutes_of v) = true /\
  PrimFloat.leb (minutes_of v) 60 = true /\
  minutes_of 1.9999%float = 60%float /\
  formatHoursToHHMM 1.9999%float = "1h 60m".
Proof.
  intros H0 Hfin.
  assert (PrimFloat.leb 0 (minutes_of v) = true
          /\ PrimFloat.leb (minutes_of v) 60 = true) as [H1 H2].
  { unfold minutes_of, hours_of. apply round_in_range.
    rewrite mul_spec. unfold SF64mul.
    change (Prim2SF 60%float) with (S754_finite false m60 (-47)).
    apply SFmul_60_below. now apply fraction_below. }
  split; [exact H1|]. split; [exact H2|]. split; vm_compute; reflexivity.
Qed.

Lemma minutes_up_to_sixty_witness :
  PrimFloat.leb 0 (minutes_of 2.11%float) = true /\
  PrimFloat.leb (minutes_of 2.11%float) 60 = true /\
  minutes_of 1.9999%float = 60%float /\
  formatHoursToHHMM 1.9999%float = "1h 60m".
Proof. apply (minutes_up_to_sixty 2.11%float); reflexivity. Defined.

End DurationFacts.

(** * Exact values, records and averages *)

Section WholeFacts.
Import JsNumber.
Local Open Scope Z_scope.

Lemma SFfinite_finite (x : number) : SFfinite (Prim2SF x) -> finite x.
Proof.
  intros H. unfold finite. rewrite !ltb_key, !ordered_not_nan.
  change (Prim2SF neg_infinity) with (S754_infinity true).
  change (Prim2SF infinity) with (S754_infinity false).
  unfold not_nan.
  destruct (Prim2SF x) as [s|s| |s m e]; try contradiction; cbn [SFkey key_lt];
    repeat split; try discriminate; try (left; lia).
  - destruct s; cbn [key_lt]; left; lia.
  - destruct s; cbn [key_lt]; left; lia.
Qed.

Lemma pow1074_pos : 0 < 2 ^ 1074.
Proof. apply Z.pow_pos_nonneg; lia. Qed.

Lemma Qfloor_value (x : number) :
  Qfloor (value x) = units (Prim2SF x) / 2 ^ 1074.
Proof. unfold value. symmetry. apply Zdiv_Qdiv. Qed.

Lemma Qfloor_value_half (x : number) :
  Qfloor (value x + (1 # 2)) = (2 * units (Prim2SF x) + 2 ^ 1074) / 2 ^ 1075.
Proof.
  rewrite Zdiv_Qdiv. apply Qfloor_comp. unfold value.
  pose proof pow1074_pos as HT.
  change (2 ^ 1075) with (2 * 2 ^ 1074).
  set (T := 2 ^ 1074) in *. set (u := units (Prim2SF x)). clearbody T u.
  rewrite inject_Z_plus, !inject_Z_mult.
  assert (~ (inject_Z T == 0)%Q) as HT0.
  { intros E. apply (Qeq_bool_neq (inject_Z T) 0); [|exact E].
    unfold Qeq_bool. cbn. apply Z.eqb_neq. lia. }
  field. exact HT0.
Qed.

Lemma whole_units (x : number) (n : Z) :
  SFfinite (Prim2SF x) -> units (Prim2SF x) = n * 2 ^ 1074 -> whole x n.
Proof.
  intros Hf Hu. split; [now apply SFfinite_finite|].
  unfold value. rewrite Hu. pose proof pow1074_pos as HT.
  set (T := 2 ^ 1074) in *. clearbody T.
  rewrite inject_Z_mult.
  assert (~ (inject_Z T == 0)%Q) as HT0.
  { intros E. apply (Qeq_bool_neq (inject_Z T) 0); [|exact E].
    unfold Qeq_bool. cbn. apply Z.eqb_neq. lia. }
  field. exact HT0.
Qed.


(** The double of a whole number of magnitude below [2^53] is this
    number. *)
Lemma of_Z_units (k : Z) :
  - 2 ^ 53 < k < 2 ^ 53 ->
  SFfinite (Prim2SF (of_Z k)) /\ units (Prim2SF (of_Z k)) = k * 2 ^ 1074.
Proof.
  intros Hk. unfold of_Z.
  assert (forall s p, Z.pos p < 2 ^ 53 ->
            SFfinite (Prim2SF (SF2Prim (binary_round prec emax s p 0))) /\
            units (Prim2SF (SF2Prim (binary_round prec emax s p 0)))
            = signed s p * 2 ^ 1074) as G.
  { intros s p Hp. pose proof (digits_le_53 p Hp) as Hd.
    destruct (binary_round_exact s p 0 Hp ltac:(lia) ltac:(lia))
      as (mz & f & Hr & Hv & Hf & Hz).
    rewrite Hr, Prim2SF_SF2Prim by exact Hv. split; [exact I|].
    cbn [units]. rewrite valid_sign in Hv.
    destruct (valid_finite _ _ _ Hv) as (_ & Hmin & _).
    assert (Z.pos mz * 2 ^ (f + 1074) = Z.pos p * 2 ^ 1074) as Hval.
    { rewrite Hz, Z.sub_0_l, <- Z.mul_assoc, <- Z.pow_add_r by lia.
      do 2 f_equal. lia. }
    rewrite !signed_mul, Hval. reflexivity. }
  destruct k as [|p|p]; cbn [binary_normalize].
  - split; [exact I|reflexivity].
  - apply (G false p). lia.
  - apply (G true p). lia.
Qed.

(** [Math.floor] of a finite double is the floor of its value. *)
Lemma floor_units (v : number) :
  SFfinite (Prim2SF v) ->
  SFfinite (Prim2SF (Math_floor v)) /\
  units (Prim2SF (Math_floor v)) = units (Prim2SF v) / 2 ^ 1074 * 2 ^ 1074.
Proof.
  intros Hf. pose proof (Prim2SF_valid v) as V. pose proof pow1074_pos as HT.
  destruct (Prim2SF v) as [s|s| |s m e] eqn:E; try contradiction.
  - unfold Math_floor. rewrite E, E. split; [exact I|reflexivity].
  - rewrite valid_sign in V. destruct (valid_finite _ _ _ V) as (Hm & Hemin & _).
    destruct (Z.leb_spec 0 e) as [He|He].
    + unfold Math_floor. rewrite E. destruct (Z.leb_spec 0 e) as [_|]; [|lia].
      rewrite E. split; [exact I|]. cbn [units].
      rewrite Z.pow_add_r, Z.mul_assoc by lia. now rewrite Z.div_mul by lia.
    + rewrite (Math_floor_exact v s m e E He).
      set (k := signed s m / 2 ^ (- e)).
      assert (0 < 2 ^ (- e)) as HP by (apply Z.pow_pos_nonneg; lia).
      assert (- 2 ^ 53 < k < 2 ^ 53) as Hk.
      { subst k. assert (- 2 ^ 53 < signed s m < 2 ^ 53) as Hs
          by (destruct s; cbn [signed]; lia).
        assert (2 <= 2 ^ (- e)).
        { change 2 with (2 ^ 1) at 1. apply Z.pow_le_mono_r; lia. }
        split.
        - apply Z.lt_le_trans with (- 2 ^ 53 + 1); [lia|].
          apply Z.div_le_lower_bound; [lia|].
          change (2 ^ 53) with 9007199254740992 in *.
          set (P := 2 ^ (- e)) in *. clearbody P. clear - Hs H. nia.
        - apply Z.div_lt_upper_bound; [lia|].
          change (2 ^ 53) with 9007199254740992 in *.
          set (P := 2 ^ (- e)) in *. clearbody P. clear - Hs H. nia. }
      destruct (of_Z_units k Hk) as [Hfin Hu]. split; [exact Hfin|].
      rewrite Hu. f_equal. cbn [units]. subst k.
      assert (2 ^ 1074 = 2 ^ (- e) * 2 ^ (e + 1074)) as ->.
      { rewrite <- Z.pow_add_r by lia. f_equal. lia. }
      rewrite Z.div_mul_cancel_r; [reflexivity|lia|].
      apply Z.pow_nonzero; lia.
Qed.

(** [Math.round] of a finite double is the floor of its value plus one
    half. *)
Lemma round_units (p : number) :
  SFfinite (Prim2SF p) ->
  SFfinite (Prim2SF (Math_round p)) /\
  units (Prim2SF (Math_round p))
  = (2 * units (Prim2SF p) + 2 ^ 1074) / 2 ^ 1075 * 2 ^ 1074.
Proof.
  intros Hf. pose proof (Prim2SF_valid p) as V. pose proof pow1074_pos as HT.
  destruct (Prim2SF p) as [s|s| |s m e] eqn:E; try contradiction.
  - unfold Math_round. rewrite E, E. split; [exact I|reflexivity].
  - rewrite valid_sign in V. destruct (valid_finite _ _ _ V) as (Hm & Hemin & _).
    destruct (Z.leb_spec 0 e) as [He|He].
    + unfold Math_round. rewrite E. destruct (Z.leb_spec 0 e) as [_|]; [|lia].
      rewrite E. split; [exact I|]. cbn [units].
      rewrite Z.pow_add_r, Z.mul_assoc by lia.
      set (N := signed s m * 2 ^ e). change (2 ^ 1075) with (2 * 2 ^ 1074).
      set (T := 2 ^ 1074) in *. clearbody T N.
      replace (2 * (N * T) + T) with (T + (2 * N) * T) by ring.
      assert ((T + 2 * N * T) / (2 * T) = N) as ->; [|reflexivity].
      symmetry. apply (Z.div_unique _ _ N T); [lia|ring].
    + pose proof (Math_round_exact p s m e E He) as Hr. cbv zeta in Hr.
      set (n := (2 * signed s m + 2 ^ (- e)) / 2 ^ (1 - e)) in *.
      assert (0 < 2 ^ (- e)) as HP by (apply Z.pow_pos_nonneg; lia).
      assert (2 ^ (1 - e) = 2 * 2 ^ (- e)) as E1.
      { replace (1 - e) with (Z.succ (- e)) by lia. apply Z.pow_succ_r. lia. }
      assert ((2 * units (Prim2SF p) + 2 ^ 1074) / 2 ^ 1075 = n) as Hn.
      { rewrite E. cbn [units]. subst n. rewrite E1.
        change (2 ^ 1075) with (2 * 2 ^ 1074).
        assert (2 ^ 1074 = 2 ^ (- e) * 2 ^ (e + 1074)) as ->.
        { rewrite <- Z.pow_add_r by lia. f_equal. lia. }
        set (P := 2 ^ (- e)) in *. set (W := 2 ^ (e + 1074)).
        assert (0 < W) by (subst W; apply Z.pow_pos_nonneg; lia).
        replace (2 * (signed s m * W) + P * W) with ((2 * signed s m + P) * W) by ring.
        replace (2 * (P * W)) with ((2 * P) * W) by ring.
        apply Z.div_mul_cancel_r; lia. }
      rewrite <- E, Hn. rewrite Hr.
      assert (- 2 ^ 53 < n < 2 ^ 53) as Hk.
      { subst n. rewrite E1.
        assert (- 2 ^ 53 < signed s m < 2 ^ 53) as Hs
          by (destruct s; cbn [signed]; lia).
        assert (2 <= 2 ^ (- e)).
        { change 2 with (2 ^ 1) at 1. apply Z.pow_le_mono_r; lia. }
        split.
        - apply Z.lt_le_trans with (- 2 ^ 53 + 1); [lia|].
          apply Z.div_le_lower_bound; [lia|].
          change (2 ^ 53) with 9007199254740992 in *.
          set (P := 2 ^ (- e)) in *. clearbody P. clear - Hs H. nia.
        - apply Z.div_lt_upper_bound; [lia|].
          change (2 ^ 53) with 9007199254740992 in *.
          set (P := 2 ^ (- e)) in *. clearbody P. clear - Hs H. nia. }
      destruct (Z.eqb_spec n 0) as [Hz|Hnz].
      * rewrite Hz. destruct s; split; try exact I; reflexivity.
      * apply (of_Z_units n Hk).
Qed.

End WholeFacts.

Section FractionFacts.
Import JsNumber AnalysisPage.
Local Open Scope Z_scope.

(** Rounding a positive magnitude that is at most one gives at most
    one. *)
Lemma binary_normalize_below_one (D ez : Z) :
  -1074 <= ez -> ez <= 0 -> 0 < D <= 2 ^ (- ez) ->
  below (binary_normalize prec emax D ez false) 1 0.
Proof.
  intros Hez Hz0 [HD0 HD]. destruct D as [|p|p]; try lia.
  cbn [binary_normalize]. unfold binary_round.
  set (f := fexp prec emax (Z.pos (digits2_pos p) + ez)).
  assert (exists mz ez', shl_align p ez f = (mz, ez') /\ -1074 <= ez' /\ ez' <= ez
            /\ Z.pos mz = Z.pos p * 2 ^ (ez - ez')) as (mz & ez' & -> & Hm' & Hle & Hv).
  { destruct (Z.le_gt_cases f ez) as [Hf|Hf].
    - destruct (shl_align_value p ez f Hf) as [Hv Hs].
      destruct (shl_align p ez f) as [mz ez']. cbn [fst snd] in Hv, Hs. subst ez'.
      exists mz, f. split; [reflexivity|]. split; [|split; [exact Hf|exact Hv]].
      subst f. rewrite fexp_fexp64. unfold fexp64. lia.
    - rewrite shl_align_ge by lia. exists p, ez. split; [reflexivity|].
      split; [exact Hez|]. split; [lia|]. rewrite Z.sub_diag. lia. }
  apply (binary_round_aux_below _ _ _ 0 1 1);
    [lia | lia | lia | unfold fexp64; lia | lia | reflexivity |].
  unfold upper_loc. rewrite Z.add_0_r, Z.mul_1_l, Z.sub_0_l, Hv.
  replace (- ez') with (- ez + (ez - ez')) by lia.
  rewrite Z.pow_add_r by lia.
  apply Z.mul_le_mono_nonneg_r; [apply Z.pow_nonneg; lia|exact HD].
Qed.

Lemma cond_Zopp_signed (s : bool) (p : positive) :
  cond_Zopp s (Z.pos p) = signed s p.
Proof. destruct s; reflexivity. Qed.

Lemma signed_shl (s : bool) (m mz : positive) (a : Z) :
  Z.pos mz = Z.pos m * a -> signed s mz = signed s m * a.
Proof.
  intros H. rewrite signed_mul. destruct s; cbn [signed]; lia.
Qed.

(** A double minus its whole part is from zero to one. *)
Lemma SFsub_fraction_below (s sk : bool) (m mk : positive) (e ek k : Z) :
  valid_binary (S754_finite s m e) = true -> e < 0 ->
  k = signed s m / 2 ^ (- e) -> -1074 <= ek ->
  signed sk mk * 2 ^ (ek + 1074) = k * 2 ^ 1074 ->
  below (SFsub prec emax (S754_finite s m e) (S754_finite sk mk ek)) 1 0.
Proof.
  intros V He Hk Hek Hval. rewrite valid_sign in V.
  destruct (valid_finite _ _ _ V) as (Hm & Hemin & _).
  cbn [SFsub]. rewrite !cond_Zopp_signed.
  set (ez := Z.min e ek).
  assert (-1074 <= ez /\ ez <= e /\ ez <= ek /\ ez < 0)
    as (Hez & Hze & Hzk & Hz0) by (subst ez; lia).
  clearbody ez.
  destruct (shl_align_value m e ez Hze) as [Am _].
  destruct (shl_align_value mk ek ez Hzk) as [Ak _].
  rewrite (signed_shl s _ _ _ Am), (signed_shl sk _ _ _ Ak).
  set (P := 2 ^ (- e)) in *.
  assert (0 < P) as HP by (apply Z.pow_pos_nonneg; lia).
  pose proof (Z.mod_pos_bound (signed s m) P HP) as Hr.
  pose proof (Z.div_mod (signed s m) P ltac:(lia)) as Hdm.
  rewrite <- Hk in Hdm. set (r := signed s m mod P) in *.
  assert (2 ^ 1074 = P * 2 ^ (e + 1074)) as HT.
  { subst P. rewrite <- Z.pow_add_r by lia. f_equal. lia. }
  set (D := signed s m * 2 ^ (e - ez) - signed sk mk * 2 ^ (ek - ez)).
  assert (D * 2 ^ (ez + 1074) = r * 2 ^ (e + 1074)) as HD.
  { subst D. rewrite Z.mul_sub_distr_r, <- !Z.mul_assoc, <- !Z.pow_add_r by lia.
    replace (e - ez + (ez + 1074)) with (e + 1074) by lia.
    replace (ek - ez + (ez + 1074)) with (ek + 1074) by lia.
    rewrite Hval, HT. rewrite Hdm at 1. ring. }
  assert (0 < 2 ^ (ez + 1074)) as Hpz by (apply Z.pow_pos_nonneg; lia).
  assert (0 < 2 ^ (e + 1074)) as Hpe by (apply Z.pow_pos_nonneg; lia).
  assert (0 <= D) as HD0.
  { set (A := 2 ^ (ez + 1074)) in *. set (B := 2 ^ (e + 1074)) in *.
    clearbody A B D r. clear - HD Hpz Hpe Hr. nia. }
  assert (D * 2 ^ (ez + 1074) < 2 ^ 1074) as HDlt.
  { rewrite HD, HT. apply Z.mul_lt_mono_pos_r; lia. }
  assert (D < 2 ^ (- ez)) as HDz.
  { replace 1074 with (- ez + (ez + 1074)) in HDlt at 2 by lia.
    rewrite (Z.pow_add_r 2 (- ez) (ez + 1074)) in HDlt by lia.
    apply Z.mul_lt_mono_pos_r in HDlt; assumption. }
  clearbody D. destruct (Z.eq_dec D 0) as [->|Hnz].
  - left. now exists false.
  - apply binary_normalize_below_one; lia.
Qed.

Lemma fraction_below_one (v : number) :
  SFfinite (Prim2SF v) -> below (Prim2SF (v - Math_floor v)%float) 1 0.
Proof.
  intros Hf. rewrite sub_spec. unfold SF64sub.
  pose proof (Prim2SF_valid v) as V.
  destruct (Prim2SF v) as [s|s| |s m e] eqn:E; try contradiction.
  - unfold Math_floor. rewrite E. rewrite E. left.
    destruct s; eexists; reflexivity.
  - pose proof V as V'. rewrite valid_sign in V'.
    destruct (valid_finite _ _ _ V') as (Hm & Hemin & _).
    destruct (Z.leb_spec 0 e) as [He|He].
    + unfold Math_floor. rewrite E.
      destruct (Z.leb_spec 0 e) as [_|]; [|lia]. rewrite E.
      cbn [SFsub]. rewrite Z.sub_diag. left. now exists false.
    + assert (SFfinite (Prim2SF v)) as Hfv by (rewrite E; exact I).
      destruct (floor_units v Hfv) as [Hff Hu].
      rewrite (Math_floor_exact v s m e E He) in *.
      set (k := signed s m / 2 ^ (- e)) in *.
      assert (units (Prim2SF v) / 2 ^ 1074 = k) as Hk.
      { rewrite E. cbn [units]. subst k.
        assert (2 ^ 1074 = 2 ^ (- e) * 2 ^ (e + 1074)) as ->.
        { rewrite <- Z.pow_add_r by lia. f_equal. lia. }
        rewrite Z.div_mul_cancel_r; [reflexivity| |]; apply Z.pow_nonzero; lia. }
      rewrite Hk in Hu.
      pose proof (Prim2SF_valid (of_Z k)) as Vk.
      destruct (Prim2SF (of_Z k)) as [sk|sk| |sk mk ek] eqn:Ek; try contradiction.
      * (* the whole part is zero *)
        cbn [units] in Hu. cbn [SFsub].
        assert (k = 0) as Hk0.
        { pose proof pow1074_pos. destruct (Z.eq_dec k 0); [assumption|nia]. }
        assert (0 < 2 ^ (- e)) as HP by (apply Z.pow_pos_nonneg; lia).
        subst k. apply Z.div_small_iff in Hk0; [|lia].
        destruct Hk0 as [Hk0|Hk0]; [|lia].
        destruct s; cbn [signed] in Hk0; [lia|].
        right. exists m, e. split; [reflexivity|]. split; [lia|].
        rewrite Z.mul_1_l, Z.sub_0_l. lia.
      * rewrite valid_sign in Vk. destruct (valid_finite _ _ _ Vk) as (_ & Hekmin & _).
        apply (SFsub_fraction_below s sk m mk e ek k V He eq_refl Hekmin).
        exact Hu.
Qed.

Lemma below_SFfinite (x : spec_float) (k g : Z) : below x k g -> SFfinite x.
Proof. intros [[s ->]|(m & e & -> & _)]; exact I. Qed.

End FractionFacts.

Section FormatFacts.
Import JsString JsNumber AnalysisPage.
Local Open Scope Z_scope.

Lemma below_60_units (x : spec_float) :
  below x 15 2 -> 0 <= units x <= 60 * 2 ^ 1074.
Proof.
  pose proof pow1074_pos as HT.
  intros [[s ->]|(m & e & -> & He & Hm)]; cbn [units signed]; [lia|].
  split; [apply Z.mul_nonneg_nonneg; [lia|apply Z.pow_nonneg; lia]|].
  destruct (Z.le_gt_cases (-1074) e) as [Hmin|Hmin].
  - assert (60 * 2 ^ 1074 = 15 * 2 ^ (2 - e) * 2 ^ (e + 1074)) as ->.
    { rewrite <- Z.mul_assoc, <- Z.pow_add_r by lia.
      replace (2 - e + (e + 1074)) with (2 + 1074) by lia.
      rewrite (Z.pow_add_r 2 2 1074) by lia. ring. }
    apply Z.mul_le_mono_nonneg_r; [apply Z.pow_nonneg; lia|exact Hm].
  - rewrite (Z.pow_neg_r 2 (e + 1074)) by lia. lia.
Qed.

(** The decimals of the whole numbers from 1 to 60. *)
Lemma minute_digits (n : Z) :
  1 <= n <= 60 -> Number_toString (of_Z n) = decimal n.
Proof.
  intros H.
  assert (forallb (fun n => String.eqb (Number_toString (of_Z n)) (decimal n))
            (map Z.of_nat (seq 1 60)) = true) as T by (vm_compute; reflexivity).
  rewrite forallb_forall in T. apply String.eqb_eq. apply T.
  apply in_map_iff. exists (Z.to_nat n). split; [lia|]. apply in_seq. lia.
Qed.

(** The minutes are printed as the decimal of the nearest whole
    number. *)
Lemma minutes_decimal (p : number) :
  below (Prim2SF p) 15 2 ->
  Number_toString (Math_round p)
  = decimal ((2 * units (Prim2SF p) + 2 ^ 1074) / 2 ^ 1075).
Proof.
  intros Hb. pose proof (below_60_units _ Hb) as Hu.
  pose proof pow1074_pos as HT.
  assert (0 <= (2 * units (Prim2SF p) + 2 ^ 1074) / 2 ^ 1075 <= 60) as Hn.
  { change (2 ^ 1075) with (2 * 2 ^ 1074).
    set (T := 2 ^ 1074) in *. set (u := units (Prim2SF p)) in *. clearbody T u.
    split.
    - apply Z.div_pos; lia.
    - apply Z.lt_succ_r. apply Z.div_lt_upper_bound; lia. }
  assert (SFfinite (Prim2SF p)) as Hf by (eapply below_SFfinite; eauto).
  destruct (round_units p Hf) as [Hrf Hru].
  set (n := (2 * units (Prim2SF p) + 2 ^ 1074) / 2 ^ 1075) in *. clearbody n.
  pose proof (Prim2SF_valid p) as V.
  destruct Hb as [[s E]|(m & e & E & He & Hm)].
  - unfold Math_round in *. rewrite E in *. rewrite E in Hru.
    cbn [units] in Hru. assert (n = 0) as -> by nia.
    unfold Number_toString. now rewrite E.
  - rewrite E in V. destruct (valid_finite _ _ _ V) as (_ & Hemin & Hnorm).
    destruct (Z.leb_spec 0 e) as [He0|He0].
    { exfalso. specialize (Hnorm ltac:(lia)).
      assert (2 ^ (2 - e) <= 2 ^ 2) by (apply Z.pow_le_mono_r; lia).
      change (2 ^ 2) with 4 in *. change (2 ^ 52) with 4503599627370496 in *.
      set (Q := 2 ^ (2 - e)) in *. clearbody Q. lia. }
    pose proof (Math_round_exact p false m e E He0) as Hr. cbv zeta in Hr.
    set (n' := (2 * signed false m + 2 ^ (- e)) / 2 ^ (1 - e)) in *.
    rewrite Hr in *.
    destruct (Z.eqb_spec n' 0) as [Hz|Hnz].
    + change (Prim2SF PrimFloat.zero) with (S754_zero false) in Hru.
      cbn [units] in Hru. assert (n = 0) as -> by nia. reflexivity.
    + assert (- 2 ^ 53 < n' < 2 ^ 53) as Hk.
      { assert (SFfinite (Prim2SF (of_Z n'))) by exact Hrf.
        subst n'. cbn [signed].
        destruct (valid_finite _ _ _ V) as (Hm53 & _ & _).
        assert (0 < 2 ^ (- e)) as HP by (apply Z.pow_pos_nonneg; lia).
        assert (2 ^ (1 - e) = 2 * 2 ^ (- e)) as ->.
        { replace (1 - e) with (Z.succ (- e)) by lia. apply Z.pow_succ_r. lia. }
        change (2 ^ 53) with 9007199254740992 in *.
        set (P := 2 ^ (- e)) in *. clearbody P. split.
        - apply Z.lt_le_trans with 0; [lia|]. apply Z.div_pos; lia.
        - apply Z.div_lt_upper_bound; [lia|]. clear - Hm53 HP. nia. }
      destruct (of_Z_units n' Hk) as [_ Hu'].
      assert (n' = n) as Hnn by (rewrite Hu' in Hru; nia).
      rewrite Hnn in *. apply minute_digits. lia.
Qed.

(** C9: for a finite duration [v] the hours are the floor of [v], the
    minutes are [(v - hours) * 60] rounded to the nearest whole number, a
    tie going up, and the text is the hours, "h ", the minutes and "m",
    the minutes in decimal digits; [NaN] gives zero hours and zero
    minutes; 2.11 hours are 2h 7m; an infinite duration has itself as
    hours and [NaN] minutes. *)
Theorem format_duration (v : number) :
  (isNaN v = true -> formatHoursToHHMM v = "0h 0m") /\
  (finite v ->
     exists h mn : number,
       whole h (Qfloor (value v)) /\
       finite ((v - h) * 60)%float /\
       whole mn (Qfloor (value ((v - h) * 60)%float + (1 # 2))) /\
       Number_toString mn
       = decimal (Qfloor (value ((v - h) * 60)%float + (1 # 2))) /\
       formatHoursToHHMM v
       = Number_toString h +:+ "h " +:+ Number_toString mn +:+ "m") /\
  formatHoursToHHMM NaN = "0h 0m" /\
  formatHoursToHHMM 2.11%float = "2h 7m" /\
  formatHoursToHHMM infinity = "Infinityh NaNm" /\
  formatHoursToHHMM neg_infinity = "-Infinityh NaNm".
Proof.
  split; [|split; [|repeat split; vm_compute; reflexivity]].
  - intros H. unfold formatHoursToHHMM. now rewrite H.
  - intros Hfin. exists (Math_floor v), (Math_round ((v - Math_floor v) * 60)%float).
    pose proof (finite_SFfinite v Hfin) as Hf.
    destruct (floor_units v Hf) as [Hff Hfu].
    assert (below (Prim2SF ((v - Math_floor v) * 60)%float) 15 2) as Hb.
    { rewrite mul_spec. unfold SF64mul.
      change (Prim2SF 60%float) with (S754_finite false m60 (-47)).
      apply SFmul_60_below. now apply fraction_below_one. }
    pose proof (below_SFfinite _ _ _ Hb) as Hpf.
    destruct (round_units _ Hpf) as [Hrf Hru].
    split; [|split; [|split; [|split]]].
    + apply whole_units; [exact Hff|]. now rewrite Qfloor_value.
    + now apply SFfinite_finite.
    + apply whole_units; [exact Hrf|]. now rewrite Qfloor_value_half.
    + rewrite Qfloor_value_half. now apply minutes_decimal.
    + unfold formatHoursToHHMM.
      pose proof (finite_ordered v Hfin) as Ho. unfold ordered in Ho.
      unfold isNaN. now rewrite Ho.
Qed.

End FormatFacts.

Section RecordFacts.
Import JsString JsNumber OutputDashboard.

Lemma pieces_cons (line : string) (inQuotes : bool) :
  exists p ps, pieces line inQuotes = p :: ps.
Proof.
  revert inQuotes. induction line as [|c rest IH]; intros q; cbn [pieces].
  - eauto.
  - destruct (Ascii.eqb c quote); [apply IH|].
    destruct (Ascii.eqb c comma && negb q); [eauto|].
    destruct (IH q) as (p & ps & ->). eauto.
Qed.

Lemma loop_pieces (line : string) (result : list string) (current : string)
    (inQuotes : bool) :
  parseLine_loop line result current inQuotes
  = result ++ match pieces line inQuotes with
              | p :: ps => trim (current +:+ p) :: map trim ps
              | [] => [trim current]
              end.
Proof.
  revert result current inQuotes.
  induction line as [|c rest IH]; intros result current q;
    cbn [parseLine_loop pieces].
  - now rewrite append_nil_r.
  - destruct (Ascii.eqb c quote); [apply IH|].
    destruct (Ascii.eqb c comma && negb q).
    + rewrite IH, append_nil_r, <- app_assoc. cbn [app]. do 2 f_equal.
      destruct (pieces_cons rest q) as (p & ps & ->). reflexivity.
    + rewrite IH. destruct (pieces_cons rest q) as (p & ps & ->).
      rewrite append_assoc. reflexivity.
Qed.

(** [parseLine] returns the fields of the line. *)
Lemma parseLine_fields_of (line : string) : parseLine line = fields_of line.
Proof.
  rewrite parseLine_loop_clean, loop_pieces. unfold fields_of.
  destruct (pieces_cons line false) as (p & ps & ->). reflexivity.
Qed.

(** C7: a header line may name a field [__proto__], and then no record
    has this field: the sheet with the header [__proto__,name] and the
    line [1,Ann] has one record, whose only field is [name]; [__proto__]
    is not a property of the record, and reading it gives what every
    object inherits, not the string "1". *)
Theorem proto_field_not_stored :
  let sheet := parseCSV proto_header_text in
  headers sheet = ["__proto__"; "name"] /\
  exists row, rows sheet = [row] /\
    row !! "__proto__" = None /\
    row !! "name" = Some "Ann" /\
    forall h, is_Some (row !! h) <-> h = "name".
Proof.
  cbv zeta. split; [vm_compute; reflexivity|].
  exists (make_row ["__proto__"; "name"] "1,Ann").
  split; [vm_compute; reflexivity|].
  assert (forall h, is_Some (make_row ["__proto__"; "name"] "1,Ann" !! h)
                    <-> h = "name") as Hdom.
  { intros h. unfold make_row. rewrite fill_row_dom, lookup_empty.
    rewrite !elem_of_cons, elem_of_nil. split.
    - intros [[[->|[->|[]]] Hp]|H]; [congruence|reflexivity|now destruct H].
    - intros ->. left. split; [tauto|discriminate]. }
  split; [|split; [|exact Hdom]].
  - destruct (make_row _ _ !! "__proto__") eqn:E; [|reflexivity].
    assert (is_Some (make_row ["__proto__"; "name"] "1,Ann" !! "__proto__")) as H
      by (rewrite E; eauto).
    apply Hdom in H. discriminate.
  - unfold make_row.
    rewrite (fill_row_header ["__proto__"; "name"] 0 _ _ 1 "name");
      [vm_compute; reflexivity|reflexivity|discriminate|].
    intros [|[|[|j']]] Hj; try lia; cbn; discriminate.
Qed.

(** With a header line and [R] further surviving lines, [parseCSV]
    returns the fields of the header line and [R] records, the [i]-th
    built from the [i]-th line: its fields are the declared ones other
    than [__proto__], each with the value at its position in the line
    (for a name declared twice, its last position), the empty string when
    the line has no value there; values past the last declared field are
    kept nowhere. *)
Theorem parseCSV_records (text hdr : string) (rest : list string) :
  surviving_lines text = hdr :: rest ->
  let sheet := parseCSV text in
  headers sheet = fields_of hdr /\
  length (rows sheet) = length rest /\
  forall i line, rest !! i = Some line ->
    exists row, rows sheet !! i = Some row /\
      (forall h, is_Some (row !! h) <-> h ∈ headers sheet /\ h <> "__proto__") /\
      (forall j h, headers sheet !! j = Some h -> h <> "__proto__" ->
         (forall j', j < j' -> headers sheet !! j' <> Some h) ->
         row !! h = Some (default "" (fields_of line !! j))).
Proof.
  intros Hs sheet. subst sheet. rewrite (parseCSV_shape _ _ _ Hs).
  cbn [headers rows]. rewrite parseLine_fields_of.
  split; [reflexivity|]. split; [apply length_map|].
  intros i line Hi. exists (make_row (fields_of hdr) line). split.
  - change (map ?f ?l) with (f <$> l). rewrite list_lookup_fmap, Hi. reflexivity.
  - unfold make_row. rewrite parseLine_fields_of. split.
    + intros h. rewrite fill_row_dom. rewrite lookup_empty.
      split; [|tauto]. intros [H|H]; [exact H|]. now destruct H.
    + intros j h Hj Hp Hlast.
      now rewrite (fill_row_header _ 0 _ _ j h Hj Hp Hlast).
Qed.

Lemma parseCSV_records_witness :
  let sheet := parseCSV sample_text in
  headers sheet = fields_of "id,name,city" /\
  length (rows sheet) = 2 /\
  forall i line, ["1,Ann"; "2,Bob,Oslo,extra"] !! i = Some line ->
    exists row, rows sheet !! i = Some row /\
      (forall h, is_Some (row !! h) <-> h ∈ headers sheet /\ h <> "__proto__") /\
      (forall j h, headers sheet !! j = Some h -> h <> "__proto__" ->
         (forall j', j < j' -> headers sheet !! j' <> Some h) ->
         row !! h = Some (default "" (fields_of line !! j))).
Proof.
  apply (parseCSV_records sample_text "id,name,city" ["1,Ann"; "2,Bob,Oslo,extra"]).
  reflexivity.
Defined.

End RecordFacts.

Section MeanFacts.
Import JsString JsNumber JsObject OutputDashboard.
Local Open Scope float_scope.

(** The cards of a sheet with one request id. *)
Lemma scenarioMetrics_one (engine : JsArray.Sort) (data : list SheetRow)
    (cur : option string) (o : obj (list SheetRow)) (m : ScenarioMetrics) :
  conforming engine -> data <> [] ->
  group_by_scenario data = Normal o ->
  scenario_results o cur = [m] ->
  scenarioMetrics engine data cur = Normal (Some [m]).
Proof.
  intros He Hne Hg Hr. unfold scenarioMetrics.
  destruct data as [|r0 data0]; [congruence|]. rewrite Hg, Hr.
  do 2 f_equal. destruct (He _ current_first [m]) as [Hp _].
  now apply Permutation_singleton_r in Hp.
Qed.

(** C8: a vehicle whose code is the name of a property every object
    inherits is not counted.  The rows of scenario S1 identify two
    vehicles, [V1] and [toString], with distances 10 and 20 and one stop
    each, whose means are 15.00 and 1.0; the card reports one vehicle and
    the averages 10.00 and 1.0 of [V1] alone. *)
Theorem prototype_vehicle_not_counted (engine : JsArray.Sort) :
  conforming engine ->
  let rows := rows_of_scenario "S1" vehicle_toString in
  named_vehicles rows = ["V1"; "toString"] /\
  map (vehicle_distance rows) (named_vehicles rows) = [10; 20] /\
  map (vehicle_stops rows) (named_vehicles rows) = [1; 1] /\
  toFixed (mean (map (vehicle_distance rows) (named_vehicles rows))) 2 = "15.00" /\
  toFixed (mean (map (vehicle_stops rows) (named_vehicles rows))) 1 = "1.0" /\
  scenarioMetrics engine vehicle_toString None = Normal (Some [vehicle_toString_S1]).
Proof.
  intros He. cbv zeta. repeat split; try (vm_compute; reflexivity).
  eapply (scenarioMetrics_one engine vehicle_toString None); [exact He| | |].
  - vm_compute. discriminate.
  - vm_compute. reflexivity.
  - vm_compute. reflexivity.
Qed.

Lemma prototype_vehicle_not_counted_witness :
  let rows := rows_of_scenario "S1" vehicle_toString in
  named_vehicles rows = ["V1"; "toString"] /\
  map (vehicle_distance rows) (named_vehicles rows) = [10; 20] /\
  map (vehicle_stops rows) (named_vehicles rows) = [1; 1] /\
  toFixed (mean (map (vehicle_distance rows) (named_vehicles rows))) 2 = "15.00" /\
  toFixed (mean (map (vehicle_stops rows) (named_vehicles rows))) 1 = "1.0" /\
  scenarioMetrics (fun A => @JsArray.sort A) vehicle_toString None
  = Normal (Some [vehicle_toString_S1]).
Proof.
  apply (prototype_vehicle_not_counted (fun A => @JsArray.sort A)).
  apply sort_conforming.
Defined.





End MeanFacts.

Section NumeralFacts.
Import JsString JsNumber JsObject OutputDashboard.
Local Open Scope Z_scope.




















End NumeralFacts.

Section MeanTheorems.
Import JsString JsNumber JsObject OutputDashboard.
Local Open Scope float_scope.



End MeanTheorems.
